(** * A model of the chat relay of [chat-server/server.py]

    The development embeds the [ChatServer] class: the per-connection
    handler [handle_client], the router methods [handle_dm], [broadcast]
    and [disconnect_user], and the text primitives of Python they rely on.
    Sockets are identifiers; every [sendall] and [close] is recorded in a
    chronological log together with its outcome, and the outcome itself is
    decided by an arbitrary environment that sees the whole history.
    [self.lock] makes every block it guards atomic: the model runs the
    actions of the handlers one at a time, and the relation [step] lets any
    connection act between two of them. *)

From Stdlib Require Import Strings.String Strings.Byte.
From Stdlib Require Import List ZArith Bool Lia Arith.
Import ListNotations.
Open Scope Z_scope.

(** ** Python text and byte strings *)

(** A Python [str] is a sequence of code points, a [bytes] object a sequence
    of octets. *)
Definition str := list Z.
Definition bytes := list byte.

Module Text.

Definition byte_val (b : byte) : Z := Z.of_N (Byte.to_N b).

Definition byte_of (z : Z) : byte :=
  match Byte.of_N (Z.to_N z) with
  | Some b => b
  | None => x00
  end.

(** Byte-string literal [b"..."]. *)
Definition B (s : string) : bytes := list_byte_of_string s.

(** Text literal ["..."] (the literals of the program are ASCII). *)
Definition T (s : string) : str := map byte_val (list_byte_of_string s).

Definition SP : Z := 32.
Definition LF : Z := 10.

(** [b"...\n"] and ["...\n"]. *)
Definition Bn (s : string) : bytes := B s ++ [x0a].
Definition Tn (s : string) : str := T s ++ [LF].

Fixpoint str_eqb (a b : str) : bool :=
  match a, b with
  | [], [] => true
  | x :: a', y :: b' => (x =? y) && str_eqb a' b'
  | _, _ => false
  end.

(** [c in s] for a one-character [c]. *)
Definition contains (c : Z) (s : str) : bool := existsb (Z.eqb c) s.

(** [s.split(sep, 1)] for a one-character separator: a list of one element
    when [sep] does not occur, of two elements (the text before and after the
    first occurrence) when it does. *)
Fixpoint split_once (sep : Z) (s : str) : list str :=
  match s with
  | [] => [[]]
  | c :: r =>
      if c =? sep then [[]; r]
      else match split_once sep r with
           | h :: t => (c :: h) :: t
           | [] => [[c]]
           end
  end.

(** [str.isspace] for one code point: the white-space table of CPython
    ([_PyUnicode_IsWhitespace]). *)
Definition is_space (c : Z) : bool :=
  ((0x09 <=? c) && (c <=? 0x0D)) || ((0x1C <=? c) && (c <=? 0x20))
  || (c =? 0x85) || (c =? 0xA0) || (c =? 0x1680)
  || ((0x2000 <=? c) && (c <=? 0x200A))
  || (c =? 0x2028) || (c =? 0x2029) || (c =? 0x202F) || (c =? 0x205F)
  || (c =? 0x3000).

Fixpoint lstrip (s : str) : str :=
  match s with
  | [] => []
  | c :: r => if is_space c then lstrip r else s
  end.

Definition rstrip (s : str) : str := rev (lstrip (rev s)).

(** [s.strip()] *)
Definition strip (s : str) : str := rstrip (lstrip s).

(** [sep.join(l)] *)
Fixpoint join (sep : str) (l : list str) : str :=
  match l with
  | [] => []
  | [x] => x
  | x :: r => x ++ sep ++ join sep r
  end.

(** *** The UTF-8 codec, strict error handling *)

Definition is_cont (x : Z) : bool := (0x80 <=? x) && (x <? 0xC0).

(** [bytes.decode('utf-8')]: [None] stands for [UnicodeDecodeError].  A
    sequence is accepted exactly when it is well formed: shortest form, no
    surrogate, at most U+10FFFF, and no truncated character at the end. *)
Fixpoint decode (bs : bytes) : option str :=
  match bs with
  | [] => Some []
  | b0 :: r0 =>
      let x0 := byte_val b0 in
      if x0 <? 0x80 then option_map (cons x0) (decode r0)
      else if x0 <? 0xC2 then None
      else if x0 <? 0xE0 then
        match r0 with
        | b1 :: r1 =>
            let x1 := byte_val b1 in
            if is_cont x1
            then option_map (cons ((x0 - 0xC0) * 64 + (x1 - 0x80))) (decode r1)
            else None
        | _ => None
        end
      else if x0 <? 0xF0 then
        match r0 with
        | b1 :: b2 :: r2 =>
            let x1 := byte_val b1 in
            let x2 := byte_val b2 in
            let lo := if x0 =? 0xE0 then 0xA0 else 0x80 in
            let hi := if x0 =? 0xED then 0xA0 else 0xC0 in
            if (lo <=? x1) && (x1 <? hi) && is_cont x2
            then option_map
                   (cons ((x0 - 0xE0) * 4096 + (x1 - 0x80) * 64 + (x2 - 0x80)))
                   (decode r2)
            else None
        | _ => None
        end
      else if x0 <? 0xF5 then
        match r0 with
        | b1 :: b2 :: b3 :: r3 =>
            let x1 := byte_val b1 in
            let x2 := byte_val b2 in
            let x3 := byte_val b3 in
            let lo := if x0 =? 0xF0 then 0x90 else 0x80 in
            let hi := if x0 =? 0xF4 then 0x90 else 0xC0 in
            if (lo <=? x1) && (x1 <? hi) && is_cont x2 && is_cont x3
            then option_map
                   (cons ((x0 - 0xF0) * 262144 + (x1 - 0x80) * 4096
                          + (x2 - 0x80) * 64 + (x3 - 0x80)))
                   (decode r3)
            else None
        | _ => None
        end
      else None
  end.

(** The encoding of one code point; a surrogate has none. *)
Definition encode_cp (c : Z) : option bytes :=
  if c <? 0 then None
  else if c <? 0x80 then Some [byte_of c]
  else if c <? 0x800 then
    Some [byte_of (0xC0 + c / 64); byte_of (0x80 + c mod 64)]
  else if c <? 0x10000 then
    if (0xD800 <=? c) && (c <? 0xE000) then None
    else Some [byte_of (0xE0 + c / 4096); byte_of (0x80 + (c / 64) mod 64);
               byte_of (0x80 + c mod 64)]
  else if c <? 0x110000 then
    Some [byte_of (0xF0 + c / 262144); byte_of (0x80 + (c / 4096) mod 64);
          byte_of (0x80 + (c / 64) mod 64); byte_of (0x80 + c mod 64)]
  else None.

(** [str.encode('utf-8')]: [None] stands for [UnicodeEncodeError]. *)
Fixpoint encode (s : str) : option bytes :=
  match s with
  | [] => Some []
  | c :: r =>
      match encode_cp c, encode r with
      | Some b, Some br => Some (b ++ br)
      | _, _ => None
      end
  end.

(** The code points that have an encoding: all but the surrogates. *)
Definition scalar (c : Z) : Prop :=
  0 <= c < 0xD800 \/ 0xE000 <= c < 0x110000.

(** [str.upper] restricted to ASCII letters; used to instantiate the case
    mapping, which the handler takes as a parameter. *)
Definition ascii_upper (s : str) : str :=
  map (fun c => if (0x61 <=? c) && (c <=? 0x7A) then c - 32 else c) s.

End Text.
Import Text.

(** ** Exceptions and state *)

Inductive exn := OSError | KeyError | UnicodeEncodeError.

Inductive res (A : Type) :=
| Ok (a : A)
| Raise (e : exn).
Arguments Ok {A} a.
Arguments Raise {A} e.

(** A computation over a state [S]: it returns normally or raises, and the
    state it leaves behind is kept in both cases. *)
Definition M (S A : Type) : Type := S -> res A * S.

Definition ret {S A} (a : A) : M S A := fun s => (Ok a, s).

Definition raise {S A} (e : exn) : M S A := fun s => (Raise e, s).

Definition bind {S A B} (m : M S A) (k : A -> M S B) : M S B :=
  fun s => match m s with
           | (Ok a, s') => k a s'
           | (Raise e, s') => (Raise e, s')
           end.

(** [try: m  except: h] with a handler that catches everything. *)
Definition catch {S A} (m : M S A) (h : M S A) : M S A :=
  fun s => match m s with
           | (Ok a, s') => (Ok a, s')
           | (Raise _, s') => h s'
           end.

Definition gets {S A} (f : S -> A) : M S A := fun s => (Ok (f s), s).

Definition modify {S} (f : S -> S) : M S unit := fun s => (Ok tt, f s).

Declare Scope chat_scope.
Delimit Scope chat_scope with chat.
Notation "x <- m ;; k" := (bind m (fun x => k))
  (at level 61, m at next level, right associativity) : chat_scope.
Notation "m ;; k" := (bind m (fun _ => k))
  (at level 61, right associativity) : chat_scope.
Open Scope chat_scope.

(** ** Sockets and the registry *)

Definition sock := nat.

(** One entry per call on a socket, with whether the call returned normally. *)
Inductive event :=
| EvSend (s : sock) (data : bytes) (ok : bool)
| EvClose (s : sock) (ok : bool).

(** [self.clients]: a Python dict keeps its keys in insertion order, so it is
    a list of pairs; that no key occurs twice is an invariant to be proved. *)
Definition dict := list (str * sock).

Definition keys (d : dict) : list str := map fst d.

Fixpoint dict_get (k : str) (d : dict) : option sock :=
  match d with
  | [] => None
  | (k', v) :: r => if str_eqb k k' then Some v else dict_get k r
  end.

(** [k in d] *)
Definition dict_mem (k : str) (d : dict) : bool :=
  match dict_get k d with Some _ => true | None => false end.

(** [d[k] = v]: an existing key keeps its place, a new one goes last. *)
Fixpoint dict_set (k : str) (v : sock) (d : dict) : dict :=
  match d with
  | [] => [(k, v)]
  | (k', v') :: r =>
      if str_eqb k k' then (k', v) :: r else (k', v') :: dict_set k v r
  end.

(** [del d[k]]: [None] stands for [KeyError]. *)
Fixpoint dict_del (k : str) (d : dict) : option dict :=
  match d with
  | [] => None
  | (k', v') :: r =>
      if str_eqb k k' then Some r
      else option_map (cons (k', v')) (dict_del k r)
  end.

(** The state of the server object and of the network around it. *)
Record world := { clients : dict; log : list event }.

(** The local variables of one running [handle_client], next to the shared
    state it works on. *)
Record handler := { srv : world; username : option str; buffer : str }.

Definition set_clients (d : dict) (w : world) : world :=
  {| clients := d; log := log w |}.

Definition add_event (e : event) (w : world) : world :=
  {| clients := clients w; log := log w ++ [e] |}.

Definition set_username (u : option str) (h : handler) : handler :=
  {| srv := srv h; username := u; buffer := buffer h |}.

Definition set_buffer (b : str) (h : handler) : handler :=
  {| srv := srv h; username := username h; buffer := b |}.

(** A method of the server called from inside a handler. *)
Definition lift {A} (m : M world A) : M handler A :=
  fun h => let (r, w) := m (srv h) in
           (r, {| srv := w; username := username h; buffer := buffer h |}).

(** What [recv] gives back: a chunk (the empty one when the peer has closed)
    or an error. *)
Inductive recv_result :=
| Data (d : bytes)
| RecvError.

(** [if username:] holds for a non-empty string only. *)
Definition truthy (u : option str) : bool :=
  match u with
  | Some (_ :: _) => true
  | _ => false
  end.

(** The text of [username] inside an f-string. *)
Definition name_of (u : option str) : str :=
  match u with
  | Some n => n
  | None => T "None"
  end.

Definition welcome : bytes := Bn "Welcome! Please login with: LOGIN <username>".

Section Server.

(** The Unicode case mapping of [str.upper]. *)
Variable upper : str -> str.

(** The environment: whether a [sendall] or a [close] returns normally, given
    everything that happened so far. *)
Variable send_ok : list event -> sock -> bytes -> bool.
Variable close_ok : list event -> sock -> bool.

(** [s.sendall(data)] *)
Definition sendall (s : sock) (data : bytes) : M world unit :=
  fun w =>
    let ok := send_ok (log w) s data in
    (if ok then Ok tt else Raise OSError, add_event (EvSend s data ok) w).

(** [s.sendall(text.encode('utf-8'))] *)
Definition send_text (s : sock) (text : str) : M world unit :=
  match encode text with
  | Some data => sendall s data
  | None => raise UnicodeEncodeError
  end.

(** [s.close()] *)
Definition close (s : sock) : M world unit :=
  fun w =>
    let ok := close_ok (log w) s in
    (if ok then Ok tt else Raise OSError, add_event (EvClose s ok) w).

(** The loop of [broadcast] over [self.clients.items()]; [dead] is
    [dead_clients]. *)
Fixpoint broadcast_loop (message : str) (exclude_user : option str)
    (items : dict) (dead : list str) : M world (list str) :=
  match items with
  | [] => ret dead
  | (user, s) :: rest =>
      if match exclude_user with
         | Some x => negb (str_eqb user x)
         | None => true
         end
      then
        dead' <- catch (send_text s (message ++ [LF]) ;; ret dead)
                       (ret (dead ++ [user])) ;;
        broadcast_loop message exclude_user rest dead'
      else broadcast_loop message exclude_user rest dead
  end.

(** [for user in dead_clients: del self.clients[user]] *)
Fixpoint evict (dead : list str) : M world unit :=
  match dead with
  | [] => ret tt
  | user :: rest =>
      d <- gets clients ;;
      match dict_del user d with
      | Some d' => modify (set_clients d') ;; evict rest
      | None => raise KeyError
      end
  end.

Definition broadcast (message : str) (exclude_user : option str)
    : M world unit :=
  items <- gets clients ;;
  dead_clients <- broadcast_loop message exclude_user items [] ;;
  evict dead_clients.

Definition disconnect_user (name : str) : M world unit :=
  d <- gets clients ;;
  (if dict_mem name d
   then match dict_del name d with
        | Some d' => modify (set_clients d')
        | None => raise KeyError
        end
   else ret tt) ;;
  broadcast (T "INFO " ++ name ++ T " disconnected") None.

Definition handle_dm (sender args : str) (sender_socket : sock)
    : M world unit :=
  let parts := split_once SP args in
  if (length parts <? 2)%nat
  then sendall sender_socket (Bn "ERR usage: DM <username> <message>")
  else
    let target_username := nth 0 parts [] in
    let message := nth 1 parts [] in
    d <- gets clients ;;
    match dict_get target_username d with
    | Some target_socket =>
        catch (send_text target_socket
                 (T "DM " ++ sender ++ [SP] ++ message ++ [LF]))
              (ret tt)
    | None => sendall sender_socket (Bn "ERR user-not-found")
    end.

(** [parts = command.split(' ', 1)], [cmd = parts[0].upper()] and
    [arg = parts[1] if len(parts) > 1 else ""]. *)
Definition parse (command : str) : str * str :=
  let parts := split_once SP command in
  (upper (nth 0 parts []),
   if (1 <? length parts)%nat then nth 1 parts [] else []).

(** The body of the inner [while] loop of [handle_client] for one framed
    [line]; a [continue] is the end of the body. *)
Definition handle_line (client_socket : sock) (line : str) : M handler unit :=
  let command := strip line in
  if (length command =? 0)%nat then ret tt
  else
    let (cmd, arg) := parse command in
    u <- gets username ;;
    if negb (truthy u) then
      if str_eqb cmd (T "LOGIN") then
        if (length arg =? 0)%nat
        then lift (sendall client_socket (Bn "ERR invalid-username"))
        else
          let new_username := strip arg in
          if contains SP new_username || (length new_username <? 1)%nat
          then lift (sendall client_socket (Bn "ERR invalid-username"))
          else
            d <- gets (fun h => clients (srv h)) ;;
            if dict_mem new_username d
            then lift (sendall client_socket (Bn "ERR username-taken"))
            else
              modify (set_username (Some new_username)) ;;
              lift (modify (fun w =>
                      set_clients (dict_set new_username client_socket
                                     (clients w)) w)) ;;
              lift (sendall client_socket (Bn "OK"))
      else lift (sendall client_socket (Bn "ERR login-required"))
    else
      if str_eqb cmd (T "MSG") then
        if (length arg =? 0)%nat then ret tt
        else lift (broadcast (T "MSG " ++ name_of u ++ [SP] ++ arg) u)
      else if str_eqb cmd (T "WHO") then
        lift (d <- gets clients ;;
              send_text client_socket
                (T "USERS " ++ join (T ", ") (keys d) ++ [LF]))
      else if str_eqb cmd (T "PING") then
        lift (sendall client_socket (Bn "PONG"))
      else if str_eqb cmd (T "DM") then
        lift (handle_dm (name_of u) arg client_socket)
      else lift (sendall client_socket (Bn "ERR unknown-command")).

(** [while '\n' in buffer: line, buffer = buffer.split('\n', 1); ...].
    Every turn removes at least the newline from the buffer, so a fuel of
    one more than the length of the buffer is never used up. *)
Fixpoint drain (fuel : nat) (client_socket : sock) : M handler unit :=
  match fuel with
  | O => ret tt
  | S fuel' =>
      b <- gets buffer ;;
      if contains LF b then
        let parts := split_once LF b in
        modify (set_buffer (nth 1 parts [])) ;;
        handle_line client_socket (nth 0 parts []) ;;
        drain fuel' client_socket
      else ret tt
  end.

(** The outer [while True] loop over the results of successive [recv]
    calls.  [true]: the loop was left by [break]; [false]: every given
    result was consumed and the handler waits in [recv]. *)
Fixpoint recv_loop (client_socket : sock) (inputs : list recv_result)
    : M handler bool :=
  match inputs with
  | [] => ret false
  | RecvError :: _ => raise OSError
  | Data data :: rest =>
      if (length data =? 0)%nat then ret true
      else
        match decode data with
        | None => recv_loop client_socket rest
        | Some text =>
            b <- gets buffer ;;
            modify (set_buffer (b ++ text)) ;;
            b' <- gets buffer ;;
            drain (S (length b')) client_socket ;;
            recv_loop client_socket rest
        end
  end.

(** The [finally] clause of [handle_client]. *)
Definition finally_clause (client_socket : sock) : M handler unit :=
  u <- gets username ;;
  (if truthy u then lift (disconnect_user (name_of u)) else ret tt) ;;
  lift (catch (close client_socket) (ret tt)).

(** [handle_client]: [Ok false] when the handler still waits for input,
    [Ok true] when it has returned; an exception of the [try] body is caught
    and followed by the [finally] clause. *)
Definition handle_client_from (client_socket : sock)
    (inputs : list recv_result) : M handler bool :=
  fun h =>
    match (lift (sendall client_socket welcome) ;;
           recv_loop client_socket inputs) h with
    | (Ok false, h') => (Ok false, h')
    | (_, h') => (finally_clause client_socket ;; ret true) h'
    end.

Definition handle_client (client_socket : sock) (inputs : list recv_result)
    (w : world) : res bool * handler :=
  handle_client_from client_socket inputs
    {| srv := w; username := None; buffer := [] |}.

(** ** Vocabulary of the statements *)

(** The entries a broadcast writes to. *)
Definition targets (exclude_user : option str) (d : dict) : dict :=
  filter (fun kv => match exclude_user with
                    | Some x => negb (str_eqb (fst kv) x)
                    | None => true
                    end) d.

(** The outcomes the environment gives to successive sends of [data], one to
    each of [socks], when the history before the first is [lg]. *)
Fixpoint outcomes (lg : list event) (data : bytes) (socks : list sock)
    : list bool :=
  match socks with
  | [] => []
  | s :: r =>
      let ok := send_ok lg s data in
      ok :: outcomes (lg ++ [EvSend s data ok]) data r
  end.

(** One send of [data] per entry, with the given outcomes. *)
Definition sends (data : bytes) (tg : dict) (oks : list bool) : list event :=
  map (fun p => EvSend (snd (fst p)) data (snd p)) (combine tg oks).

(** The names of the entries whose send did not succeed. *)
Definition failed (tg : dict) (oks : list bool) : list str :=
  map (fun p => fst (fst p)) (filter (fun p => negb (snd p)) (combine tg oks)).

(** The registry without the entries of the given names. *)
Definition without (names : list str) (d : dict) : dict :=
  filter (fun kv => negb (existsb (str_eqb (fst kv)) names)) d.

Definition unique_keys (w : world) : Prop := NoDup (keys (clients w)).

(** A name that passes the check of [LOGIN]. *)
Definition valid_name (n : str) : Prop := n <> [] /\ ~ In SP n.

Definition valid_names (w : world) : Prop :=
  Forall valid_name (keys (clients w)).

(** The atomic actions of the handlers on the shared state: one framed line
    of any connection, the removal and the notification of
    [disconnect_user], a broadcast, the closing of a socket. *)
Inductive step : world -> world -> Prop :=
| step_line c line h r h' :
    handle_line c line h = (r, h') -> step (srv h) (srv h')
| step_disconnect name w r w' :
    disconnect_user name w = (r, w') -> step w w'
| step_broadcast message exclude_user w r w' :
    broadcast message exclude_user w = (r, w') -> step w w'
| step_close c w r w' :
    close c w = (r, w') -> step w w'.

(** The states of a server that started with an empty registry. *)
Inductive reachable : world -> Prop :=
| reach_start lg : reachable {| clients := []; log := lg |}
| reach_step w w' : reachable w -> step w w' -> reachable w'.

(** The reading of section 4.3 of the specification: the argument of a DM
    splits on its first space into two non-empty parts. *)
Definition two_nonempty_parts (args : str) : bool :=
  match split_once SP args with
  | [target; message] =>
      negb (length target =? 0)%nat && negb (length message =? 0)%nat
  | _ => false
  end.

(** The two halves of the dispatch of [handle_line]. *)
Definition authenticated_body (client_socket : sock) (u : option str)
    (cmd arg : str) : M handler unit :=
  if str_eqb cmd (T "MSG") then
    if (length arg =? 0)%nat then ret tt
    else lift (broadcast (T "MSG " ++ name_of u ++ [SP] ++ arg) u)
  else if str_eqb cmd (T "WHO") then
    lift (d <- gets clients ;;
          send_text client_socket
            (T "USERS " ++ join (T ", ") (keys d) ++ [LF]))
  else if str_eqb cmd (T "PING") then
    lift (sendall client_socket (Bn "PONG"))
  else if str_eqb cmd (T "DM") then
    lift (handle_dm (name_of u) arg client_socket)
  else lift (sendall client_socket (Bn "ERR unknown-command")).

Definition login_body (client_socket : sock) (arg : str) : M handler unit :=
  if (length arg =? 0)%nat
  then lift (sendall client_socket (Bn "ERR invalid-username"))
  else
    let new_username := strip arg in
    if contains SP new_username || (length new_username <? 1)%nat
    then lift (sendall client_socket (Bn "ERR invalid-username"))
    else
      d <- gets (fun h => clients (srv h)) ;;
      if dict_mem new_username d
      then lift (sendall client_socket (Bn "ERR username-taken"))
      else
        modify (set_username (Some new_username)) ;;
        lift (modify (fun w =>
                set_clients (dict_set new_username client_socket
                               (clients w)) w)) ;;
        lift (sendall client_socket (Bn "OK")).

(** The state a handler is left in by one send to a socket. *)
Definition after_send (h : handler) (s : sock) (data : bytes) (ok : bool)
    : handler :=
  {| srv := add_event (EvSend s data ok) (srv h);
     username := username h;
     buffer := buffer h |}.

(** What one [sendall] of the handler amounts to: the outcome is that of the
    environment, and the only change is the logged call. *)
Definition answers (r : res unit * handler) (h : handler) (s : sock)
    (data : bytes) : Prop :=
  let ok := send_ok (log (srv h)) s data in
  r = (if ok then Ok tt else Raise OSError, after_send h s data ok).

(** The state after a successful registration of [name] for socket [c]. *)
Definition registered (h : handler) (c : sock) (name : str) : handler :=
  let ok := send_ok (log (srv h)) c (Bn "OK") in
  {| srv := {| clients := clients (srv h) ++ [(name, c)];
               log := log (srv h) ++ [EvSend c (Bn "OK") ok] |};
     username := Some name;
     buffer := buffer h |}.

(** ** Concrete environments and states *)

(** Every send succeeds. *)
Definition always_sent : list event -> sock -> bytes -> bool :=
  fun _ _ _ => true.

(** Every close succeeds. *)
Definition always_closed : list event -> sock -> bool := fun _ _ => true.

(** Every send to [bad] fails, every other one succeeds. *)
Definition broken (bad : sock) : list event -> sock -> bytes -> bool :=
  fun _ s _ => negb (Nat.eqb s bad).

Definition alice : str := T "alice".
Definition bob : str := T "bob".
Definition carol : str := T "carol".

Definition nobody : world := {| clients := []; log := [] |}.

Definition alice_and_bob : world :=
  {| clients := [(alice, 1%nat); (bob, 2%nat)]; log := [] |}.

Definition three_users : world :=
  {| clients := [(alice, 1%nat); (bob, 2%nat); (carol, 3%nat)]; log := [] |}.

(** A handler that has logged in as [name]. *)
Definition logged_in (name : str) (w : world) : handler :=
  {| srv := w; username := Some name; buffer := [] |}.

(** A handler that has not logged in. *)
Definition anonymous (w : world) : handler :=
  {| srv := w; username := None; buffer := [] |}.

(** The text of the answer to WHO for a registry. *)
Definition users_line (d : dict) : str :=
  T "USERS " ++ join (T ", ") (keys d) ++ [LF].

(** ** The receiving side of the test client *)

(** [test_server.py], [receive_messages]: the inner loop
    [while '\n' in buffer: line, buffer = buffer.split('\n', 1);
    messages.append(line)].  Every turn shortens the buffer, so a fuel of one
    more than its length is never used up. *)
Fixpoint collect_lines (fuel : nat) (buffer : str) (messages : list str)
    : str * list str :=
  match fuel with
  | O => (buffer, messages)
  | S fuel' =>
      if contains LF buffer then
        let parts := split_once LF buffer in
        collect_lines fuel' (nth 1 parts []) (messages ++ [nth 0 parts []])
      else (buffer, messages)
  end.

(** The outer loop of [receive_messages] over the results of successive
    [recv] calls; every exception of the body ends the loop.  The result is
    whether the loop was left, the buffer, and the list [messages]. *)
Fixpoint receive_loop (inputs : list recv_result) (buffer : str)
    (messages : list str) : bool * str * list str :=
  match inputs with
  | [] => (false, buffer, messages)
  | RecvError :: _ => (true, buffer, messages)
  | Data data :: rest =>
      if (length data =? 0)%nat then (true, buffer, messages)
      else
        match decode data with
        | None => (true, buffer, messages)
        | Some text =>
            let (buffer', messages') :=
              collect_lines (S (length (buffer ++ text))) (buffer ++ text)
                messages in
            receive_loop rest buffer' messages'
        end
  end.

Definition receive_messages (inputs : list recv_result)
    (messages : list str) : bool * str * list str :=
  receive_loop inputs [] messages.

(** The text of a list of lines, each followed by its newline. *)
Definition unlines (lines : list str) : str :=
  flat_map (fun l => l ++ [LF]) lines.

(** ** More vocabulary *)

(** Two runs of a handler that end alike: the same result, the same shared
    state and the same name, and the same buffer unless an exception has
    ended the run (the buffer is not read after that). *)
Definition agree {A : Type} (x y : res A * handler) : Prop :=
  fst x = fst y
  /\ srv (snd x) = srv (snd y)
  /\ username (snd x) = username (snd y)
  /\ (forall a, fst x = Ok a -> buffer (snd x) = buffer (snd y)).

(** The calls of [w'] are those of [w] followed by further ones. *)
Definition extends (w w' : world) : Prop :=
  exists evs, log w' = log w ++ evs.

(** The last call on record. *)
Definition last_event (w : world) : option event :=
  match rev (log w) with
  | e :: _ => Some e
  | [] => None
  end.

(** The first character of a byte string and the bytes after it, as
    [decode] reads them. *)
Definition decode_char (bs : bytes) : option (Z * bytes) :=
  match bs with
  | [] => None
  | b0 :: r0 =>
      let x0 := byte_val b0 in
      if x0 <? 0x80 then Some (x0, r0)
      else if x0 <? 0xC2 then None
      else if x0 <? 0xE0 then
        match r0 with
        | b1 :: r1 =>
            let x1 := byte_val b1 in
            if is_cont x1
            then Some ((x0 - 0xC0) * 64 + (x1 - 0x80), r1)
            else None
        | _ => None
        end
      else if x0 <? 0xF0 then
        match r0 with
        | b1 :: b2 :: r2 =>
            let x1 := byte_val b1 in
            let x2 := byte_val b2 in
            let lo := if x0 =? 0xE0 then 0xA0 else 0x80 in
            let hi := if x0 =? 0xED then 0xA0 else 0xC0 in
            if (lo <=? x1) && (x1 <? hi) && is_cont x2
            then Some ((x0 - 0xE0) * 4096 + (x1 - 0x80) * 64 + (x2 - 0x80),
                       r2)
            else None
        | _ => None
        end
      else if x0 <? 0xF5 then
        match r0 with
        | b1 :: b2 :: b3 :: r3 =>
            let x1 := byte_val b1 in
            let x2 := byte_val b2 in
            let x3 := byte_val b3 in
            let lo := if x0 =? 0xF0 then 0x90 else 0x80 in
            let hi := if x0 =? 0xF4 then 0x90 else 0xC0 in
            if (lo <=? x1) && (x1 <? hi) && is_cont x2 && is_cont x3
            then Some ((x0 - 0xF0) * 262144 + (x1 - 0x80) * 4096
                       + (x2 - 0x80) * 64 + (x3 - 0x80), r3)
            else None
        | _ => None
        end
      else None
  end.

(** The bytes of one line of text: the encoding of a text without a
    newline, followed by the newline. *)
Definition line_bytes (data : bytes) : Prop :=
  exists text, ~ In LF text /\ encode (text ++ [LF]) = Some data.

(** Every send among the calls carries one line of text. *)
Definition sends_lines (evs : list event) : Prop :=
  Forall (fun e => match e with
                   | EvSend _ data _ => line_bytes data
                   | EvClose _ _ => True
                   end) evs.

(** The calls of [w'] are those of [w] followed by further ones, whose
    sends carry one line each. *)
Definition adds_lines (w w' : world) : Prop :=
  exists evs, log w' = log w ++ evs /\ sends_lines evs.

Definition no_newline_names (w : world) : Prop :=
  Forall (fun n => ~ In LF n) (keys (clients w)).

(** A handler whose own name and whose registry are free of newlines. *)
Definition tidy (h : handler) : Prop :=
  no_newline_names (srv h) /\ ~ In LF (name_of (username h)).

(** ** Starting up *)

(** How the [__main__] block of [server.py] ends: the server is started on
    a port, the process exits with status 1 after [Invalid port number], or
    a [ValueError] that nothing catches ends it. *)
Inductive startup :=
| Serve (port : Z)
| ExitInvalidPort
| UncaughtValueError.

(** The [__main__] block.  [int] is Python's conversion of a string to an
    integer ([None] stands for [ValueError]), [CHAT_PORT] the value of the
    environment variable when it is set, [argv] the list [sys.argv]. *)
Definition main (int : str -> option Z) (CHAT_PORT : option str)
    (argv : list str) : startup :=
  match match CHAT_PORT with
        | Some s => int s
        | None => Some 4000
        end with
  | None => UncaughtValueError
  | Some port =>
      if (1 <? length argv)%nat then
        match int (nth 1 argv []) with
        | Some p => Serve p
        | None => ExitInvalidPort
        end
      else Serve port
  end.

(** ** Properties of the text primitives *)

Lemma str_eqb_eq (a b : str) : str_eqb a b = true <-> a = b.
Proof.
  revert b; induction a as [|x a IH]; intros [|y b]; simpl; split;
    try congruence; try reflexivity.
  - rewrite andb_true_iff, Z.eqb_eq, IH. intros [-> ->]; reflexivity.
  - intros E; injection E as -> ->.
    rewrite Z.eqb_refl; simpl. apply IH; reflexivity.
Qed.

Lemma str_eqb_refl (a : str) : str_eqb a a = true.
Proof. apply str_eqb_eq; reflexivity. Qed.

Lemma str_eqb_neq (a b : str) : str_eqb a b = false <-> a <> b.
Proof.
  split.
  - intros E H. apply str_eqb_eq in H. congruence.
  - intros H. destruct (str_eqb a b) eqn:E; [|reflexivity].
    apply str_eqb_eq in E. contradiction.
Qed.

Lemma str_eqb_sym (a b : str) : str_eqb a b = str_eqb b a.
Proof.
  destruct (str_eqb b a) eqn:E.
  - apply str_eqb_eq in E; subst; apply str_eqb_refl.
  - apply str_eqb_neq in E. apply str_eqb_neq. congruence.
Qed.

Lemma contains_In (c : Z) (s : str) : contains c s = true <-> In c s.
Proof.
  unfold contains. rewrite existsb_exists. split.
  - intros (x & Hx & E). apply Z.eqb_eq in E. subst; assumption.
  - intros H. exists c. split; [assumption | apply Z.eqb_refl].
Qed.

Lemma contains_false (c : Z) (s : str) : contains c s = false <-> ~ In c s.
Proof.
  rewrite <- contains_In. destruct (contains c s); split; congruence.
Qed.

Lemma contains_app (c : Z) (a b : str) :
  contains c (a ++ b) = contains c a || contains c b.
Proof. unfold contains. apply existsb_app. Qed.

Lemma split_once_absent (sep : Z) (s : str) :
  contains sep s = false -> split_once sep s = [s].
Proof.
  induction s as [|c r IH]; simpl; [reflexivity|].
  rewrite Z.eqb_sym. destruct (c =? sep) eqn:E; simpl; [discriminate|].
  intros H. rewrite (IH H). reflexivity.
Qed.

Lemma split_once_at (sep : Z) (a b : str) :
  contains sep a = false -> split_once sep (a ++ sep :: b) = [a; b].
Proof.
  induction a as [|c r IH]; simpl.
  - rewrite Z.eqb_refl. reflexivity.
  - rewrite (Z.eqb_sym sep c). destruct (c =? sep) eqn:E; simpl; [discriminate|].
    intros H. rewrite (IH H). reflexivity.
Qed.

Lemma contains_split (c : Z) (s : str) :
  contains c s = true ->
  exists a b, s = a ++ c :: b /\ contains c a = false.
Proof.
  induction s as [|x r IH]; simpl; [discriminate|].
  destruct (c =? x) eqn:E; simpl.
  - intros _. apply Z.eqb_eq in E. subst x. exists [], r. split; reflexivity.
  - intros H. destruct (IH H) as (a & b & -> & Ha).
    exists (x :: a), b. split; [reflexivity|]. simpl. rewrite E. exact Ha.
Qed.

Lemma first_sep_unique (c : Z) (a a' b b' : str) :
  ~ In c a -> ~ In c a' -> a ++ c :: b = a' ++ c :: b' -> a = a' /\ b = b'.
Proof.
  revert a'; induction a as [|x a IH]; intros [|y a'] Ha Ha' E; simpl in *.
  - injection E as <-. split; reflexivity.
  - injection E as <- _. exfalso; apply Ha'; left; reflexivity.
  - injection E as -> _. exfalso; apply Ha; left; reflexivity.
  - injection E as <- E. destruct (IH a') as [-> ->]; auto.
Qed.

(** *** The codec *)

Lemma byte_val_range (b : byte) : 0 <= byte_val b < 256.
Proof.
  unfold byte_val. pose proof (Byte.to_N_bounded b) as H.
  lia.
Qed.

Lemma encode_cp_total (c : Z) : scalar c -> exists b, encode_cp c = Some b.
Proof.
  intros H. unfold encode_cp.
  destruct (Z.ltb_spec c 0); [unfold scalar in H; lia|].
  destruct (Z.ltb_spec c 0x80); [eauto|].
  destruct (Z.ltb_spec c 0x800); [eauto|].
  destruct (Z.ltb_spec c 0x10000).
  - destruct (Z.leb_spec 0xD800 c), (Z.ltb_spec c 0xE000); simpl; eauto.
    unfold scalar in H; lia.
  - destruct (Z.ltb_spec c 0x110000); [eauto|]. unfold scalar in H; lia.
Qed.

Lemma encode_cp_scalar (c : Z) (b : bytes) : encode_cp c = Some b -> scalar c.
Proof.
  unfold encode_cp, scalar.
  destruct (Z.ltb_spec c 0); [discriminate|].
  destruct (Z.ltb_spec c 0x80); [lia|].
  destruct (Z.ltb_spec c 0x800); [lia|].
  destruct (Z.ltb_spec c 0x10000).
  - destruct (Z.leb_spec 0xD800 c), (Z.ltb_spec c 0xE000); simpl;
      try discriminate; lia.
  - destruct (Z.ltb_spec c 0x110000); [lia | discriminate].
Qed.

(** Text without surrogates can be encoded, and only such text. *)
Lemma encode_total (s : str) :
  Forall scalar s <-> exists b, encode s = Some b.
Proof.
  induction s as [|c r IH]; simpl.
  - split; [eauto | constructor].
  - split.
    + intros H. inversion H as [|? ? Hc Hr]; subst.
      destruct (encode_cp_total c Hc) as (b & ->).
      apply IH in Hr. destruct Hr as (br & ->). eauto.
    + intros (b & H).
      destruct (encode_cp c) as [bc|] eqn:Ec; [|discriminate].
      destruct (encode r) as [br|] eqn:Er; [|discriminate].
      constructor; [eapply encode_cp_scalar; eauto|].
      apply IH. eauto.
Qed.

Lemma decode_scalar_bounded (n : nat) :
  forall (bs : bytes) (s : str),
    (length bs <= n)%nat -> decode bs = Some s -> Forall scalar s.
Proof.
  induction n as [|n IH]; intros bs s Hn H.
  - destruct bs; [|simpl in Hn; lia]. injection H as <-. constructor.
  - destruct bs as [|b0 r0]; [injection H as <-; constructor|].
    simpl in Hn. cbn [decode] in H. cbv zeta in H.
    pose proof (byte_val_range b0) as R0.
    destruct (Z.ltb_spec (byte_val b0) 0x80).
    { destruct (decode r0) as [s0|] eqn:E0; [|discriminate].
      injection H as <-. constructor; [unfold scalar; lia|].
      apply (IH r0); [lia | exact E0]. }
    destruct (Z.ltb_spec (byte_val b0) 0xC2); [discriminate|].
    destruct (Z.ltb_spec (byte_val b0) 0xE0).
    { destruct r0 as [|b1 r1]; [discriminate|]. simpl in Hn.
      unfold is_cont in H.
      destruct ((0x80 <=? byte_val b1) && (byte_val b1 <? 0xC0)) eqn:C1;
        [|discriminate].
      apply andb_true_iff in C1. destruct C1 as [L1 U1].
      apply Z.leb_le in L1. apply Z.ltb_lt in U1.
      destruct (decode r1) as [s1|] eqn:E1; [|discriminate].
      injection H as <-. constructor; [unfold scalar; lia|].
      apply (IH r1); [lia | exact E1]. }
    destruct (Z.ltb_spec (byte_val b0) 0xF0).
    { destruct r0 as [|b1 [|b2 r2]]; try discriminate. simpl in Hn.
      unfold is_cont in H.
      match type of H with
      | (if ?c then _ else _) = _ => destruct c eqn:C; [|discriminate]
      end.
      rewrite !andb_true_iff, !Z.leb_le, !Z.ltb_lt in C.
      destruct C as [[L1 U1] [L2 U2]].
      destruct (decode r2) as [s2|] eqn:E2; [|discriminate].
      injection H as <-. constructor.
      - destruct (Z.eqb_spec (byte_val b0) 0xE0),
                 (Z.eqb_spec (byte_val b0) 0xED); unfold scalar; lia.
      - apply (IH r2); [lia | exact E2]. }
    destruct (Z.ltb_spec (byte_val b0) 0xF5); [|discriminate].
    destruct r0 as [|b1 [|b2 [|b3 r3]]]; try discriminate. simpl in Hn.
    unfold is_cont in H.
    match type of H with
    | (if ?c then _ else _) = _ => destruct c eqn:C; [|discriminate]
    end.
    rewrite !andb_true_iff, !Z.leb_le, !Z.ltb_lt in C.
    destruct C as [[[L1 U1] [L2 U2]] [L3 U3]].
    destruct (decode r3) as [s3|] eqn:E3; [|discriminate].
    injection H as <-. constructor.
    + destruct (Z.eqb_spec (byte_val b0) 0xF0),
               (Z.eqb_spec (byte_val b0) 0xF4); unfold scalar; lia.
    + apply (IH r3); [lia | exact E3].
Qed.

(** What a chunk decodes to can always be encoded again. *)
Lemma decode_scalar (bs : bytes) (s : str) :
  decode bs = Some s -> Forall scalar s.
Proof. apply (decode_scalar_bounded (length bs)). apply Nat.le_refl. Qed.

(** ** Properties of the registry operations *)

Lemma dict_get_In (k : str) (d : dict) (v : sock) :
  dict_get k d = Some v -> In (k, v) d.
Proof.
  induction d as [|[k' v'] r IH]; simpl; [discriminate|].
  destruct (str_eqb k k') eqn:E.
  - apply str_eqb_eq in E. intros H; injection H as ->. subst; left; reflexivity.
  - intros H; right; auto.
Qed.

Lemma dict_get_None (k : str) (d : dict) :
  dict_get k d = None <-> ~ In k (keys d).
Proof.
  induction d as [|[k' v'] r IH]; simpl.
  - split; auto.
  - destruct (str_eqb k k') eqn:E.
    + apply str_eqb_eq in E. subst. split; [discriminate|].
      intros H; exfalso; apply H; left; reflexivity.
    + apply str_eqb_neq in E. rewrite IH. split.
      * intros H [H'|H']; [congruence | contradiction].
      * intros H H'; apply H; right; assumption.
Qed.

Lemma dict_mem_In (k : str) (d : dict) :
  dict_mem k d = true <-> In k (keys d).
Proof.
  unfold dict_mem. destruct (dict_get k d) eqn:E.
  - split; [intros _ | reflexivity].
    apply dict_get_In in E. apply (in_map fst) in E. exact E.
  - apply dict_get_None in E. split; [discriminate | contradiction].
Qed.

Lemma dict_mem_false (k : str) (d : dict) :
  dict_mem k d = false <-> ~ In k (keys d).
Proof.
  rewrite <- dict_mem_In. destruct (dict_mem k d); split; congruence.
Qed.

Lemma dict_set_fresh (k : str) (v : sock) (d : dict) :
  ~ In k (keys d) -> dict_set k v d = d ++ [(k, v)].
Proof.
  induction d as [|[k' v'] r IH]; simpl; [reflexivity|].
  intros H. destruct (str_eqb k k') eqn:E.
  - apply str_eqb_eq in E. exfalso; apply H; left; congruence.
  - rewrite IH; [reflexivity|]. intros H'; apply H; right; assumption.
Qed.

Lemma keys_app (a b : dict) : keys (a ++ b) = keys a ++ keys b.
Proof. apply map_app. Qed.

Lemma keys_without_incl (names : list str) (d : dict) :
  incl (keys (without names d)) (keys d).
Proof.
  intros k H. unfold keys, without in *.
  apply in_map_iff in H. destruct H as (kv & <- & H).
  apply filter_In in H. apply in_map. tauto.
Qed.

Lemma keys_filter_NoDup (f : str * sock -> bool) (d : dict) :
  NoDup (keys d) -> NoDup (keys (filter f d)).
Proof.
  induction d as [|kv r IH]; simpl; [auto|].
  intros H. inversion H as [|? ? Hn Hr]; subst.
  destruct (f kv); simpl; [constructor|]; auto.
  intros H'. apply Hn. unfold keys in *.
  apply in_map_iff in H'. destruct H' as (x & <- & Hx).
  apply filter_In in Hx. apply in_map. tauto.
Qed.

Lemma without_nil (d : dict) : without [] d = d.
Proof.
  unfold without. simpl. induction d as [|kv r IH]; simpl; congruence.
Qed.

Lemma without_without (a b : list str) (d : dict) :
  without b (without a d) = without (a ++ b) d.
Proof.
  unfold without. induction d as [|kv r IH]; simpl; [reflexivity|].
  rewrite existsb_app.
  destruct (existsb (str_eqb (fst kv)) a); simpl; [assumption|].
  destruct (existsb (str_eqb (fst kv)) b); simpl; congruence.
Qed.

Lemma without_absent (k : str) (d : dict) :
  ~ In k (keys d) -> without [k] d = d.
Proof.
  unfold without. induction d as [|[k' v'] r IH]; simpl; [reflexivity|].
  intros H. destruct (str_eqb k' k) eqn:E; simpl.
  - apply str_eqb_eq in E. exfalso; apply H; left; assumption.
  - f_equal. apply IH. intros H'; apply H; right; assumption.
Qed.

Lemma dict_del_without (k : str) (d : dict) :
  NoDup (keys d) -> In k (keys d) -> dict_del k d = Some (without [k] d).
Proof.
  induction d as [|[k' v'] r IH]; intros Hnd Hin; [contradiction|].
  inversion Hnd as [|? ? Hn Hr]; subst.
  change (dict_del k ((k', v') :: r))
    with (if str_eqb k k' then Some r
          else option_map (cons (k', v')) (dict_del k r)).
  change (without [k] ((k', v') :: r))
    with (if negb (str_eqb k' k || false)
          then (k', v') :: without [k] r else without [k] r).
  rewrite orb_false_r, (str_eqb_sym k' k).
  destruct (str_eqb k k') eqn:E; simpl negb; cbv iota.
  - apply str_eqb_eq in E. subst k'.
    rewrite without_absent; auto.
  - apply str_eqb_neq in E. destruct Hin as [Hin|Hin]; [simpl in Hin; congruence|].
    rewrite (IH Hr Hin). reflexivity.
Qed.

Lemma without_notin (names : list str) (d : dict) (k : str) :
  In k names -> ~ In k (keys (without names d)).
Proof.
  intros Hk H. unfold keys, without in H.
  apply in_map_iff in H. destruct H as (kv & <- & H).
  apply filter_In in H. destruct H as [_ H].
  apply negb_true_iff in H.
  assert (existsb (str_eqb (fst kv)) names = true); [|congruence].
  apply existsb_exists. exists (fst kv). split; [assumption | apply str_eqb_refl].
Qed.

Lemma without_keeps (names : list str) (d : dict) (k : str) :
  ~ In k names -> In k (keys d) -> In k (keys (without names d)).
Proof.
  intros Hk H. unfold keys, without in *.
  apply in_map_iff in H. destruct H as (kv & <- & H).
  apply in_map. apply filter_In. split; [assumption|].
  apply negb_true_iff. destruct (existsb _ names) eqn:E; [|reflexivity].
  apply existsb_exists in E. destruct E as (x & Hx & E).
  apply str_eqb_eq in E. subst x. contradiction.
Qed.

Lemma targets_keys_incl (ex : option str) (d : dict) :
  incl (keys (targets ex d)) (keys d).
Proof.
  intros k H. unfold keys, targets in *.
  apply in_map_iff in H. destruct H as (kv & <- & H).
  apply filter_In in H. apply in_map. tauto.
Qed.

Lemma failed_cons (kv : str * sock) (r : dict) (ok : bool) (oks : list bool) :
  failed (kv :: r) (ok :: oks)
  = if ok then failed r oks else fst kv :: failed r oks.
Proof. unfold failed; simpl. destruct ok; reflexivity. Qed.

Lemma failed_incl (tg : dict) (oks : list bool) :
  incl (failed tg oks) (keys tg).
Proof.
  revert oks; induction tg as [|kv r IH]; intros oks k H.
  - destruct oks; contradiction.
  - destruct oks as [|ok oks]; [contradiction|].
    rewrite failed_cons in H. simpl. destruct ok.
    + right. apply (IH oks). exact H.
    + destruct H as [H|H]; [left; assumption | right; apply (IH oks); exact H].
Qed.

Lemma failed_NoDup (tg : dict) (oks : list bool) :
  NoDup (keys tg) -> NoDup (failed tg oks).
Proof.
  revert oks; induction tg as [|kv r IH]; intros oks H.
  - destruct oks; constructor.
  - destruct oks as [|ok oks]; [constructor|].
    inversion H as [|? ? Hn Hr]; subst.
    rewrite failed_cons. destruct ok.
    + apply (IH oks Hr).
    + constructor; [|apply (IH oks Hr)].
      intros H'. apply Hn. apply (failed_incl r oks). exact H'.
Qed.

Lemma outcomes_length (lg : list event) (data : bytes) (socks : list sock) :
  length (outcomes lg data socks) = length socks.
Proof.
  revert lg; induction socks as [|s r IH]; intros lg; simpl; [reflexivity|].
  rewrite IH. reflexivity.
Qed.

(** ** The router: [broadcast], [disconnect_user], [handle_dm] *)

Lemma world_eta (w : world) : {| clients := clients w; log := log w |} = w.
Proof. destruct w; reflexivity. Qed.

Lemma handler_eta (h : handler) :
  {| srv := srv h; username := username h; buffer := buffer h |} = h.
Proof. destruct h; reflexivity. Qed.

Lemma sends_cons (data : bytes) (kv : str * sock) (r : dict) (ok : bool)
    (oks : list bool) :
  sends data (kv :: r) (ok :: oks) = EvSend (snd kv) data ok :: sends data r oks.
Proof. reflexivity. Qed.

Lemma sends_length (data : bytes) (tg : dict) (oks : list bool) :
  length oks = length tg -> length (sends data tg oks) = length tg.
Proof.
  intros H. unfold sends. rewrite length_map, length_combine, H.
  apply Nat.min_id.
Qed.

Lemma targets_cons (ex : option str) (kv : str * sock) (r : dict) :
  targets ex (kv :: r)
  = if match ex with
       | Some x => negb (str_eqb (fst kv) x)
       | None => true
       end
    then kv :: targets ex r else targets ex r.
Proof. reflexivity. Qed.

Lemma targets_None (d : dict) : targets None d = d.
Proof.
  unfold targets. induction d as [|kv r IH]; simpl; congruence.
Qed.

(** The loop of [broadcast] writes once to every entry other than the
    excluded one, whatever the earlier sends did, and leaves the registry as
    it is; it returns the names whose send failed. *)
Lemma broadcast_loop_eq (message : str) (ex : option str) (data : bytes) :
  encode (message ++ [LF]) = Some data ->
  forall (items : dict) (dead : list str) (w : world),
    let tg := targets ex items in
    let oks := outcomes (log w) data (map snd tg) in
    broadcast_loop message ex items dead w
    = (Ok (dead ++ failed tg oks),
       {| clients := clients w; log := log w ++ sends data tg oks |}).
Proof.
  intros Henc. induction items as [|[user s] rest IH]; intros dead w.
  - simpl. unfold ret, failed, sends. simpl.
    rewrite !app_nil_r, world_eta. reflexivity.
  - cbv zeta. rewrite targets_cons.
    change (broadcast_loop message ex ((user, s) :: rest) dead)
      with (if match ex with
               | Some x => negb (str_eqb user x)
               | None => true
               end
            then
              dead' <- catch (send_text s (message ++ [LF]) ;; ret dead)
                             (ret (dead ++ [user])) ;;
              broadcast_loop message ex rest dead'
            else broadcast_loop message ex rest dead).
    change (fst (user, s)) with user.
    destruct (match ex with
              | Some x => negb (str_eqb user x)
              | None => true
              end).
    + unfold bind at 1. unfold catch, send_text. rewrite Henc.
      unfold bind, sendall, ret.
      change (map snd ((user, s) :: targets ex rest))
        with (s :: map snd (targets ex rest)).
      change (outcomes (log w) data (s :: map snd (targets ex rest)))
        with (send_ok (log w) s data
              :: outcomes (log w ++ [EvSend s data (send_ok (log w) s data)])
                   data (map snd (targets ex rest))).
      rewrite failed_cons, sends_cons.
      destruct (send_ok (log w) s data) eqn:Hok.
      * rewrite IH. cbv zeta. unfold add_event. simpl.
        rewrite <- app_assoc. reflexivity.
      * rewrite IH. cbv zeta. unfold add_event. simpl.
        rewrite <- !app_assoc. reflexivity.
    + apply IH.
Qed.

(** With no encoding of the message there is nothing to write: every entry
    addressed counts as failed. *)
Lemma broadcast_loop_unencodable (message : str) (ex : option str) :
  encode (message ++ [LF]) = None ->
  forall (items : dict) (dead : list str) (w : world),
    broadcast_loop message ex items dead w
    = (Ok (dead ++ keys (targets ex items)), w).
Proof.
  intros Henc. induction items as [|[user s] rest IH]; intros dead w.
  - simpl. unfold ret. rewrite app_nil_r. reflexivity.
  - rewrite targets_cons. simpl broadcast_loop. simpl fst.
    destruct (match ex with
              | Some x => negb (str_eqb user x)
              | None => true
              end).
    + unfold bind at 1. unfold catch, send_text. rewrite Henc.
      unfold bind, raise, ret. rewrite IH. simpl.
      rewrite <- app_assoc. reflexivity.
    + apply IH.
Qed.

Lemma evict_eq (dead : list str) :
  forall w : world,
    NoDup (keys (clients w)) -> NoDup dead -> incl dead (keys (clients w)) ->
    evict dead w = (Ok tt, set_clients (without dead (clients w)) w).
Proof.
  induction dead as [|user rest IH]; intros w Hnd Hd Hin.
  - simpl. unfold ret, set_clients. rewrite without_nil, world_eta.
    reflexivity.
  - inversion Hd as [|? ? Hn Hr]; subst.
    simpl. unfold bind, gets.
    rewrite (dict_del_without user (clients w) Hnd);
      [|apply Hin; left; reflexivity].
    unfold modify. rewrite IH; simpl.
    + rewrite without_without. reflexivity.
    + apply keys_filter_NoDup. exact Hnd.
    + exact Hr.
    + intros k Hk. apply without_keeps.
      * intros [->|[]]. contradiction.
      * apply Hin. right. exact Hk.
Qed.

(** The whole of [broadcast] on a registry with distinct keys. *)
Lemma broadcast_eq (message : str) (ex : option str) (data : bytes)
    (w : world) :
  unique_keys w ->
  encode (message ++ [LF]) = Some data ->
  let tg := targets ex (clients w) in
  let oks := outcomes (log w) data (map snd tg) in
  broadcast message ex w
  = (Ok tt,
     {| clients := without (failed tg oks) (clients w);
        log := log w ++ sends data tg oks |}).
Proof.
  intros Hnd Henc. cbv zeta. unfold broadcast, bind at 1 2, gets.
  rewrite (broadcast_loop_eq message ex data Henc). cbv zeta.
  rewrite evict_eq; simpl.
  - reflexivity.
  - exact Hnd.
  - apply failed_NoDup. apply keys_filter_NoDup. exact Hnd.
  - intros k Hk. apply (targets_keys_incl ex). eapply failed_incl. exact Hk.
Qed.

Lemma broadcast_unique_keys (message : str) (ex : option str) (w : world) :
  unique_keys w -> unique_keys (snd (broadcast message ex w)).
Proof.
  intros Hnd. destruct (encode (message ++ [LF])) as [data|] eqn:Henc.
  - rewrite (broadcast_eq message ex data w Hnd Henc). simpl.
    apply keys_filter_NoDup. exact Hnd.
  - unfold broadcast, bind at 1 2, gets.
    rewrite (broadcast_loop_unencodable message ex Henc).
    rewrite evict_eq; simpl.
    + apply keys_filter_NoDup. exact Hnd.
    + exact Hnd.
    + apply keys_filter_NoDup. exact Hnd.
    + apply targets_keys_incl.
Qed.

(** ** One framed line *)

Lemma handle_line_blank (c : sock) (line : str) (h : handler) :
  strip line = [] -> handle_line c line h = (Ok tt, h).
Proof. intros E. unfold handle_line. rewrite E. reflexivity. Qed.

Lemma handle_line_authenticated (c : sock) (line : str) (h : handler)
    (cmd arg : str) :
  truthy (username h) = true ->
  strip line <> [] ->
  parse (strip line) = (cmd, arg) ->
  handle_line c line h = authenticated_body c (username h) cmd arg h.
Proof.
  intros Hu Hs Hp. unfold handle_line.
  destruct (strip line) as [|x r] eqn:E; [contradiction|].
  change (length (x :: r) =? 0)%nat with false. cbv iota.
  rewrite Hp. unfold bind at 1, gets at 1. rewrite Hu.
  reflexivity.
Qed.

Lemma handle_line_unauthenticated (c : sock) (line : str) (h : handler)
    (cmd arg : str) :
  truthy (username h) = false ->
  strip line <> [] ->
  parse (strip line) = (cmd, arg) ->
  handle_line c line h
  = if str_eqb cmd (T "LOGIN") then login_body c arg h
    else lift (sendall c (Bn "ERR login-required")) h.
Proof.
  intros Hu Hs Hp. unfold handle_line.
  destruct (strip line) as [|x r] eqn:E; [contradiction|].
  change (length (x :: r) =? 0)%nat with false. cbv iota.
  rewrite Hp. unfold bind at 1, gets at 1. rewrite Hu.
  simpl negb. cbv iota.
  destruct (str_eqb cmd (T "LOGIN")); reflexivity.
Qed.

Lemma lift_sendall (c : sock) (data : bytes) (h : handler) :
  answers (lift (sendall c data) h) h c data.
Proof.
  unfold answers, lift, sendall, after_send. reflexivity.
Qed.

Lemma length_zero_iff (A : Type) (l : list A) :
  (length l =? 0)%nat = true <-> l = [].
Proof. destruct l; simpl; split; congruence. Qed.

Lemma length_nonzero (A : Type) (l : list A) :
  l <> [] -> (length l =? 0)%nat = false.
Proof. destruct l; simpl; congruence. Qed.

Lemma login_body_invalid (c : sock) (arg : str) (h : handler) :
  arg = [] \/ contains SP (strip arg) = true ->
  answers (login_body c arg h) h c (Bn "ERR invalid-username").
Proof.
  intros H. unfold login_body.
  destruct (length arg =? 0)%nat eqn:E; [apply lift_sendall|].
  destruct H as [->|H]; [discriminate|].
  rewrite H. apply lift_sendall.
Qed.

Lemma login_body_taken (c : sock) (arg : str) (h : handler) :
  arg <> [] -> contains SP (strip arg) = false -> strip arg <> [] ->
  In (strip arg) (keys (clients (srv h))) ->
  answers (login_body c arg h) h c (Bn "ERR username-taken").
Proof.
  intros Ha Hsp Hne Hin. unfold login_body.
  rewrite (length_nonzero _ _ Ha), Hsp.
  destruct (strip arg) as [|x r] eqn:E; [contradiction|].
  change (length (x :: r) <? 1)%nat with false.
  change (false || false) with false. cbv iota.
  unfold bind at 1, gets at 1. cbv beta.
  apply dict_mem_In in Hin. rewrite Hin. apply lift_sendall.
Qed.

Lemma login_body_free (c : sock) (arg : str) (h : handler) :
  arg <> [] -> contains SP (strip arg) = false -> strip arg <> [] ->
  ~ In (strip arg) (keys (clients (srv h))) ->
  login_body c arg h
  = (if send_ok (log (srv h)) c (Bn "OK") then Ok tt else Raise OSError,
     registered h c (strip arg)).
Proof.
  intros Ha Hsp Hne Hin. unfold login_body.
  rewrite (length_nonzero _ _ Ha), Hsp.
  destruct (strip arg) as [|x r] eqn:E; [contradiction|].
  change (length (x :: r) <? 1)%nat with false.
  change (false || false) with false. cbv iota.
  unfold bind at 1, gets at 1. cbv beta.
  pose proof Hin as Hm. apply dict_mem_false in Hm. rewrite Hm.
  unfold bind, modify, lift, sendall, set_username, set_clients, add_event,
    registered.
  simpl. rewrite (dict_set_fresh _ _ _ Hin). reflexivity.
Qed.

(** ** Direct messages *)

Lemma handle_dm_no_space (sender args : str) (c : sock) (w : world) :
  contains SP args = false ->
  handle_dm sender args c w
  = sendall c (Bn "ERR usage: DM <username> <message>") w.
Proof.
  intros H. unfold handle_dm. rewrite (split_once_absent _ _ H). reflexivity.
Qed.

Lemma handle_dm_split (sender t m : str) (c : sock) (w : world) :
  ~ In SP t ->
  handle_dm sender (t ++ SP :: m) c w
  = match dict_get t (clients w) with
    | Some ts =>
        catch (send_text ts (T "DM " ++ sender ++ [SP] ++ m ++ [LF]))
              (ret tt) w
    | None => sendall c (Bn "ERR user-not-found") w
    end.
Proof.
  intros H. apply contains_false in H.
  unfold handle_dm. rewrite (split_once_at _ _ _ H).
  change (length [t; m] <? 2)%nat with false. cbv iota.
  change (nth 0 [t; m] []) with t. change (nth 1 [t; m] []) with m.
  unfold bind, gets. destruct (dict_get t (clients w)); reflexivity.
Qed.

Lemma authenticated_body_dm (c : sock) (u : option str) (arg : str) :
  authenticated_body c u (T "DM") arg = lift (handle_dm (name_of u) arg c).
Proof. reflexivity. Qed.

Lemma handle_line_dm (c : sock) (line : str) (h : handler) (s arg : str) :
  username h = Some s -> s <> [] ->
  strip line <> [] ->
  parse (strip line) = (T "DM", arg) ->
  handle_line c line h = lift (handle_dm s arg c) h.
Proof.
  intros Hu Hs Hl Hp.
  rewrite (handle_line_authenticated c line h (T "DM") arg); auto.
  - rewrite authenticated_body_dm, Hu. reflexivity.
  - rewrite Hu. destruct s; [contradiction | reflexivity].
Qed.

Lemma handle_line_dm_present (c : sock) (line : str) (h : handler)
    (s t m : str) (data : bytes) (ts : sock) :
  username h = Some s -> s <> [] ->
  strip line <> [] ->
  parse (strip line) = (T "DM", t ++ SP :: m) ->
  ~ In SP t ->
  encode (T "DM " ++ s ++ [SP] ++ m ++ [LF]) = Some data ->
  dict_get t (clients (srv h)) = Some ts ->
  handle_line c line h
  = (Ok tt, after_send h ts data (send_ok (log (srv h)) ts data)).
Proof.
  intros Hu Hs Hl Hp Ht Henc Hget.
  rewrite (handle_line_dm c line h s _ Hu Hs Hl Hp).
  unfold lift. rewrite (handle_dm_split s t m c (srv h) Ht), Hget.
  unfold catch, send_text. rewrite Henc. unfold sendall, after_send, ret.
  destruct (send_ok (log (srv h)) ts data); reflexivity.
Qed.

(** C1 (as amended).  A DM command of an authenticated sender whose argument
    contains no space is answered with [ERR usage: DM <username> <message>]
    to the sender, and nothing else happens: the registry and the locals of
    the handler are as before, and that one send is the only call made. *)
Theorem dm_without_space_is_usage_error (c : sock) (line : str) (h : handler)
    (arg : str) :
  truthy (username h) = true ->
  strip line <> [] ->
  parse (strip line) = (T "DM", arg) ->
  contains SP arg = false ->
  answers (handle_line c line h) h c (Bn "ERR usage: DM <username> <message>").
Proof.
  intros Hu Hl Hp Hsp.
  rewrite (handle_line_authenticated c line h (T "DM") arg Hu Hl Hp).
  rewrite authenticated_body_dm. unfold lift.
  rewrite (handle_dm_no_space _ _ _ _ Hsp).
  apply (lift_sendall c _ h).
Qed.

(** C8 (as amended).  A DM of sender [s] to target [t] with message [m]:
    when [t] is registered, the one call made is a send of the line [DM s m]
    to the socket registered for [t], and the handler goes on whatever its
    outcome; the socket of the sender is written to only when it is itself
    the socket registered for [t], as when the sender addresses its own
    name.  When [t] is not registered, the one call made is the answer
    [ERR user-not-found] to the sender.  The registry is the same afterwards
    in both cases. *)
Theorem dm_goes_to_the_target_only (c : sock) (line : str) (h : handler)
    (s t m : str) (data : bytes) :
  username h = Some s -> s <> [] ->
  strip line <> [] ->
  parse (strip line) = (T "DM", t ++ SP :: m) ->
  ~ In SP t ->
  encode (T "DM " ++ s ++ [SP] ++ m ++ [LF]) = Some data ->
  match dict_get t (clients (srv h)) with
  | Some ts =>
      handle_line c line h
      = (Ok tt, after_send h ts data (send_ok (log (srv h)) ts data))
      /\ (ts <> c ->
          forall d ok,
            In (EvSend c d ok) (log (srv (snd (handle_line c line h)))) ->
            In (EvSend c d ok) (log (srv h)))
  | None => answers (handle_line c line h) h c (Bn "ERR user-not-found")
  end.
Proof.
  intros Hu Hs Hl Hp Ht Henc.
  destruct (dict_get t (clients (srv h))) as [ts|] eqn:Hget.
  - assert (E : handle_line c line h
                = (Ok tt, after_send h ts data (send_ok (log (srv h)) ts data)))
      by (eapply handle_line_dm_present; eauto).
    split; [exact E|].
    intros Hts d ok Hin. rewrite E in Hin. simpl in Hin.
    apply in_app_or in Hin. destruct Hin as [Hin|[Hin|[]]]; [exact Hin|].
    injection Hin as Hc _ _. contradiction.
  - rewrite (handle_line_dm c line h s _ Hu Hs Hl Hp).
    unfold lift at 1. rewrite (handle_dm_split s t m c (srv h) Ht), Hget.
    apply (lift_sendall c _ h).
Qed.

(** C9.  When the send of a DM to a registered target fails, the handler
    goes on normally, the registry is unchanged and still holds the target,
    and the failed attempt is the only call made: the sender is sent
    nothing. *)
Theorem undelivered_dm_evicts_nobody (c : sock) (line : str) (h : handler)
    (s t m : str) (data : bytes) (ts : sock) :
  username h = Some s -> s <> [] ->
  strip line <> [] ->
  parse (strip line) = (T "DM", t ++ SP :: m) ->
  ~ In SP t ->
  encode (T "DM " ++ s ++ [SP] ++ m ++ [LF]) = Some data ->
  dict_get t (clients (srv h)) = Some ts ->
  send_ok (log (srv h)) ts data = false ->
  let r := handle_line c line h in
  fst r = Ok tt
  /\ clients (srv (snd r)) = clients (srv h)
  /\ dict_get t (clients (srv (snd r))) = Some ts
  /\ log (srv (snd r)) = log (srv h) ++ [EvSend ts data false]
  /\ username (snd r) = username h
  /\ buffer (snd r) = buffer h.
Proof.
  intros Hu Hs Hl Hp Ht Henc Hget Hfail. cbv zeta.
  rewrite (handle_line_dm_present c line h s t m data ts); auto.
  rewrite Hfail. simpl. repeat split; auto.
Qed.

(** ** Logging in *)

(** C3 (as amended).  A LOGIN in the unauthenticated state whose argument is
    empty, or whose argument without its surrounding white space contains a
    space, is answered with [ERR invalid-username], and nothing else
    happens. *)
Theorem login_invalid_username (c : sock) (line : str) (h : handler)
    (arg : str) :
  truthy (username h) = false ->
  strip line <> [] ->
  parse (strip line) = (T "LOGIN", arg) ->
  arg = [] \/ contains SP (strip arg) = true ->
  answers (handle_line c line h) h c (Bn "ERR invalid-username").
Proof.
  intros Hu Hl Hp Harg.
  rewrite (handle_line_unauthenticated c line h _ _ Hu Hl Hp).
  change (str_eqb (T "LOGIN") (T "LOGIN")) with true. cbv iota.
  apply login_body_invalid. exact Harg.
Qed.

(** ** What a step does to the registry *)

Lemma dict_del_incl (k : str) (d d' : dict) :
  dict_del k d = Some d' -> incl d' d.
Proof.
  revert d'; induction d as [|[k' v'] r IH]; simpl; intros d'; [discriminate|].
  destruct (str_eqb k k').
  - intros E; injection E as <-. apply incl_tl, incl_refl.
  - destruct (dict_del k r) as [r'|]; simpl; [|discriminate].
    intros E; injection E as <-.
    apply incl_cons; [left; reflexivity|].
    apply incl_tl. apply IH. reflexivity.
Qed.

Lemma dict_del_NoDup (k : str) (d d' : dict) :
  NoDup (keys d) -> dict_del k d = Some d' -> NoDup (keys d').
Proof.
  revert d'; induction d as [|[k' v'] r IH]; simpl; intros d' Hnd;
    [discriminate|].
  inversion Hnd as [|? ? Hn Hr]; subst.
  destruct (str_eqb k k').
  - intros E; injection E as <-. exact Hr.
  - destruct (dict_del k r) as [r'|] eqn:E'; simpl; [|discriminate].
    intros E; injection E as <-. simpl. constructor.
    + intros H. apply Hn. unfold keys in *.
      apply in_map_iff in H. destruct H as (kv & <- & H).
      apply in_map. apply (dict_del_incl k r r' E'). exact H.
    + apply IH; auto.
Qed.

Lemma dict_del_mem (k : str) (d : dict) :
  dict_mem k d = true -> exists d', dict_del k d = Some d'.
Proof.
  unfold dict_mem. induction d as [|[k' v'] r IH]; simpl; [discriminate|].
  destruct (str_eqb k k'); [eauto|].
  intros H. destruct (IH H) as (d' & ->). simpl. eauto.
Qed.

Lemma evict_incl (dead : list str) (w : world) :
  incl (clients (snd (evict dead w))) (clients w).
Proof.
  revert w; induction dead as [|user rest IH]; intros w; simpl.
  - apply incl_refl.
  - unfold bind, gets.
    destruct (dict_del user (clients w)) as [d'|] eqn:E.
    + unfold modify. eapply incl_tran; [apply IH|].
      simpl. apply (dict_del_incl _ _ _ E).
    + simpl. apply incl_refl.
Qed.

Lemma evict_unique_keys (dead : list str) (w : world) :
  unique_keys w -> unique_keys (snd (evict dead w)).
Proof.
  revert w; induction dead as [|user rest IH]; intros w Hw; simpl.
  - exact Hw.
  - unfold bind, gets.
    destruct (dict_del user (clients w)) as [d'|] eqn:E.
    + unfold modify. apply IH. unfold unique_keys. simpl.
      apply (dict_del_NoDup _ _ _ Hw E).
    + exact Hw.
Qed.

Lemma evict_log (dead : list str) (w : world) :
  log (snd (evict dead w)) = log w.
Proof.
  revert w; induction dead as [|user rest IH]; intros w; simpl; [reflexivity|].
  unfold bind, gets. destruct (dict_del user (clients w)); [|reflexivity].
  unfold modify. rewrite IH. reflexivity.
Qed.

Lemma broadcast_loop_clients (message : str) (ex : option str) (items : dict)
    (dead : list str) (w : world) :
  clients (snd (broadcast_loop message ex items dead w)) = clients w.
Proof.
  destruct (encode (message ++ [LF])) as [data|] eqn:Henc.
  - rewrite (broadcast_loop_eq message ex data Henc). reflexivity.
  - rewrite (broadcast_loop_unencodable message ex Henc). reflexivity.
Qed.

Lemma broadcast_loop_returns (message : str) (ex : option str) (items : dict)
    (dead : list str) (w : world) :
  exists dead', fst (broadcast_loop message ex items dead w) = Ok dead'.
Proof.
  destruct (encode (message ++ [LF])) as [data|] eqn:Henc.
  - rewrite (broadcast_loop_eq message ex data Henc). simpl. eauto.
  - rewrite (broadcast_loop_unencodable message ex Henc). simpl. eauto.
Qed.

Lemma broadcast_incl (message : str) (ex : option str) (w : world) :
  incl (clients (snd (broadcast message ex w))) (clients w).
Proof.
  unfold broadcast, bind at 1 2, gets.
  pose proof (broadcast_loop_clients message ex (clients w) [] w) as Hc.
  destruct (broadcast_loop_returns message ex (clients w) [] w) as (dead & Hr).
  destruct (broadcast_loop message ex (clients w) [] w) as [r w1].
  simpl in Hc, Hr. subst r. rewrite <- Hc. apply evict_incl.
Qed.

Lemma disconnect_user_incl (name : str) (w : world) :
  incl (clients (snd (disconnect_user name w))) (clients w).
Proof.
  unfold disconnect_user, bind at 1 2, gets.
  destruct (dict_mem name (clients w)) eqn:Hm.
  - destruct (dict_del_mem _ _ Hm) as (d' & E). rewrite E.
    unfold modify. eapply incl_tran; [apply broadcast_incl|].
    simpl. apply (dict_del_incl _ _ _ E).
  - unfold ret. apply broadcast_incl.
Qed.

Lemma disconnect_user_unique_keys (name : str) (w : world) :
  unique_keys w -> unique_keys (snd (disconnect_user name w)).
Proof.
  intros Hw. unfold disconnect_user, bind at 1 2, gets.
  destruct (dict_mem name (clients w)) eqn:Hm.
  - destruct (dict_del_mem _ _ Hm) as (d' & E). rewrite E.
    unfold modify. apply broadcast_unique_keys.
    unfold unique_keys. simpl. apply (dict_del_NoDup _ _ _ Hw E).
  - unfold ret. apply broadcast_unique_keys. exact Hw.
Qed.

Lemma sendall_clients (c : sock) (data : bytes) (w : world) :
  clients (snd (sendall c data w)) = clients w.
Proof. reflexivity. Qed.

Lemma send_text_clients (c : sock) (text : str) (w : world) :
  clients (snd (send_text c text w)) = clients w.
Proof. unfold send_text. destruct (encode text); reflexivity. Qed.

Lemma handle_dm_clients (sender args : str) (c : sock) (w : world) :
  clients (snd (handle_dm sender args c w)) = clients w.
Proof.
  unfold handle_dm. destruct (length (split_once SP args) <? 2)%nat.
  - reflexivity.
  - unfold bind, gets. destruct (dict_get _ (clients w)) as [ts|].
    + unfold catch.
      pose proof (send_text_clients ts
        (T "DM " ++ sender ++ [SP] ++ nth 1 (split_once SP args) [] ++ [LF])
        w) as H.
      destruct (send_text ts _ w) as [[|] w']; simpl in *; exact H.
    + reflexivity.
Qed.

Lemma srv_lift (A : Type) (m : M world A) (h : handler) :
  srv (snd (lift m h)) = snd (m (srv h)).
Proof. unfold lift. destruct (m (srv h)); reflexivity. Qed.

(** A line leaves the registry as it is, or appends a valid name that was
    not there for the socket of the handler, or does what a broadcast
    does. *)
Lemma handle_line_clients (c : sock) (line : str) (h : handler) :
  let d := clients (srv h) in
  let d' := clients (srv (snd (handle_line c line h))) in
  d' = d
  \/ (exists n, ~ In n (keys d) /\ valid_name n /\ d' = d ++ [(n, c)])
  \/ (exists m ex, d' = clients (snd (broadcast m ex (srv h)))).
Proof.
  cbv zeta.
  destruct (strip line) as [|x r] eqn:Hl.
  - rewrite (handle_line_blank _ _ _ Hl). left; reflexivity.
  - assert (Hne : strip line <> []) by (rewrite Hl; discriminate).
    destruct (parse (strip line)) as [cmd arg] eqn:Hp.
    destruct (truthy (username h)) eqn:Hu.
    + rewrite (handle_line_authenticated c line h cmd arg Hu Hne Hp).
      unfold authenticated_body.
      destruct (str_eqb cmd (T "MSG")).
      { destruct (length arg =? 0)%nat; [left; reflexivity|].
        right; right. rewrite srv_lift. eauto. }
      destruct (str_eqb cmd (T "WHO")).
      { left. rewrite srv_lift. unfold bind, gets.
        apply send_text_clients. }
      destruct (str_eqb cmd (T "PING")); [left; reflexivity|].
      destruct (str_eqb cmd (T "DM")); [|left; reflexivity].
      left. rewrite srv_lift. apply handle_dm_clients.
    + rewrite (handle_line_unauthenticated c line h cmd arg Hu Hne Hp).
      destruct (str_eqb cmd (T "LOGIN")); [|left; reflexivity].
      destruct (length arg =? 0)%nat eqn:Ha.
      { left. unfold login_body. rewrite Ha. reflexivity. }
      destruct (contains SP (strip arg)) eqn:Hsp.
      { left. unfold login_body. rewrite Ha, Hsp. reflexivity. }
      destruct (strip arg) as [|y s] eqn:Hs.
      { left. unfold login_body. rewrite Ha, Hs. reflexivity. }
      assert (Harg : arg <> []) by (intros ->; discriminate).
      assert (Hn : strip arg <> []) by (rewrite Hs; discriminate).
      destruct (dict_mem (strip arg) (clients (srv h))) eqn:Hm.
      * left. apply dict_mem_In in Hm.
        rewrite <- Hs in Hsp.
        pose proof (login_body_taken c arg h Harg Hsp Hn Hm) as H.
        unfold answers in H. rewrite H. reflexivity.
      * right; left. apply dict_mem_false in Hm.
        rewrite <- Hs in Hsp.
        rewrite (login_body_free c arg h Harg Hsp Hn Hm).
        exists (strip arg). repeat split; auto.
        apply contains_false. exact Hsp.
Qed.

Lemma step_incl_or_fresh (w w' : world) :
  step w w' ->
  incl (clients w') (clients w)
  \/ exists n c, ~ In n (keys (clients w)) /\ valid_name n
                 /\ clients w' = clients w ++ [(n, c)].
Proof.
  intros H. destruct H as [c line h r h' E|name w r w' E|m ex w r w' E|c w r w' E].
  - pose proof (handle_line_clients c line h) as H. cbv zeta in H.
    rewrite E in H. simpl in H.
    destruct H as [H|[(n & Hn & Hv & H)|(m & ex & H)]].
    + left. rewrite H. apply incl_refl.
    + right. eauto.
    + left. rewrite H. apply broadcast_incl.
  - left. pose proof (disconnect_user_incl name w) as H.
    rewrite E in H. exact H.
  - left. pose proof (broadcast_incl m ex w) as H. rewrite E in H. exact H.
  - left. unfold close in E. injection E as _ <-. apply incl_refl.
Qed.

Lemma NoDup_keys_snoc (d : dict) (n : str) (c : sock) :
  NoDup (keys d) -> ~ In n (keys d) -> NoDup (keys (d ++ [(n, c)])).
Proof.
  intros Hd Hn. rewrite keys_app. simpl.
  apply NoDup_app; [exact Hd | repeat constructor; intros [] |].
  intros k Hk [<-|[]]. contradiction.
Qed.

Lemma step_unique_keys (w w' : world) :
  unique_keys w -> step w w' -> unique_keys w'.
Proof.
  intros Hw H.
  destruct H as [c line h r h' E|name w r w' E|m ex w r w' E|c w r w' E].
  - pose proof (handle_line_clients c line h) as H. cbv zeta in H.
    rewrite E in H. simpl in H. unfold unique_keys.
    destruct H as [H|[(n & Hn & Hv & H)|(m & ex & H)]]; rewrite H.
    + exact Hw.
    + apply NoDup_keys_snoc; assumption.
    + apply broadcast_unique_keys. exact Hw.
  - pose proof (disconnect_user_unique_keys name w Hw) as H.
    rewrite E in H. exact H.
  - pose proof (broadcast_unique_keys m ex w Hw) as H. rewrite E in H. exact H.
  - unfold close in E. injection E as _ <-. exact Hw.
Qed.

Lemma step_valid_names (w w' : world) :
  valid_names w -> step w w' -> valid_names w'.
Proof.
  intros Hw H. unfold valid_names in *.
  destruct (step_incl_or_fresh w w' H) as [Hi|(n & c & Hn & Hv & E)].
  - rewrite Forall_forall in *. intros k Hk. apply Hw.
    unfold keys in *. apply in_map_iff in Hk. destruct Hk as (kv & <- & Hk).
    apply in_map. apply Hi. exact Hk.
  - rewrite E, keys_app. apply Forall_app. split; [exact Hw|].
    constructor; [exact Hv | constructor].
Qed.

Lemma reachable_unique_keys (w : world) : reachable w -> unique_keys w.
Proof.
  induction 1 as [lg|w w' _ IH Hs].
  - constructor.
  - eapply step_unique_keys; eauto.
Qed.

Lemma reachable_valid_names (w : world) : reachable w -> valid_names w.
Proof.
  induction 1 as [lg|w w' _ IH Hs].
  - constructor.
  - eapply step_valid_names; eauto.
Qed.

(** ** Uniqueness of the registered names *)

Lemma unique_keys_functional (w : world) (u : str) (s1 s2 : sock) :
  unique_keys w -> In (u, s1) (clients w) -> In (u, s2) (clients w) -> s1 = s2.
Proof.
  unfold unique_keys. induction (clients w) as [|[k v] r IH]; simpl;
    [contradiction|].
  intros Hnd H1 H2. inversion Hnd as [|? ? Hn Hr]; subst.
  destruct H1 as [H1|H1], H2 as [H2|H2].
  - congruence.
  - injection H1 as -> ->. exfalso. apply Hn.
    apply (in_map fst) in H2. exact H2.
  - injection H2 as -> ->. exfalso. apply Hn.
    apply (in_map fst) in H1. exact H1.
  - auto.
Qed.

(** C4.  On a registry in which no name occurs twice, every atomic action
    of the server (a line of any connection, with LOGIN inserting; the
    removal and notification of a disconnect; a broadcast with its
    evictions; the closing of a socket) leaves a registry in which no name
    occurs twice, so that a name has at most one socket; and a LOGIN with a
    name that is registered is answered with [ERR username-taken] while the
    registry and the state of the requester stay as they are. *)
Theorem registry_keys_stay_unique (w : world) :
  unique_keys w ->
  (forall w', step w w' ->
     unique_keys w'
     /\ forall u s1 s2,
          In (u, s1) (clients w') -> In (u, s2) (clients w') -> s1 = s2)
  /\ (forall c line h arg,
        srv h = w ->
        truthy (username h) = false ->
        strip line <> [] ->
        parse (strip line) = (T "LOGIN", arg) ->
        strip arg <> [] -> ~ In SP (strip arg) ->
        In (strip arg) (keys (clients w)) ->
        answers (handle_line c line h) h c (Bn "ERR username-taken")).
Proof.
  intros Hw. split.
  - intros w' Hs. pose proof (step_unique_keys w w' Hw Hs) as Hw'.
    split; [exact Hw'|]. intros u s1 s2. apply unique_keys_functional. exact Hw'.
  - intros c line h arg <- Hu Hl Hp Hn Hsp Hin.
    rewrite (handle_line_unauthenticated c line h _ _ Hu Hl Hp).
    change (str_eqb (T "LOGIN") (T "LOGIN")) with true. cbv iota.
    apply login_body_taken; auto.
    + intros ->. apply Hn. reflexivity.
    + apply contains_false. exact Hsp.
Qed.

(** At every instant of a run that started with an empty registry, no name
    is registered twice. *)
Corollary reachable_names_unique (w : world) (u : str) (s1 s2 : sock) :
  reachable w -> In (u, s1) (clients w) -> In (u, s2) (clients w) -> s1 = s2.
Proof.
  intros H. apply unique_keys_functional. apply reachable_unique_keys. exact H.
Qed.

(** ** Broadcasts *)

Lemma sends_Forall2 (data : bytes) (tg : dict) (oks : list bool) :
  length oks = length tg ->
  Forall2 (fun kv e => exists ok, e = EvSend (snd kv) data ok)
          tg (sends data tg oks).
Proof.
  revert oks; induction tg as [|kv r IH]; intros [|ok oks] H;
    try discriminate.
  - constructor.
  - rewrite sends_cons. constructor; [eauto|].
    apply IH. simpl in H. congruence.
Qed.

Lemma authenticated_body_msg (c : sock) (u : option str) (arg : str) :
  authenticated_body c u (T "MSG") arg
  = if (length arg =? 0)%nat then ret tt
    else lift (broadcast (T "MSG " ++ name_of u ++ [SP] ++ arg) u).
Proof. reflexivity. Qed.

(** C5.  A MSG of the authenticated sender [u]: with an empty argument
    nothing happens at all; with a non-empty argument [arg] the calls made
    are exactly one send of the line [MSG u arg] per registry entry whose
    name is not [u], in the order of the registry, and none to the entry of
    [u]. *)
Theorem msg_reaches_every_other_session (c : sock) (line : str) (h : handler)
    (u arg : str) :
  username h = Some u -> u <> [] ->
  unique_keys (srv h) ->
  strip line <> [] ->
  parse (strip line) = (T "MSG", arg) ->
  (arg = [] -> handle_line c line h = (Ok tt, h))
  /\ (forall data,
        arg <> [] ->
        encode (T "MSG " ++ u ++ [SP] ++ arg ++ [LF]) = Some data ->
        let r := handle_line c line h in
        fst r = Ok tt
        /\ username (snd r) = Some u
        /\ exists events,
             log (srv (snd r)) = log (srv h) ++ events
             /\ Forall2 (fun kv e => exists ok, e = EvSend (snd kv) data ok)
                  (filter (fun kv => negb (str_eqb (fst kv) u))
                     (clients (srv h)))
                  events).
Proof.
  intros Hu Hne Hw Hl Hp.
  assert (Ht : truthy (username h) = true)
    by (rewrite Hu; destruct u; [contradiction | reflexivity]).
  rewrite (handle_line_authenticated c line h _ _ Ht Hl Hp).
  rewrite authenticated_body_msg. split.
  - intros ->. reflexivity.
  - intros data Ha Henc. cbv zeta.
    rewrite (length_nonzero _ _ Ha), Hu. simpl name_of. unfold lift.
    assert (Henc' : encode ((T "MSG " ++ u ++ [SP] ++ arg) ++ [LF]) = Some data)
      by (rewrite <- Henc; f_equal; rewrite <- !app_assoc; reflexivity).
    rewrite (broadcast_eq _ (Some u) data (srv h) Hw Henc'). simpl.
    repeat split; auto.
    eexists. split; [reflexivity|].
    apply (sends_Forall2 data (targets (Some u) (clients (srv h)))).
    rewrite outcomes_length, length_map. reflexivity.
Qed.

(** C6.  A broadcast over a registry with distinct names.  The loop writes
    once to every entry other than the excluded one, whatever the outcome of
    the earlier sends, and leaves the registry untouched while it runs; the
    names whose send failed are removed afterwards, and removing them makes
    no further call: nothing is sent about the evicted sessions. *)
Theorem broadcast_evicts_after_the_loop (message : str) (ex : option str)
    (data : bytes) (w : world) :
  unique_keys w ->
  encode (message ++ [LF]) = Some data ->
  let tg := targets ex (clients w) in
  let oks := outcomes (log w) data (map snd tg) in
  length oks = length tg
  /\ broadcast_loop message ex (clients w) [] w
     = (Ok (failed tg oks),
        {| clients := clients w; log := log w ++ sends data tg oks |})
  /\ broadcast message ex w
     = (Ok tt,
        {| clients := without (failed tg oks) (clients w);
           log := log w ++ sends data tg oks |})
  /\ (forall k, In k (keys (clients (snd (broadcast message ex w))))
                <-> In k (keys (clients w)) /\ ~ In k (failed tg oks)).
Proof.
  intros Hw Henc. cbv zeta. split; [|split; [|split]].
  - rewrite outcomes_length, length_map. reflexivity.
  - rewrite (broadcast_loop_eq message ex data Henc). reflexivity.
  - apply broadcast_eq; assumption.
  - intros k. rewrite (broadcast_eq message ex data w Hw Henc). simpl. split.
    + intros H. split; [apply (keys_without_incl _ _ _ H)|].
      intros Hk. apply (without_notin _ (clients w) _ Hk). exact H.
    + intros [H Hk]. apply without_keeps; assumption.
Qed.

(** ** Leaving *)

Lemma disconnect_user_eq (name : str) (data : bytes) (w : world) :
  unique_keys w ->
  encode (T "INFO " ++ name ++ T " disconnected" ++ [LF]) = Some data ->
  let rest := without [name] (clients w) in
  let oks := outcomes (log w) data (map snd rest) in
  disconnect_user name w
  = (Ok tt,
     {| clients := without (failed rest oks) rest;
        log := log w ++ sends data rest oks |}).
Proof.
  intros Hw Henc. cbv zeta.
  assert (Henc' : encode ((T "INFO " ++ name ++ T " disconnected") ++ [LF])
                  = Some data)
    by (rewrite <- Henc; f_equal; rewrite <- !app_assoc; reflexivity).
  unfold disconnect_user, bind at 1 2, gets.
  destruct (dict_mem name (clients w)) eqn:Hm.
  - apply dict_mem_In in Hm.
    rewrite (dict_del_without name (clients w) Hw Hm). unfold modify.
    rewrite (broadcast_eq _ None data _); [| |exact Henc'].
    + simpl. rewrite targets_None. reflexivity.
    + unfold unique_keys. simpl. apply keys_filter_NoDup. exact Hw.
  - apply dict_mem_false in Hm. unfold ret.
    rewrite (broadcast_eq _ None data _ Hw Henc').
    rewrite targets_None, (without_absent _ _ Hm). reflexivity.
Qed.

Lemma handle_line_login_free (c : sock) (line : str) (h : handler)
    (arg : str) :
  truthy (username h) = false ->
  strip line <> [] ->
  parse (strip line) = (T "LOGIN", arg) ->
  strip arg <> [] -> ~ In SP (strip arg) ->
  ~ In (strip arg) (keys (clients (srv h))) ->
  handle_line c line h
  = (if send_ok (log (srv h)) c (Bn "OK") then Ok tt else Raise OSError,
     registered h c (strip arg)).
Proof.
  intros Hu Hl Hp Hn Hsp Hfree.
  rewrite (handle_line_unauthenticated c line h _ _ Hu Hl Hp).
  change (str_eqb (T "LOGIN") (T "LOGIN")) with true. cbv iota.
  apply login_body_free; auto.
  - intros ->. apply Hn. reflexivity.
  - apply contains_false. exact Hsp.
Qed.

(** C7.  Whichever way the loop of [handle_client] ends (the peer closed,
    [recv] failed, or the handling of a line raised), the [finally] clause
    runs.  For a handler logged in as [u] it takes [u] out of the registry,
    writes [INFO u disconnected] once to every entry that is left and to no
    other socket, closes the socket whether or not the close succeeds, and
    returns normally; [u] is free afterwards, so that a new LOGIN with that
    name registers it.  For a handler that never logged in it only closes
    the socket. *)
Theorem teardown_frees_the_name (c : sock) (h : handler) :
  unique_keys (srv h) ->
  (forall rest, recv_loop c (Data [] :: rest) h = (Ok true, h))
  /\ (forall rest, recv_loop c (RecvError :: rest) h = (Raise OSError, h))
  /\ (forall inputs h0 r,
        (lift (sendall c welcome) ;; recv_loop c inputs) h0 = (r, h) ->
        r <> Ok false ->
        handle_client_from c inputs h0 = (finally_clause c ;; ret true) h)
  /\ (forall u data,
        username h = Some u -> u <> [] ->
        encode (T "INFO " ++ u ++ T " disconnected" ++ [LF]) = Some data ->
        let rest := without [u] (clients (srv h)) in
        let oks := outcomes (log (srv h)) data (map snd rest) in
        let w1 := {| clients := without (failed rest oks) rest;
                     log := log (srv h) ++ sends data rest oks |} in
        let w2 := add_event (EvClose c (close_ok (log w1) c)) w1 in
        finally_clause c h
        = (Ok tt, {| srv := w2; username := Some u; buffer := buffer h |})
        /\ ~ In u (keys (clients w2))
        /\ forall c' line' arg' h',
             srv h' = w2 ->
             truthy (username h') = false ->
             strip line' <> [] ->
             parse (strip line') = (T "LOGIN", arg') ->
             strip arg' = u -> ~ In SP u ->
             handle_line c' line' h'
             = (if send_ok (log w2) c' (Bn "OK") then Ok tt
                else Raise OSError,
                registered h' c' u))
  /\ (username h = None ->
      finally_clause c h
      = (Ok tt,
         {| srv := add_event (EvClose c (close_ok (log (srv h)) c)) (srv h);
            username := None;
            buffer := buffer h |})).
Proof.
  intros Hw. split; [|split; [|split; [|split]]].
  - reflexivity.
  - reflexivity.
  - intros inputs h0 r E Hr. unfold handle_client_from. rewrite E.
    destruct r as [[|]|e]; try reflexivity. contradiction.
  - intros u data Hu Hne Henc. cbv zeta.
    assert (Hfree : ~ In u (keys (without
              (failed (without [u] (clients (srv h)))
                 (outcomes (log (srv h)) data
                    (map snd (without [u] (clients (srv h))))))
              (without [u] (clients (srv h)))))).
    { intros H. apply keys_without_incl in H.
      apply (without_notin [u] (clients (srv h)) u); [left; reflexivity|].
      exact H. }
    split; [|split].
    + unfold finally_clause, bind at 1, gets at 1. rewrite Hu.
      replace (truthy (Some u)) with true
        by (destruct u; [contradiction | reflexivity]).
      simpl name_of. unfold bind, lift.
      rewrite (disconnect_user_eq u data (srv h) Hw Henc). cbv zeta.
      unfold catch, close, ret, add_event. simpl.
      rewrite Hu. destruct (close_ok _ c); reflexivity.
    + exact Hfree.
    + intros c' line' arg' h' Hs Hu' Hl' Hp' Harg Hsp. subst u.
      rewrite (handle_line_login_free c' line' h' arg' Hu' Hl' Hp' Hne Hsp).
      * rewrite Hs. reflexivity.
      * rewrite Hs. exact Hfree.
  - intros Hu. unfold finally_clause, bind, gets, lift, catch, close, ret.
    rewrite Hu. simpl. rewrite Hu. destruct (close_ok _ c); reflexivity.
Qed.

(** ** Names and the answer to WHO *)

Lemma join_cons2 (sep x y : str) (r : list str) :
  join sep (x :: y :: r) = x ++ sep ++ join sep (y :: r).
Proof. reflexivity. Qed.

Lemma join_no_space_head (x : str) (r : list str) :
  valid_name x -> join (T ", ") (x :: r) <> [].
Proof.
  intros [Hx _]. destruct r as [|y r].
  - exact Hx.
  - rewrite join_cons2. destruct x; [contradiction | discriminate].
Qed.

(** A list of valid names can be read back from its joined form. *)
Lemma join_injective (l1 l2 : list str) :
  Forall valid_name l1 -> Forall valid_name l2 ->
  join (T ", ") l1 = join (T ", ") l2 -> l1 = l2.
Proof.
  revert l2; induction l1 as [|x r1 IH]; intros [|y r2] H1 H2 E.
  - reflexivity.
  - inversion H2; subst. symmetry in E.
    exfalso. eapply join_no_space_head; eauto.
  - inversion H1; subst. exfalso. eapply join_no_space_head; eauto.
  - inversion H1 as [|? ? [Hx Hxs] Hr1]; subst.
    inversion H2 as [|? ? [Hy Hys] Hr2]; subst.
    destruct r1 as [|x' r1], r2 as [|y' r2].
    + simpl in E. congruence.
    + rewrite join_cons2 in E. simpl join at 1 in E. exfalso. apply Hxs.
      rewrite E. apply in_or_app. right. right. left. reflexivity.
    + rewrite join_cons2 in E. simpl join at 2 in E. exfalso. apply Hys.
      rewrite <- E. apply in_or_app. right. right. left. reflexivity.
    + rewrite !join_cons2 in E.
      change (T ", ") with ([44] ++ [SP]) in E at 1 3.
      rewrite <- !app_assoc in E.
      change ([SP] ++ join (T ", ") (x' :: r1))
        with (SP :: join (T ", ") (x' :: r1)) in E.
      change ([SP] ++ join (T ", ") (y' :: r2))
        with (SP :: join (T ", ") (y' :: r2)) in E.
      rewrite !(app_assoc _ [44]) in E.
      apply first_sep_unique in E.
      * destruct E as [E1 E2]. apply app_inj_tail in E1. destruct E1 as [-> _].
        f_equal. apply IH; assumption.
      * intros H. apply in_app_or in H. destruct H as [H|[H|[]]];
          [contradiction | discriminate].
      * intros H. apply in_app_or in H. destruct H as [H|[H|[]]];
          [contradiction | discriminate].
Qed.

Lemma valid_name_no_comma_space (n : str) :
  valid_name n -> forall a b, n <> a ++ T ", " ++ b.
Proof.
  intros [_ H] a b ->. apply H. apply in_or_app. right. right. left.
  reflexivity.
Qed.

Lemma authenticated_body_who (c : sock) (u : option str) (arg : str)
    (h : handler) :
  authenticated_body c u (T "WHO") arg h
  = lift (send_text c (users_line (clients (srv h)))) h.
Proof. reflexivity. Qed.

(** C10 (as amended).  The check of LOGIN refuses a name only when it is
    empty or contains the space U+0020: any other trimmed argument is
    registered when the name is free, tabs, commas and control characters
    included.  A name containing [", "] contains a space and is never
    registered; every registered name is free of spaces, and the answer to
    WHO, whose text is [USERS] followed by the names joined with [", "],
    determines the list of registered names. *)
Theorem login_accepts_names_without_space (c : sock) (line : str)
    (h : handler) (arg : str) :
  truthy (username h) = false ->
  strip line <> [] ->
  parse (strip line) = (T "LOGIN", arg) ->
  strip arg <> [] -> ~ In SP (strip arg) ->
  ~ In (strip arg) (keys (clients (srv h))) ->
  handle_line c line h
  = (if send_ok (log (srv h)) c (Bn "OK") then Ok tt else Raise OSError,
     registered h c (strip arg))
  /\ (forall w n, reachable w -> In n (keys (clients w)) ->
        n <> [] /\ ~ In SP n /\ forall a b, n <> a ++ T ", " ++ b)
  /\ (forall c' line' h' arg' data,
        truthy (username h') = true ->
        strip line' <> [] ->
        parse (strip line') = (T "WHO", arg') ->
        encode (users_line (clients (srv h'))) = Some data ->
        answers (handle_line c' line' h') h' c' data)
  /\ (forall w1 w2, reachable w1 -> reachable w2 ->
        users_line (clients w1) = users_line (clients w2) ->
        keys (clients w1) = keys (clients w2)).
Proof.
  intros Hu Hl Hp Hn Hsp Hfree. split; [|split; [|split]].
  - apply handle_line_login_free; assumption.
  - intros w n Hw Hin. apply reachable_valid_names in Hw.
    unfold valid_names in Hw. rewrite Forall_forall in Hw.
    pose proof (Hw n Hin) as Hv. destruct Hv as [H1 H2].
    repeat split; auto. apply valid_name_no_comma_space. split; assumption.
  - intros c' line' h' arg' data Hu' Hl' Hp' Henc.
    rewrite (handle_line_authenticated c' line' h' _ _ Hu' Hl' Hp').
    rewrite authenticated_body_who. unfold lift at 1, send_text.
    rewrite Henc. apply (lift_sendall c' data h').
  - intros w1 w2 H1 H2 E. unfold users_line in E.
    apply app_inv_head in E. apply app_inv_tail in E.
    apply join_injective; [| |exact E]; apply reachable_valid_names;
      assumption.
Qed.

(** ** The inner loop *)

Lemma buffer_lift (A : Type) (m : M world A) (h : handler) :
  buffer (snd (lift m h)) = buffer h.
Proof. unfold lift. destruct (m (srv h)); reflexivity. Qed.

(** Handling a line does not touch the buffer. *)
Lemma handle_line_buffer (c : sock) (line : str) (h : handler) :
  buffer (snd (handle_line c line h)) = buffer h.
Proof.
  destruct (strip line) as [|x r] eqn:Hl.
  - rewrite (handle_line_blank _ _ _ Hl). reflexivity.
  - assert (Hne : strip line <> []) by (rewrite Hl; discriminate).
    destruct (parse (strip line)) as [cmd arg] eqn:Hp.
    destruct (truthy (username h)) eqn:Hu.
    + rewrite (handle_line_authenticated c line h cmd arg Hu Hne Hp).
      unfold authenticated_body.
      repeat match goal with
             | |- context [if ?b then _ else _] => destruct b
             end;
        try apply buffer_lift; reflexivity.
    + rewrite (handle_line_unauthenticated c line h cmd arg Hu Hne Hp).
      destruct (str_eqb cmd (T "LOGIN")); [|apply buffer_lift].
      unfold login_body.
      destruct (length arg =? 0)%nat; [apply buffer_lift|].
      destruct (contains SP (strip arg) || (length (strip arg) <? 1)%nat);
        [apply buffer_lift|].
      unfold bind at 1, gets at 1. cbv beta.
      destruct (dict_mem (strip arg) (clients (srv h))); [apply buffer_lift|].
      reflexivity.
Qed.

Lemma split_once_rest_shorter (b : str) :
  contains LF b = true ->
  (length (nth 1 (split_once LF b) []) < length b)%nat.
Proof.
  intros H. destruct (contains_split _ _ H) as (a & r & -> & Ha).
  rewrite (split_once_at _ _ _ Ha). simpl.
  rewrite length_app. simpl. lia.
Qed.

Lemma drain_S (c : sock) (fuel : nat) (h : handler) :
  drain (S fuel) c h
  = if contains LF (buffer h) then
      match handle_line c (nth 0 (split_once LF (buffer h)) [])
              (set_buffer (nth 1 (split_once LF (buffer h)) []) h) with
      | (Ok _, h') => drain fuel c h'
      | (Raise e, h') => (Raise e, h')
      end
    else (Ok tt, h).
Proof.
  simpl. unfold bind, gets, modify, ret.
  destruct (contains LF (buffer h)); reflexivity.
Qed.

(** The fuel given to the inner loop is enough: any larger amount gives the
    same run, so the loop always ends because the buffer holds no newline
    any more, never because the fuel is used up. *)
Lemma drain_fuel_enough (c : sock) (fuel1 fuel2 : nat) :
  forall h : handler,
    (length (buffer h) < fuel1)%nat -> (length (buffer h) < fuel2)%nat ->
    drain fuel1 c h = drain fuel2 c h.
Proof.
  revert fuel2; induction fuel1 as [|f1 IH]; intros fuel2 h H1 H2; [lia|].
  destruct fuel2 as [|f2]; [lia|].
  rewrite !drain_S.
  destruct (contains LF (buffer h)) eqn:Hc; [|reflexivity].
  pose proof (split_once_rest_shorter _ Hc) as Hlt.
  pose proof (handle_line_buffer c (nth 0 (split_once LF (buffer h)) [])
                (set_buffer (nth 1 (split_once LF (buffer h)) []) h)) as Hb.
  destruct (handle_line c (nth 0 (split_once LF (buffer h)) [])
              (set_buffer (nth 1 (split_once LF (buffer h)) []) h))
    as [[u|e] h']; [|reflexivity].
  simpl in Hb. apply IH; rewrite Hb; lia.
Qed.

(** After the inner loop has run to its end the buffer holds no complete
    line. *)
Lemma drain_leaves_no_newline (c : sock) (fuel : nat) :
  forall h : handler,
    (length (buffer h) < fuel)%nat ->
    fst (drain fuel c h) = Ok tt ->
    contains LF (buffer (snd (drain fuel c h))) = false.
Proof.
  induction fuel as [|f IH]; intros h Hf; [lia|].
  rewrite drain_S.
  destruct (contains LF (buffer h)) eqn:Hc; [|intros _; exact Hc].
  pose proof (split_once_rest_shorter _ Hc) as Hlt.
  pose proof (handle_line_buffer c (nth 0 (split_once LF (buffer h)) [])
                (set_buffer (nth 1 (split_once LF (buffer h)) []) h)) as Hb.
  destruct (handle_line c (nth 0 (split_once LF (buffer h)) [])
              (set_buffer (nth 1 (split_once LF (buffer h)) []) h))
    as [[u|e] h']; [|discriminate].
  simpl in Hb. apply IH. rewrite Hb. lia.
Qed.

(** ** The two states of a connection *)

Lemma username_lift (A : Type) (m : M world A) (h : handler) :
  username (snd (lift m h)) = username h.
Proof. unfold lift. destruct (m (srv h)); reflexivity. Qed.

(** X1.  Before the login every verb other than LOGIN is answered with
    [ERR login-required], and nothing else happens. *)
Theorem command_before_login_is_refused (c : sock) (line : str) (h : handler)
    (cmd arg : str) :
  truthy (username h) = false ->
  strip line <> [] ->
  parse (strip line) = (cmd, arg) ->
  cmd <> T "LOGIN" ->
  answers (handle_line c line h) h c (Bn "ERR login-required").
Proof.
  intros Hu Hl Hp Hc.
  rewrite (handle_line_unauthenticated c line h cmd arg Hu Hl Hp).
  apply str_eqb_neq in Hc. rewrite Hc. apply lift_sendall.
Qed.

(** X2.  Once a handler has a name no line changes it: there is no second
    login and no logout.  A verb other than MSG, WHO, PING and DM, LOGIN
    included, is answered with [ERR unknown-command], and nothing else
    happens. *)
Theorem login_is_final (c : sock) (line : str) (h : handler) :
  truthy (username h) = true ->
  username (snd (handle_line c line h)) = username h
  /\ (forall cmd arg,
        strip line <> [] ->
        parse (strip line) = (cmd, arg) ->
        cmd <> T "MSG" -> cmd <> T "WHO" -> cmd <> T "PING" ->
        cmd <> T "DM" ->
        answers (handle_line c line h) h c (Bn "ERR unknown-command")).
Proof.
  intros Hu. split.
  - destruct (strip line) as [|x r] eqn:Hl.
    + rewrite (handle_line_blank _ _ _ Hl). reflexivity.
    + assert (Hne : strip line <> []) by (rewrite Hl; discriminate).
      destruct (parse (strip line)) as [cmd arg] eqn:Hp.
      rewrite (handle_line_authenticated c line h cmd arg Hu Hne Hp).
      unfold authenticated_body.
      repeat match goal with
             | |- context [if ?b then _ else _] => destruct b
             end;
        try apply username_lift; reflexivity.
  - intros cmd arg Hl Hp H1 H2 H3 H4.
    rewrite (handle_line_authenticated c line h cmd arg Hu Hl Hp).
    unfold authenticated_body.
    apply str_eqb_neq in H1, H2, H3, H4. rewrite H1, H2, H3, H4.
    apply lift_sendall.
Qed.

(** ** Registering, looking up, leaving *)

Lemma dict_get_snoc_fresh (d : dict) (n : str) (c : sock) :
  ~ In n (keys d) -> dict_get n (d ++ [(n, c)]) = Some c.
Proof.
  induction d as [|[k v] r IH]; simpl; intros H.
  - rewrite str_eqb_refl. reflexivity.
  - destruct (str_eqb n k) eqn:E.
    + apply str_eqb_eq in E. exfalso; apply H; left; congruence.
    + apply IH. intros H'; apply H; right; exact H'.
Qed.

(** X3.  A name that has just been registered is found: after the LOGIN of
    a free name from socket [c], a DM that any logged-in handler addresses to
    that name is written to [c], and to no other socket. *)
Theorem dm_reaches_a_new_login (c : sock) (line : str) (h : handler)
    (arg : str) :
  truthy (username h) = false ->
  strip line <> [] ->
  parse (strip line) = (T "LOGIN", arg) ->
  strip arg <> [] -> ~ In SP (strip arg) ->
  ~ In (strip arg) (keys (clients (srv h))) ->
  let h1 := snd (handle_line c line h) in
  username h1 = Some (strip arg)
  /\ dict_get (strip arg) (clients (srv h1)) = Some c
  /\ forall c2 line2 h2 s m data,
       srv h2 = srv h1 ->
       username h2 = Some s -> s <> [] ->
       strip line2 <> [] ->
       parse (strip line2) = (T "DM", strip arg ++ SP :: m) ->
       encode (T "DM " ++ s ++ [SP] ++ m ++ [LF]) = Some data ->
       handle_line c2 line2 h2
       = (Ok tt, after_send h2 c data (send_ok (log (srv h2)) c data)).
Proof.
  intros Hu Hl Hp Hn Hsp Hfree. cbv zeta.
  rewrite (handle_line_login_free c line h arg Hu Hl Hp Hn Hsp Hfree).
  simpl. split; [reflexivity|].
  pose proof (dict_get_snoc_fresh (clients (srv h)) (strip arg) c Hfree) as Hg.
  split; [exact Hg|].
  intros c2 line2 h2 s m data Hs Hu2 Hs2 Hl2 Hp2 Henc.
  apply (handle_line_dm_present c2 line2 h2 s (strip arg) m data c); auto.
  rewrite Hs. exact Hg.
Qed.

Lemma broadcast_returns (message : str) (ex : option str) (w : world) :
  unique_keys w -> fst (broadcast message ex w) = Ok tt.
Proof.
  intros Hw. destruct (encode (message ++ [LF])) as [data|] eqn:Henc.
  - rewrite (broadcast_eq message ex data w Hw Henc). reflexivity.
  - unfold broadcast, bind at 1 2, gets.
    rewrite (broadcast_loop_unencodable message ex Henc).
    rewrite evict_eq; simpl.
    + reflexivity.
    + exact Hw.
    + apply keys_filter_NoDup. exact Hw.
    + apply targets_keys_incl.
Qed.

Lemma disconnect_user_unfold (name : str) (w : world) :
  unique_keys w ->
  disconnect_user name w
  = broadcast (T "INFO " ++ name ++ T " disconnected") None
      (set_clients (without [name] (clients w)) w).
Proof.
  intros Hw. unfold disconnect_user, bind at 1 2, gets.
  destruct (dict_mem name (clients w)) eqn:Hm.
  - apply dict_mem_In in Hm.
    rewrite (dict_del_without name (clients w) Hw Hm). reflexivity.
  - apply dict_mem_false in Hm. unfold ret.
    rewrite (without_absent _ _ Hm). unfold set_clients.
    rewrite world_eta. reflexivity.
Qed.

(** [disconnect_user] on a registry with distinct names returns normally
    and leaves a registry without the name, encodable or not. *)
Lemma disconnect_user_removes (name : str) (w : world) :
  unique_keys w ->
  fst (disconnect_user name w) = Ok tt
  /\ ~ In name (keys (clients (snd (disconnect_user name w)))).
Proof.
  intros Hw. rewrite (disconnect_user_unfold name w Hw).
  assert (Hw1 : unique_keys (set_clients (without [name] (clients w)) w))
    by (unfold unique_keys; simpl; apply keys_filter_NoDup; exact Hw).
  split; [apply broadcast_returns; exact Hw1|].
  intros H. unfold keys in H. apply in_map_iff in H.
  destruct H as (kv & E & H). apply broadcast_incl in H. simpl in H.
  apply (without_notin [name] (clients w) name); [left; reflexivity|].
  unfold keys. apply in_map_iff. exists kv. split; assumption.
Qed.

Lemma lift_eq (A : Type) (m : M world A) (h : handler) :
  lift m h
  = (fst (m (srv h)),
     {| srv := snd (m (srv h)); username := username h; buffer := buffer h |}).
Proof. unfold lift. destruct (m (srv h)); reflexivity. Qed.

Lemma finally_clause_unfold (c : sock) (h : handler) :
  finally_clause c h
  = match (if truthy (username h)
           then lift (disconnect_user (name_of (username h))) h
           else (Ok tt, h)) with
    | (Ok _, h1) => lift (catch (close c) (ret tt)) h1
    | (Raise e, h1) => (Raise e, h1)
    end.
Proof.
  unfold finally_clause, bind, gets, ret.
  destruct (truthy (username h)); reflexivity.
Qed.

Lemma close_caught (c : sock) (h : handler) :
  let r := lift (catch (close c) (ret tt)) h in
  fst r = Ok tt
  /\ username (snd r) = username h
  /\ buffer (snd r) = buffer h
  /\ (exists ok, last_event (srv (snd r)) = Some (EvClose c ok))
  /\ clients (srv (snd r)) = clients (srv h)
  /\ extends (srv h) (srv (snd r)).
Proof.
  cbv zeta. unfold lift, catch, close, ret, last_event, add_event, extends.
  destruct (close_ok (log (srv h)) c); simpl; rewrite rev_app_distr; simpl;
    repeat split; eauto.
Qed.

(** The [finally] clause on a registry with distinct names: it returns
    normally, its last call is the close of the socket, and the name of the
    handler is not registered afterwards. *)
Lemma finally_clause_spec (c : sock) (h : handler) :
  unique_keys (srv h) ->
  let r := finally_clause c h in
  fst r = Ok tt
  /\ username (snd r) = username h
  /\ (exists ok, last_event (srv (snd r)) = Some (EvClose c ok))
  /\ (truthy (username h) = true ->
      ~ In (name_of (username h)) (keys (clients (srv (snd r)))))
  /\ incl (clients (srv (snd r))) (clients (srv h))
  /\ unique_keys (srv (snd r)).
Proof.
  intros Hw. cbv zeta. rewrite finally_clause_unfold.
  destruct (truthy (username h)) eqn:Hu.
  - rewrite lift_eq.
    destruct (disconnect_user_removes (name_of (username h)) (srv h) Hw)
      as [Hr Hn].
    pose proof (disconnect_user_incl (name_of (username h)) (srv h)) as Hi.
    pose proof (disconnect_user_unique_keys (name_of (username h)) (srv h) Hw)
      as Hk.
    rewrite Hr.
    destruct (close_caught c
                {| srv := snd (disconnect_user (name_of (username h)) (srv h));
                   username := username h; buffer := buffer h |})
      as (H1 & H2 & _ & H3 & H4 & _).
    cbv zeta in H1, H2, H3, H4. simpl in H2, H4.
    repeat split; auto.
    + intros _. rewrite H4. exact Hn.
    + rewrite H4. exact Hi.
    + unfold unique_keys. rewrite H4. exact Hk.
  - destruct (close_caught c h) as (H1 & H2 & _ & H3 & H4 & _).
    cbv zeta in H1, H2, H3, H4.
    repeat split; auto.
    + discriminate.
    + rewrite H4. apply incl_refl.
    + unfold unique_keys. rewrite H4. exact Hw.
Qed.

(** X4.  A name that has left is not found: after the [finally] clause of a
    handler logged in as [u], a DM that any logged-in handler addresses to
    [u] is answered with [ERR user-not-found]. *)
Theorem dm_after_leaving_finds_nobody (c : sock) (h : handler) (u : str) :
  unique_keys (srv h) ->
  username h = Some u -> u <> [] -> ~ In SP u ->
  let h1 := snd (finally_clause c h) in
  dict_get u (clients (srv h1)) = None
  /\ forall c2 line2 h2 s m,
       srv h2 = srv h1 ->
       username h2 = Some s -> s <> [] ->
       strip line2 <> [] ->
       parse (strip line2) = (T "DM", u ++ SP :: m) ->
       answers (handle_line c2 line2 h2) h2 c2 (Bn "ERR user-not-found").
Proof.
  intros Hw Hu Hne Hsp. cbv zeta.
  destruct (finally_clause_spec c h Hw) as (_ & _ & _ & Hgone & _).
  cbv zeta in Hgone. rewrite Hu in Hgone. simpl name_of in Hgone.
  assert (Hg : dict_get u (clients (srv (snd (finally_clause c h)))) = None).
  { apply dict_get_None. apply Hgone. destruct u; [contradiction|reflexivity]. }
  split; [exact Hg|].
  intros c2 line2 h2 s m Hs Hu2 Hs2 Hl2 Hp2.
  rewrite (handle_line_dm c2 line2 h2 s _ Hu2 Hs2 Hl2 Hp2).
  unfold lift at 1. rewrite (handle_dm_split s u m c2 (srv h2) Hsp).
  rewrite Hs, Hg. rewrite <- Hs. apply (lift_sendall c2 _ h2).
Qed.

(** ** More on broadcasts and on the bindings of names *)

Lemma targets_exclude (u : str) (d : dict) :
  ~ In u (keys (targets (Some u) d)).
Proof.
  intros H. unfold keys, targets in H. apply in_map_iff in H.
  destruct H as (kv & E & H). apply filter_In in H. destruct H as [_ H].
  rewrite E, str_eqb_refl in H. discriminate.
Qed.

Lemma failed_all_sent (data : bytes) (tg : dict) :
  forall lg : list event,
    (forall lg' s, In s (map snd tg) -> send_ok lg' s data = true) ->
    failed tg (outcomes lg data (map snd tg)) = [].
Proof.
  induction tg as [|[k s] r IH]; intros lg H; [reflexivity|].
  simpl map. simpl outcomes. rewrite failed_cons.
  rewrite (H lg s) by (left; reflexivity).
  apply IH. intros lg' s' Hs. apply H. right. exact Hs.
Qed.

(** X5.  A broadcast takes out of the registry neither the entry of the
    excluded name (the sender of a MSG), whatever happens to the sends, nor
    anything at all when every send succeeds. *)
Theorem broadcast_spares_the_sender (message : str) (u : str) (data : bytes)
    (w : world) :
  unique_keys w ->
  encode (message ++ [LF]) = Some data ->
  let w' := snd (broadcast message (Some u) w) in
  (forall s, In (u, s) (clients w) -> In (u, s) (clients w'))
  /\ ((forall lg s, In s (map snd (clients w)) -> send_ok lg s data = true) ->
      clients w' = clients w).
Proof.
  intros Hw Henc. cbv zeta.
  rewrite (broadcast_eq message (Some u) data w Hw Henc). simpl. split.
  - intros s Hin. unfold without. apply filter_In. split; [exact Hin|].
    apply negb_true_iff. simpl fst.
    destruct (existsb (str_eqb u) _) eqn:E; [|reflexivity].
    apply existsb_exists in E. destruct E as (k & Hk & E).
    apply str_eqb_eq in E. subst k. apply failed_incl in Hk.
    exfalso. apply (targets_exclude u (clients w)). exact Hk.
  - intros Hall. rewrite failed_all_sent.
    + apply without_nil.
    + intros lg' s Hs. apply Hall. unfold targets in Hs.
      apply in_map_iff in Hs. destruct Hs as (kv & <- & Hs).
      apply filter_In in Hs. apply in_map. exact (proj1 Hs).
Qed.

(** X6.  No action of the server gives a registered name to another socket:
    on a registry with distinct names, the socket a name has after a step is
    the one it had before, and a binding that is new is the binding of a
    name that was not registered. *)
Theorem step_keeps_bindings (w w' : world) :
  unique_keys w ->
  step w w' ->
  (forall u s s',
     In (u, s) (clients w) -> In (u, s') (clients w') -> s = s')
  /\ (forall u s',
        In (u, s') (clients w') ->
        In (u, s') (clients w) \/ ~ In u (keys (clients w))).
Proof.
  intros Hw Hs.
  assert (Hnew : forall u s', In (u, s') (clients w') ->
                   In (u, s') (clients w) \/ ~ In u (keys (clients w))).
  { intros u s' Hin.
    destruct (step_incl_or_fresh w w' Hs) as [Hi|(n & c & Hn & _ & E)].
    - left. apply Hi. exact Hin.
    - rewrite E in Hin. apply in_app_or in Hin.
      destruct Hin as [Hin|[Hin|[]]]; [left; exact Hin|].
      injection Hin as <- <-. right. exact Hn. }
  split; [|exact Hnew].
  intros u s s' H1 H2. destruct (Hnew u s' H2) as [H|H].
  - apply (unique_keys_functional w u s s' Hw H1 H).
  - exfalso. apply H. apply (in_map fst) in H1. exact H1.
Qed.

(** X7.  A message that has no UTF-8 encoding (a lone surrogate in it) is
    written to nobody, and every entry the broadcast addresses is taken out
    of the registry as if its send had failed: only the entry of the
    excluded name is left. *)
Theorem unencodable_broadcast_evicts_all (message : str) (ex : option str)
    (w : world) :
  unique_keys w ->
  encode (message ++ [LF]) = None ->
  broadcast message ex w
  = (Ok tt,
     {| clients := without (keys (targets ex (clients w))) (clients w);
        log := log w |})
  /\ forall k, In k (keys (clients (snd (broadcast message ex w)))) ->
               ex = Some k.
Proof.
  intros Hw Henc.
  assert (E : broadcast message ex w
              = (Ok tt,
                 {| clients := without (keys (targets ex (clients w)))
                                 (clients w);
                    log := log w |})).
  { unfold broadcast, bind at 1 2, gets.
    rewrite (broadcast_loop_unencodable message ex Henc).
    rewrite evict_eq; simpl.
    - reflexivity.
    - exact Hw.
    - apply keys_filter_NoDup. exact Hw.
    - apply targets_keys_incl. }
  split; [exact E|].
  intros k Hk. rewrite E in Hk. simpl in Hk.
  unfold keys, without in Hk. apply in_map_iff in Hk.
  destruct Hk as ([k' s] & <- & Hk). apply filter_In in Hk.
  destruct Hk as [Hin Hk]. simpl fst in *. apply negb_true_iff in Hk.
  destruct ex as [x|].
  - destruct (str_eqb k' x) eqn:Ex.
    + apply str_eqb_eq in Ex. congruence.
    + exfalso.
      assert (existsb (str_eqb k') (keys (targets (Some x) (clients w))) = true);
        [|unfold keys in *; congruence].
      apply existsb_exists. exists k'. split; [|apply str_eqb_refl].
      unfold keys, targets. apply in_map_iff. exists (k', s).
      split; [reflexivity|]. apply filter_In. split; [exact Hin|].
      simpl. rewrite Ex. reflexivity.
  - exfalso.
    assert (existsb (str_eqb k') (keys (targets None (clients w))) = true);
      [|unfold keys in *; congruence].
    apply existsb_exists. exists k'. split; [|apply str_eqb_refl].
    rewrite targets_None. apply (in_map fst) in Hin. exact Hin.
Qed.

(** ** A whole run of [handle_client] *)

Lemma extends_refl (w : world) : extends w w.
Proof. exists []. rewrite app_nil_r. reflexivity. Qed.

Lemma extends_trans (w1 w2 w3 : world) :
  extends w1 w2 -> extends w2 w3 -> extends w1 w3.
Proof.
  intros (e1 & H1) (e2 & H2). exists (e1 ++ e2).
  rewrite H2, H1, app_assoc. reflexivity.
Qed.

Lemma sendall_extends (c : sock) (data : bytes) (w : world) :
  extends w (snd (sendall c data w)).
Proof. unfold sendall, add_event, extends. simpl. eauto. Qed.

Lemma send_text_extends (c : sock) (text : str) (w : world) :
  extends w (snd (send_text c text w)).
Proof.
  unfold send_text. destruct (encode text);
    [apply sendall_extends | apply extends_refl].
Qed.

Lemma broadcast_extends (message : str) (ex : option str) (w : world) :
  extends w (snd (broadcast message ex w)).
Proof.
  unfold broadcast, bind at 1 2, gets.
  destruct (encode (message ++ [LF])) as [data|] eqn:Henc.
  - rewrite (broadcast_loop_eq message ex data Henc). cbv zeta.
    unfold extends. rewrite evict_log. simpl. eauto.
  - rewrite (broadcast_loop_unencodable message ex Henc).
    unfold extends. rewrite evict_log. exists []. rewrite app_nil_r.
    reflexivity.
Qed.

Lemma disconnect_user_extends (name : str) (w : world) :
  extends w (snd (disconnect_user name w)).
Proof.
  unfold disconnect_user, bind at 1 2, gets.
  destruct (dict_mem name (clients w)).
  - destruct (dict_del name (clients w)) as [d'|].
    + unfold modify.
      apply (extends_trans w (set_clients d' w));
        [exists []; simpl; rewrite app_nil_r; reflexivity|].
      apply broadcast_extends.
    + apply extends_refl.
  - unfold ret. apply broadcast_extends.
Qed.

Lemma handle_dm_extends (sender args : str) (c : sock) (w : world) :
  extends w (snd (handle_dm sender args c w)).
Proof.
  unfold handle_dm. destruct (length (split_once SP args) <? 2)%nat.
  - apply sendall_extends.
  - unfold bind, gets. destruct (dict_get _ (clients w)) as [ts|].
    + unfold catch.
      pose proof (send_text_extends ts
        (T "DM " ++ sender ++ [SP] ++ nth 1 (split_once SP args) [] ++ [LF])
        w) as H.
      destruct (send_text ts _ w) as [[|] w']; simpl in *; exact H.
    + apply sendall_extends.
Qed.

Lemma handle_line_extends (c : sock) (line : str) (h : handler) :
  extends (srv h) (srv (snd (handle_line c line h))).
Proof.
  destruct (strip line) as [|x r] eqn:Hl.
  - rewrite (handle_line_blank _ _ _ Hl). apply extends_refl.
  - assert (Hne : strip line <> []) by (rewrite Hl; discriminate).
    destruct (parse (strip line)) as [cmd arg] eqn:Hp.
    destruct (truthy (username h)) eqn:Hu.
    + rewrite (handle_line_authenticated c line h cmd arg Hu Hne Hp).
      unfold authenticated_body.
      destruct (str_eqb cmd (T "MSG")).
      { destruct (length arg =? 0)%nat; [apply extends_refl|].
        rewrite srv_lift. apply broadcast_extends. }
      destruct (str_eqb cmd (T "WHO")).
      { rewrite srv_lift. unfold bind, gets. apply send_text_extends. }
      destruct (str_eqb cmd (T "PING"));
        [rewrite srv_lift; apply sendall_extends|].
      destruct (str_eqb cmd (T "DM")); rewrite srv_lift;
        [apply handle_dm_extends | apply sendall_extends].
    + rewrite (handle_line_unauthenticated c line h cmd arg Hu Hne Hp).
      destruct (str_eqb cmd (T "LOGIN"));
        [|rewrite srv_lift; apply sendall_extends].
      unfold login_body.
      destruct (length arg =? 0)%nat;
        [rewrite srv_lift; apply sendall_extends|].
      destruct (contains SP (strip arg) || (length (strip arg) <? 1)%nat);
        [rewrite srv_lift; apply sendall_extends|].
      unfold bind at 1, gets at 1. cbv beta.
      destruct (dict_mem (strip arg) (clients (srv h)));
        [rewrite srv_lift; apply sendall_extends|].
      unfold extends. simpl. eauto.
Qed.

Lemma handle_line_unique_keys (c : sock) (line : str) (h : handler) :
  unique_keys (srv h) -> unique_keys (srv (snd (handle_line c line h))).
Proof.
  intros Hw. apply (step_unique_keys (srv h)); [exact Hw|].
  apply (step_line c line h (fst (handle_line c line h))).
  destruct (handle_line c line h); reflexivity.
Qed.

Lemma recv_loop_cons (c : sock) (d : bytes) (rest : list recv_result)
    (h : handler) :
  recv_loop c (Data d :: rest) h
  = if (length d =? 0)%nat then (Ok true, h)
    else match decode d with
         | None => recv_loop c rest h
         | Some text =>
             match drain (S (length (buffer h ++ text))) c
                     (set_buffer (buffer h ++ text) h) with
             | (Ok _, h1) => recv_loop c rest h1
             | (Raise e, h1) => (Raise e, h1)
             end
         end.
Proof.
  simpl. destruct (length d =? 0)%nat; [reflexivity|].
  destruct (decode d) as [text|]; [|reflexivity].
  unfold bind, gets, modify. simpl.
  destruct (drain_S c (length (buffer h ++ text))
              (set_buffer (buffer h ++ text) h)).
  reflexivity.
Qed.

Section Preserved.

(** A property of the state of a handler that no line without a newline and
    no change of the buffer destroys holds all along the two loops. *)
Variable P : handler -> Prop.
Variable c : sock.
Hypothesis P_line :
  forall line h,
    contains LF line = false -> P h -> P (snd (handle_line c line h)).
Hypothesis P_buffer : forall b h, P h -> P (set_buffer b h).

Lemma split_once_line (b : str) :
  contains LF b = true -> contains LF (nth 0 (split_once LF b) []) = false.
Proof.
  intros H. destruct (contains_split _ _ H) as (a & r & -> & Ha).
  rewrite (split_once_at _ _ _ Ha). exact Ha.
Qed.

Lemma drain_preserves (fuel : nat) :
  forall h : handler, P h -> P (snd (drain fuel c h)).
Proof.
  induction fuel as [|f IH]; intros h Hh; [exact Hh|].
  rewrite drain_S. destruct (contains LF (buffer h)) eqn:Hc; [|exact Hh].
  pose proof (P_line (nth 0 (split_once LF (buffer h)) []) _
                (split_once_line _ Hc)
                (P_buffer (nth 1 (split_once LF (buffer h)) []) h Hh)) as H.
  destruct (handle_line c _ (set_buffer _ h)) as [[u|e] h'];
    simpl in H; [apply IH|]; exact H.
Qed.

Lemma recv_loop_preserves (inputs : list recv_result) :
  forall h : handler, P h -> P (snd (recv_loop c inputs h)).
Proof.
  induction inputs as [|[d|] rest IH]; intros h Hh; try exact Hh.
  rewrite recv_loop_cons. destruct (length d =? 0)%nat; [exact Hh|].
  destruct (decode d) as [text|]; [|apply IH; exact Hh].
  pose proof (drain_preserves (S (length (buffer h ++ text))) _
                (P_buffer (buffer h ++ text) h Hh)) as H.
  destruct (drain _ c (set_buffer _ h)) as [[u|e] h'];
    simpl in H; [apply IH|]; exact H.
Qed.

End Preserved.

Lemma handle_client_unfold (c : sock) (inputs : list recv_result) (w : world) :
  let h0 := {| srv := w; username := None; buffer := [] |} in
  let ok := send_ok (log w) c welcome in
  handle_client c inputs w
  = if ok then
      match recv_loop c inputs (after_send h0 c welcome true) with
      | (Ok false, h') => (Ok false, h')
      | (_, h') =>
          match finally_clause c h' with
          | (Ok _, h2) => (Ok true, h2)
          | (Raise e, h2) => (Raise e, h2)
          end
      end
    else
      match finally_clause c (after_send h0 c welcome false) with
      | (Ok _, h2) => (Ok true, h2)
      | (Raise e, h2) => (Raise e, h2)
      end.
Proof.
  cbv zeta. unfold handle_client, handle_client_from, bind at 1.
  unfold lift at 1, sendall at 1, after_send. simpl.
  destruct (send_ok (log w) c welcome).
  - destruct (recv_loop c inputs _) as [[[|]|e] h']; unfold bind, ret;
      try reflexivity;
      destruct (finally_clause c h') as [[u|e'] h2]; reflexivity.
  - unfold bind, ret.
    destruct (finally_clause c _) as [[u|e'] h2]; reflexivity.
Qed.

(** The end of a run on a registry with distinct names. *)
Lemma handle_client_end (c : sock) (inputs : list recv_result) (w : world) :
  unique_keys w ->
  let r := handle_client c inputs w in
  (exists b, fst r = Ok b)
  /\ unique_keys (srv (snd r))
  /\ (fst r = Ok true ->
      (exists ok, last_event (srv (snd r)) = Some (EvClose c ok))
      /\ (truthy (username (snd r)) = true ->
          ~ In (name_of (username (snd r))) (keys (clients (srv (snd r)))))).
Proof.
  intros Hw. cbv zeta. rewrite handle_client_unfold. cbv zeta.
  assert (Hfin : forall h', unique_keys (srv h') ->
            let r := match finally_clause c h' with
                     | (Ok _, h2) => (Ok true, h2)
                     | (Raise e, h2) => (Raise e, h2)
                     end in
            (exists b, fst r = Ok b)
            /\ unique_keys (srv (snd r))
            /\ (fst r = Ok true ->
                (exists ok, last_event (srv (snd r)) = Some (EvClose c ok))
                /\ (truthy (username (snd r)) = true ->
                    ~ In (name_of (username (snd r)))
                         (keys (clients (srv (snd r))))))).
  { intros h' Hk. cbv zeta.
    destruct (finally_clause_spec c h' Hk) as (H1 & H2 & H3 & H4 & _ & H6).
    cbv zeta in H1, H2, H3, H4, H6.
    destruct (finally_clause c h') as [[u|e] h2]; simpl in *;
      [|discriminate].
    split; [eauto|]. split; [exact H6|]. intros _. split; [exact H3|].
    rewrite H2. exact H4. }
  destruct (send_ok (log w) c welcome).
  - pose proof (recv_loop_preserves (fun h => unique_keys (srv h)) c
                  (fun line h _ => handle_line_unique_keys c line h)
                  (fun b h H => H) inputs
                  (after_send {| srv := w; username := None; buffer := [] |}
                     c welcome true) Hw) as Hk.
    destruct (recv_loop c inputs _) as [[[|]|e] h']; simpl in Hk.
    + apply Hfin. exact Hk.
    + simpl. split; [eauto|]. split; [exact Hk|]. discriminate.
    + apply Hfin. exact Hk.
  - apply Hfin. exact Hw.
Qed.

(** X8.  On a registry with distinct names no exception leaves
    [handle_client], whatever is received and whichever calls fail; and when
    it has returned, the last call it made is the close of its own socket. *)
Theorem handle_client_closes_its_socket (c : sock)
    (inputs : list recv_result) (w : world) :
  unique_keys w ->
  let r := handle_client c inputs w in
  (exists b, fst r = Ok b)
  /\ (fst r = Ok true ->
      exists ok, last_event (srv (snd r)) = Some (EvClose c ok)).
Proof.
  intros Hw. cbv zeta.
  destruct (handle_client_end c inputs w Hw) as (H1 & _ & H3).
  split; [exact H1|]. intros H. apply H3. exact H.
Qed.

(** X9.  On a registry with distinct names, when [handle_client] has
    returned, the name its connection had logged in with is not in the
    registry, however the connection ended: in particular a LOGIN whose [OK]
    could not be sent leaves no registration behind. *)
Theorem handle_client_leaves_no_name (c : sock) (inputs : list recv_result)
    (w : world) (u : str) :
  unique_keys w ->
  fst (handle_client c inputs w) = Ok true ->
  username (snd (handle_client c inputs w)) = Some u -> u <> [] ->
  ~ In u (keys (clients (srv (snd (handle_client c inputs w))))).
Proof.
  intros Hw Hr Hu Hne.
  destruct (handle_client_end c inputs w Hw) as (_ & _ & H3).
  destruct (H3 Hr) as [_ H]. rewrite Hu in H. apply H.
  destruct u; [contradiction | reflexivity].
Qed.

Lemma finally_clause_extends (c : sock) (h : handler) :
  extends (srv h) (srv (snd (finally_clause c h))).
Proof.
  rewrite finally_clause_unfold.
  destruct (truthy (username h)).
  - rewrite lift_eq.
    pose proof (disconnect_user_extends (name_of (username h)) (srv h)) as H.
    destruct (fst (disconnect_user (name_of (username h)) (srv h))).
    + eapply extends_trans; [exact H|].
      destruct (close_caught c
                  {| srv := snd (disconnect_user (name_of (username h))
                                   (srv h));
                     username := username h; buffer := buffer h |})
        as (_ & _ & _ & _ & _ & He).
      exact He.
    + exact H.
  - destruct (close_caught c h) as (_ & _ & _ & _ & _ & He). exact He.
Qed.

(** X10.  The first call of [handle_client] is the send of the welcome line
    to its own socket: everything else it does comes after. *)
Theorem welcome_comes_first (c : sock) (inputs : list recv_result)
    (w : world) :
  exists evs,
    log (srv (snd (handle_client c inputs w)))
    = log w ++ EvSend c welcome (send_ok (log w) c welcome) :: evs.
Proof.
  rewrite handle_client_unfold. cbv zeta.
  assert (Hfin : forall ok h',
            extends (add_event (EvSend c welcome ok) w) (srv h') ->
            exists evs,
              log (srv (snd (match finally_clause c h' with
                             | (Ok _, h2) => (Ok true, h2)
                             | (Raise e, h2) => (Raise e, h2)
                             end)))
              = log w ++ EvSend c welcome ok :: evs).
  { intros ok h' He.
    pose proof (extends_trans _ _ _ He (finally_clause_extends c h')) as H.
    destruct H as (evs & H). exists evs.
    destruct (finally_clause c h') as [[u|e] h2]; simpl in *;
      rewrite H, <- app_assoc; reflexivity. }
  destruct (send_ok (log w) c welcome).
  - pose proof (recv_loop_preserves
                  (fun h => extends (add_event (EvSend c welcome true) w)
                              (srv h)) c
                  (fun line h _ H =>
                     extends_trans _ _ _ H (handle_line_extends c line h))
                  (fun b h H => H) inputs
                  (after_send {| srv := w; username := None; buffer := [] |}
                     c welcome true) (extends_refl _)) as He.
    destruct (recv_loop c inputs _) as [[[|]|e] h']; simpl in He.
    + apply Hfin. exact He.
    + destruct He as (evs & He). exists evs. simpl.
      rewrite He. simpl. rewrite <- app_assoc. reflexivity.
    + apply Hfin. exact He.
  - apply Hfin. apply extends_refl.
Qed.

(** X11.  When the welcome line cannot be sent, the handler reads nothing:
    it closes its socket, whether or not the close succeeds, and returns,
    and the registry is as it was. *)
Theorem failed_welcome_ends_the_handler (c : sock)
    (inputs : list recv_result) (w : world) :
  send_ok (log w) c welcome = false ->
  let lg := log w ++ [EvSend c welcome false] in
  handle_client c inputs w
  = (Ok true,
     {| srv := {| clients := clients w;
                  log := lg ++ [EvClose c (close_ok lg c)] |};
        username := None;
        buffer := [] |}).
Proof.
  intros Hf. cbv zeta. rewrite handle_client_unfold. cbv zeta. rewrite Hf.
  rewrite finally_clause_unfold. simpl.
  unfold lift, catch, close, ret, add_event. simpl.
  destruct (close_ok (log w ++ [EvSend c welcome false]) c); reflexivity.
Qed.

Lemma recv_loop_waiting_buffer (c : sock) (inputs : list recv_result) :
  forall h : handler,
    contains LF (buffer h) = false ->
    fst (recv_loop c inputs h) = Ok false ->
    contains LF (buffer (snd (recv_loop c inputs h))) = false.
Proof.
  induction inputs as [|[d|] rest IH]; intros h Hb Hr.
  - exact Hb.
  - rewrite recv_loop_cons in *.
    destruct (length d =? 0)%nat; [discriminate|].
    destruct (decode d) as [text|]; [|apply IH; assumption].
    pose proof (drain_leaves_no_newline c (S (length (buffer h ++ text)))
                  (set_buffer (buffer h ++ text) h)) as Hd.
    destruct (drain _ c (set_buffer (buffer h ++ text) h)) as [[[]|e] h1].
    + apply IH; [|exact Hr]. apply Hd; [simpl; lia | reflexivity].
    + discriminate.
  - discriminate.
Qed.

(** X12.  While a handler waits for more input its buffer holds no
    newline: every complete line received so far has been handled, and what
    is kept is the unfinished last line only. *)
Theorem waiting_handler_has_no_complete_line (c : sock)
    (inputs : list recv_result) (w : world) :
  fst (handle_client c inputs w) = Ok false ->
  contains LF (buffer (snd (handle_client c inputs w))) = false.
Proof.
  rewrite handle_client_unfold. cbv zeta.
  destruct (send_ok (log w) c welcome).
  - pose proof (recv_loop_waiting_buffer c inputs
                  (after_send {| srv := w; username := None; buffer := [] |}
                     c welcome true) eq_refl) as H.
    destruct (recv_loop c inputs _) as [[[|]|e] h'].
    + destruct (finally_clause c h') as [[u|e] h2]; discriminate.
    + intros _. apply H. reflexivity.
    + destruct (finally_clause c h') as [[u|e'] h2]; discriminate.
  - destruct (finally_clause c _) as [[u|e] h2]; discriminate.
Qed.

(** ** Decoding and encoding again *)

Lemma decode_cons (b0 : byte) (r0 : bytes) :
  decode (b0 :: r0)
  = match decode_char (b0 :: r0) with
    | Some (c, r) => option_map (cons c) (decode r)
    | None => None
    end.
Proof.
  cbn [decode decode_char]. cbv zeta.
  destruct (byte_val b0 <? 0x80); [reflexivity|].
  destruct (byte_val b0 <? 0xC2); [reflexivity|].
  destruct (byte_val b0 <? 0xE0).
  { destruct r0 as [|b1 r1]; [reflexivity|].
    destruct (is_cont (byte_val b1)); reflexivity. }
  destruct (byte_val b0 <? 0xF0).
  { destruct r0 as [|b1 [|b2 r2]]; try reflexivity.
    match goal with
    | |- (if ?c then _ else _) = _ => destruct c; reflexivity
    end. }
  destruct (byte_val b0 <? 0xF5); [|reflexivity].
  destruct r0 as [|b1 [|b2 [|b3 r3]]]; try reflexivity.
  match goal with
  | |- (if ?c then _ else _) = _ => destruct c; reflexivity
  end.
Qed.

Lemma byte_of_val (b : byte) : byte_of (byte_val b) = b.
Proof.
  unfold byte_of, byte_val. rewrite N2Z.id, Byte.of_to_N. reflexivity.
Qed.

Ltac divmod := Z.div_mod_to_equations; lia.

(** The first character read is a code point whose encoding is the bytes it
    was read from. *)
Lemma decode_char_encode (bs r : bytes) (c : Z) :
  decode_char bs = Some (c, r) ->
  exists p, encode_cp c = Some p /\ bs = p ++ r /\ p <> [].
Proof.
  destruct bs as [|b0 r0]; [discriminate|].
  cbn [decode_char]. cbv zeta.
  pose proof (byte_val_range b0) as R0.
  destruct (Z.ltb_spec (byte_val b0) 0x80).
  { intros E; injection E as <- <-. exists [b0]. unfold encode_cp.
    destruct (Z.ltb_spec (byte_val b0) 0); [lia|].
    destruct (Z.ltb_spec (byte_val b0) 0x80); [|lia].
    rewrite byte_of_val. repeat split. discriminate. }
  destruct (Z.ltb_spec (byte_val b0) 0xC2); [discriminate|].
  destruct (Z.ltb_spec (byte_val b0) 0xE0).
  { destruct r0 as [|b1 r1]; [discriminate|]. unfold is_cont.
    destruct ((0x80 <=? byte_val b1) && (byte_val b1 <? 0xC0)) eqn:C1;
      [|discriminate].
    apply andb_true_iff in C1. destruct C1 as [L1 U1].
    apply Z.leb_le in L1. apply Z.ltb_lt in U1.
    intros E; injection E as <- <-. exists [b0; b1].
    split; [|split; [reflexivity | discriminate]].
    unfold encode_cp.
    set (v := (byte_val b0 - 0xC0) * 64 + (byte_val b1 - 0x80)).
    assert (Hv : 0x80 <= v < 0x800) by (unfold v; lia).
    destruct (Z.ltb_spec v 0); [lia|].
    destruct (Z.ltb_spec v 0x80); [lia|].
    destruct (Z.ltb_spec v 0x800); [|lia].
    replace (0xC0 + v / 64) with (byte_val b0) by (unfold v; divmod).
    replace (0x80 + v mod 64) with (byte_val b1) by (unfold v; divmod).
    rewrite !byte_of_val. reflexivity. }
  destruct (Z.ltb_spec (byte_val b0) 0xF0).
  { destruct r0 as [|b1 [|b2 r2]]; try discriminate. unfold is_cont.
    match goal with
    | |- (if ?c then _ else _) = _ -> _ => destruct c eqn:C; [|discriminate]
    end.
    rewrite !andb_true_iff, !Z.leb_le, !Z.ltb_lt in C.
    destruct C as [[L1 U1] [L2 U2]].
    assert (B1 : 0x80 <= byte_val b1 < 0xC0)
      by (destruct (Z.eqb_spec (byte_val b0) 0xE0),
                   (Z.eqb_spec (byte_val b0) 0xED); lia).
    intros E; injection E as <- <-. exists [b0; b1; b2].
    split; [|split; [reflexivity | discriminate]].
    unfold encode_cp.
    set (v := (byte_val b0 - 0xE0) * 4096 + (byte_val b1 - 0x80) * 64
              + (byte_val b2 - 0x80)).
    assert (Hv : 0x800 <= v < 0x10000
                 /\ (v < 0xD800 \/ 0xE000 <= v)).
    { unfold v. destruct (Z.eqb_spec (byte_val b0) 0xE0),
                         (Z.eqb_spec (byte_val b0) 0xED); lia. }
    destruct (Z.ltb_spec v 0); [lia|].
    destruct (Z.ltb_spec v 0x80); [lia|].
    destruct (Z.ltb_spec v 0x800); [lia|].
    destruct (Z.ltb_spec v 0x10000); [|lia].
    destruct (Z.leb_spec 0xD800 v), (Z.ltb_spec v 0xE000); cbn [andb];
      try lia.
    - replace (0xE0 + v / 4096) with (byte_val b0)
        by (unfold v in *; divmod).
      replace (0x80 + (v / 64) mod 64) with (byte_val b1)
        by (unfold v in *; divmod).
      replace (0x80 + v mod 64) with (byte_val b2) by (unfold v in *; divmod).
      rewrite !byte_of_val. reflexivity.
    - replace (0xE0 + v / 4096) with (byte_val b0)
        by (unfold v in *; divmod).
      replace (0x80 + (v / 64) mod 64) with (byte_val b1)
        by (unfold v in *; divmod).
      replace (0x80 + v mod 64) with (byte_val b2) by (unfold v in *; divmod).
      rewrite !byte_of_val. reflexivity. }
  destruct (Z.ltb_spec (byte_val b0) 0xF5); [|discriminate].
  destruct r0 as [|b1 [|b2 [|b3 r3]]]; try discriminate. unfold is_cont.
  match goal with
  | |- (if ?c then _ else _) = _ -> _ => destruct c eqn:C; [|discriminate]
  end.
  rewrite !andb_true_iff, !Z.leb_le, !Z.ltb_lt in C.
  destruct C as [[[L1 U1] [L2 U2]] [L3 U3]].
  assert (B1 : 0x80 <= byte_val b1 < 0xC0)
    by (destruct (Z.eqb_spec (byte_val b0) 0xF0),
                 (Z.eqb_spec (byte_val b0) 0xF4); lia).
  intros E; injection E as <- <-. exists [b0; b1; b2; b3].
  split; [|split; [reflexivity | discriminate]].
  unfold encode_cp.
  set (v := (byte_val b0 - 0xF0) * 262144 + (byte_val b1 - 0x80) * 4096
            + (byte_val b2 - 0x80) * 64 + (byte_val b3 - 0x80)).
  assert (Hv : 0x10000 <= v < 0x110000).
  { unfold v. destruct (Z.eqb_spec (byte_val b0) 0xF0),
                       (Z.eqb_spec (byte_val b0) 0xF4); lia. }
  destruct (Z.ltb_spec v 0); [lia|].
  destruct (Z.ltb_spec v 0x80); [lia|].
  destruct (Z.ltb_spec v 0x800); [lia|].
  destruct (Z.ltb_spec v 0x10000); [lia|].
  destruct (Z.ltb_spec v 0x110000); [|lia].
  replace (0xF0 + v / 262144) with (byte_val b0) by (unfold v in *; divmod).
  replace (0x80 + (v / 4096) mod 64) with (byte_val b1)
    by (unfold v in *; divmod).
  replace (0x80 + (v / 64) mod 64) with (byte_val b2)
    by (unfold v in *; divmod).
  replace (0x80 + v mod 64) with (byte_val b3) by (unfold v in *; divmod).
  rewrite !byte_of_val. reflexivity.
Qed.

Lemma decode_char_app (bs r d : bytes) (c : Z) :
  decode_char bs = Some (c, r) -> decode_char (bs ++ d) = Some (c, r ++ d).
Proof.
  destruct bs as [|b0 r0]; [discriminate|].
  cbn [decode_char app]. cbv zeta.
  destruct (byte_val b0 <? 0x80);
    [intros E; injection E as <- <-; reflexivity|].
  destruct (byte_val b0 <? 0xC2); [discriminate|].
  destruct (byte_val b0 <? 0xE0).
  { destruct r0 as [|b1 r1]; [discriminate|]. cbn [app].
    destruct (is_cont (byte_val b1)); [|discriminate].
    intros E; injection E as <- <-; reflexivity. }
  destruct (byte_val b0 <? 0xF0).
  { destruct r0 as [|b1 [|b2 r2]]; try discriminate. cbn [app].
    match goal with
    | |- (if ?c then _ else _) = _ -> _ => destruct c; [|discriminate]
    end.
    intros E; injection E as <- <-; reflexivity. }
  destruct (byte_val b0 <? 0xF5); [|discriminate].
  destruct r0 as [|b1 [|b2 [|b3 r3]]]; try discriminate. cbn [app].
  match goal with
  | |- (if ?c then _ else _) = _ -> _ => destruct c; [|discriminate]
  end.
  intros E; injection E as <- <-; reflexivity.
Qed.

Lemma decode_char_shorter (bs r : bytes) (c : Z) :
  decode_char bs = Some (c, r) -> (length r < length bs)%nat.
Proof.
  intros H. destruct (decode_char_encode bs r c H) as (p & _ & -> & Hp).
  rewrite length_app. destruct p; [contradiction | simpl; lia].
Qed.

Lemma decode_encode_bounded (n : nat) :
  forall (bs : bytes) (s : str),
    (length bs <= n)%nat -> decode bs = Some s -> encode s = Some bs.
Proof.
  induction n as [|n IH]; intros bs s Hn H.
  - destruct bs; [|simpl in Hn; lia]. injection H as <-. reflexivity.
  - destruct bs as [|b0 r0]; [injection H as <-; reflexivity|].
    rewrite decode_cons in H.
    destruct (decode_char (b0 :: r0)) as [[c r]|] eqn:E; [|discriminate].
    destruct (decode r) as [s'|] eqn:E'; [|discriminate].
    injection H as <-.
    pose proof (decode_char_shorter _ _ _ E) as Hlt.
    destruct (decode_char_encode _ _ _ E) as (p & Hp & Hbs & _).
    cbn [encode]. rewrite Hp, (IH r s'); [|simpl in *; lia | exact E'].
    rewrite Hbs. reflexivity.
Qed.

Lemma decode_app_bounded (n : nat) :
  forall (d1 d2 : bytes) (t1 t2 : str),
    (length d1 <= n)%nat ->
    decode d1 = Some t1 -> decode d2 = Some t2 ->
    decode (d1 ++ d2) = Some (t1 ++ t2).
Proof.
  induction n as [|n IH]; intros d1 d2 t1 t2 Hn H1 H2.
  - destruct d1; [|simpl in Hn; lia]. injection H1 as <-. exact H2.
  - destruct d1 as [|b0 r0]; [injection H1 as <-; exact H2|].
    rewrite decode_cons in H1.
    destruct (decode_char (b0 :: r0)) as [[c r]|] eqn:E; [|discriminate].
    destruct (decode r) as [s'|] eqn:E'; [|discriminate].
    injection H1 as <-.
    pose proof (decode_char_shorter _ _ _ E) as Hlt.
    change ((b0 :: r0) ++ d2) with (b0 :: (r0 ++ d2)).
    rewrite decode_cons.
    change (b0 :: (r0 ++ d2)) with ((b0 :: r0) ++ d2).
    rewrite (decode_char_app _ _ d2 _ E).
    rewrite (IH r d2 s' t2); [reflexivity | simpl in *; lia | exact E' | exact H2].
Qed.

(** Chunks that decode on their own decode together, to the texts one after
    the other. *)
Lemma decode_app (d1 d2 : bytes) (t1 t2 : str) :
  decode d1 = Some t1 -> decode d2 = Some t2 ->
  decode (d1 ++ d2) = Some (t1 ++ t2).
Proof. apply (decode_app_bounded (length d1)). apply Nat.le_refl. Qed.

Lemma encode_app (s1 s2 : str) (b1 b2 : bytes) :
  encode s1 = Some b1 -> encode s2 = Some b2 ->
  encode (s1 ++ s2) = Some (b1 ++ b2).
Proof.
  revert b1; induction s1 as [|c r IH]; intros b1 H1 H2.
  - injection H1 as <-. exact H2.
  - cbn [encode app] in *.
    destruct (encode_cp c) as [p|]; [|discriminate].
    destruct (encode r) as [br|]; [|discriminate].
    injection H1 as <-. rewrite (IH br eq_refl H2), app_assoc. reflexivity.
Qed.

(** What [decode] accepts, [encode] gives back byte for byte. *)
Lemma decode_encode (bs : bytes) (s : str) :
  decode bs = Some s -> encode s = Some bs.
Proof. apply (decode_encode_bounded (length bs)). apply Nat.le_refl. Qed.

(** ** Chunks that decode on their own may be cut anywhere *)

Lemma login_body_set_buffer (c : sock) (arg b : str) (h : handler) :
  login_body c arg (set_buffer b h)
  = (fst (login_body c arg h), set_buffer b (snd (login_body c arg h))).
Proof.
  unfold login_body.
  destruct (length arg =? 0)%nat; [rewrite !lift_eq; reflexivity|].
  destruct (contains SP (strip arg) || (length (strip arg) <? 1)%nat);
    [rewrite !lift_eq; reflexivity|].
  unfold bind, gets, modify, lift, sendall, set_username, set_clients,
    add_event, set_buffer. simpl.
  destruct (dict_mem (strip arg) (clients (srv h))); reflexivity.
Qed.

(** The handling of a line neither reads nor writes the buffer. *)
Lemma handle_line_set_buffer (c : sock) (line b : str) (h : handler) :
  handle_line c line (set_buffer b h)
  = (fst (handle_line c line h), set_buffer b (snd (handle_line c line h))).
Proof.
  destruct (strip line) as [|x r] eqn:Hl.
  - rewrite !(handle_line_blank _ _ _ Hl). reflexivity.
  - assert (Hne : strip line <> []) by (rewrite Hl; discriminate).
    destruct (parse (strip line)) as [cmd arg] eqn:Hp.
    destruct (truthy (username h)) eqn:Hu.
    + rewrite (handle_line_authenticated c line h cmd arg Hu Hne Hp).
      rewrite (handle_line_authenticated c line (set_buffer b h) cmd arg
                 Hu Hne Hp).
      unfold authenticated_body. simpl username.
      repeat match goal with
             | |- context [if ?t then _ else _] => destruct t
             end;
        try (rewrite !lift_eq; reflexivity); reflexivity.
    + rewrite (handle_line_unauthenticated c line h cmd arg Hu Hne Hp).
      rewrite (handle_line_unauthenticated c line (set_buffer b h) cmd arg
                 Hu Hne Hp).
      destruct (str_eqb cmd (T "LOGIN")); [|rewrite !lift_eq; reflexivity].
      apply login_body_set_buffer.
Qed.

Lemma agree_refl (A : Type) (x : res A * handler) : agree x x.
Proof. unfold agree. auto. Qed.

Lemma contains_app_left (b t : str) :
  contains LF b = true ->
  contains LF (b ++ t) = true
  /\ nth 0 (split_once LF (b ++ t)) [] = nth 0 (split_once LF b) []
  /\ nth 1 (split_once LF (b ++ t)) [] = nth 1 (split_once LF b) [] ++ t.
Proof.
  intros H. destruct (contains_split _ _ H) as (a & r & -> & Ha).
  rewrite <- app_assoc. simpl app.
  rewrite !(split_once_at _ _ _ Ha). simpl nth.
  repeat split. apply contains_In. apply in_or_app. right. left. reflexivity.
Qed.

(** Running the inner loop, appending text to what it left and running it
    again comes to the same as running it once on everything. *)
Lemma drain_app (c : sock) (t : str) (n : nat) :
  forall h : handler,
    (length (buffer h) < n)%nat ->
    agree
      match drain n c h with
      | (Ok _, h1) =>
          drain (S (length (buffer h1 ++ t))) c
            (set_buffer (buffer h1 ++ t) h1)
      | (Raise e, h1) => (Raise e, h1)
      end
      (drain (S (length (buffer h ++ t))) c (set_buffer (buffer h ++ t) h)).
Proof.
  induction n as [|n IH]; intros h Hn; [lia|].
  rewrite (drain_S c n h).
  destruct (contains LF (buffer h)) eqn:Hc; [|apply agree_refl].
  destruct (contains_app_left (buffer h) t Hc) as (Hc' & H0 & H1).
  rewrite (drain_S c _ (set_buffer (buffer h ++ t) h)).
  simpl buffer. rewrite Hc', H0, H1.
  pose proof (split_once_rest_shorter _ Hc) as Hlt.
  set (line := nth 0 (split_once LF (buffer h)) []) in *.
  set (r := nth 1 (split_once LF (buffer h)) []) in *.
  change (set_buffer (r ++ t) (set_buffer (buffer h ++ t) h))
    with (set_buffer (r ++ t) h).
  rewrite (handle_line_set_buffer c line r h).
  rewrite (handle_line_set_buffer c line (r ++ t) h).
  destruct (handle_line c line h) as [[u|e] h0]; simpl fst; simpl snd.
  - pose proof (IH (set_buffer r h0)) as H. simpl buffer in H.
    change (set_buffer (r ++ t) (set_buffer r h0))
      with (set_buffer (r ++ t) h0) in H.
    rewrite (drain_fuel_enough c (length (buffer h ++ t))
               (S (length (r ++ t))) (set_buffer (r ++ t) h0)).
    + apply H. lia.
    + simpl. rewrite !length_app. lia.
    + simpl. lia.
  - unfold agree. simpl. repeat split; auto. discriminate.
Qed.

Lemma agree_handlers (A : Type) (r1 r2 : res A) (h1 h2 : handler) (a : A) :
  agree (r1, h1) (r2, h2) -> r1 = Ok a -> r2 = Ok a /\ h1 = h2.
Proof.
  intros (H1 & H2 & H3 & H4) E. simpl in *.
  split; [congruence|].
  specialize (H4 a E). destruct h1, h2; simpl in *. congruence.
Qed.

Lemma agree_raise (A B : Type) (e1 e2 : exn) (h1 h2 : handler) :
  @agree A (Raise e1, h1) (Raise e2, h2) ->
  @agree B (Raise e1, h1) (Raise e2, h2).
Proof.
  intros (H1 & H2 & H3 & _). simpl in *. injection H1 as ->.
  unfold agree. simpl. repeat split; auto. discriminate.
Qed.

(** The outer loop on two chunks and on the two in one. *)
Lemma recv_loop_merge (c : sock) (d1 d2 : bytes) (t1 t2 : str)
    (rest : list recv_result) (h : handler) :
  decode d1 = Some t1 -> decode d2 = Some t2 ->
  d1 <> [] -> d2 <> [] ->
  agree (recv_loop c (Data d1 :: Data d2 :: rest) h)
        (recv_loop c (Data (d1 ++ d2) :: rest) h).
Proof.
  intros H1 H2 N1 N2.
  rewrite (recv_loop_cons c d1), (recv_loop_cons c (d1 ++ d2)).
  rewrite (length_nonzero _ _ N1), H1, (decode_app _ _ _ _ H1 H2).
  assert (N : d1 ++ d2 <> []) by (destruct d1; [contradiction|discriminate]).
  rewrite (length_nonzero _ _ N).
  pose proof (drain_app c t2 (S (length (buffer h ++ t1)))
                (set_buffer (buffer h ++ t1) h)) as Hd.
  simpl buffer in Hd.
  change (set_buffer ((buffer h ++ t1) ++ t2)
            (set_buffer (buffer h ++ t1) h))
    with (set_buffer ((buffer h ++ t1) ++ t2) h) in Hd.
  rewrite <- app_assoc in Hd.
  specialize (Hd (Nat.lt_succ_diag_r _)).
  destruct (drain (S (length (buffer h ++ t1))) c
              (set_buffer (buffer h ++ t1) h)) as [[u|e] h1].
  - rewrite (recv_loop_cons c d2), (length_nonzero _ _ N2), H2.
    destruct (drain (S (length (buffer h1 ++ t2))) c
                (set_buffer (buffer h1 ++ t2) h1)) as [[u2|e2] h2];
      destruct (drain (S (length (buffer h ++ t1 ++ t2))) c
                  (set_buffer (buffer h ++ t1 ++ t2) h)) as [[u3|e3] h3].
    + destruct (agree_handlers _ _ _ _ _ u2 Hd eq_refl) as [_ ->].
      apply agree_refl.
    + destruct Hd as (Hd & _). discriminate.
    + destruct Hd as (Hd & _). discriminate.
    + apply (agree_raise unit). exact Hd.
  - destruct (drain (S (length (buffer h ++ t1 ++ t2))) c
                (set_buffer (buffer h ++ t1 ++ t2) h)) as [[u3|e3] h3].
    + destruct Hd as (Hd & _). discriminate.
    + apply (agree_raise unit). exact Hd.
Qed.

Lemma recv_loop_app (c : sock) (pre xs : list recv_result) :
  forall h : handler,
    recv_loop c (pre ++ xs) h
    = match recv_loop c pre h with
      | (Ok false, h') => recv_loop c xs h'
      | other => other
      end.
Proof.
  induction pre as [|[d|] pre IH]; intros h.
  - reflexivity.
  - change ((Data d :: pre) ++ xs) with (Data d :: (pre ++ xs)).
    rewrite !recv_loop_cons.
    destruct (length d =? 0)%nat; [reflexivity|].
    destruct (decode d) as [text|]; [|apply IH].
    destruct (drain _ c (set_buffer (buffer h ++ text) h)) as [[u|e] h1];
      [apply IH | reflexivity].
  - reflexivity.
Qed.

Lemma finally_clause_set_buffer (c : sock) (b : str) (h : handler) :
  finally_clause c (set_buffer b h)
  = (fst (finally_clause c h), set_buffer b (snd (finally_clause c h))).
Proof.
  rewrite !finally_clause_unfold. simpl username.
  destruct (truthy (username h)).
  - rewrite !lift_eq. simpl srv. simpl username. simpl buffer.
    destruct (fst (disconnect_user (name_of (username h)) (srv h)));
      [|reflexivity].
    rewrite ?lift_eq. reflexivity.
  - rewrite !lift_eq. reflexivity.
Qed.

(** X14.  Where a stream is cut between two chunks does not matter as long
    as each of the two decodes on its own: a run that receives them one
    after the other and a run that receives them as one chunk answer alike,
    leave the same registry and the same calls, and end in the same
    state. *)
Theorem chunks_that_decode_may_be_merged (c : sock)
    (pre rest : list recv_result) (d1 d2 : bytes) (t1 t2 : str) (w : world) :
  decode d1 = Some t1 -> decode d2 = Some t2 ->
  d1 <> [] -> d2 <> [] ->
  let x := handle_client c (pre ++ Data d1 :: Data d2 :: rest) w in
  let y := handle_client c (pre ++ Data (d1 ++ d2) :: rest) w in
  fst x = fst y
  /\ srv (snd x) = srv (snd y)
  /\ username (snd x) = username (snd y)
  /\ (fst x = Ok false -> buffer (snd x) = buffer (snd y)).
Proof.
  intros H1 H2 N1 N2. cbv zeta. rewrite !handle_client_unfold. cbv zeta.
  destruct (send_ok (log w) c welcome); [|auto].
  rewrite !recv_loop_app.
  destruct (recv_loop c pre _) as [[[|]|e] h']; auto.
  pose proof (recv_loop_merge c d1 d2 t1 t2 rest h' H1 H2 N1 N2) as Ha.
  destruct (recv_loop c (Data d1 :: Data d2 :: rest) h') as [r1 h1].
  destruct (recv_loop c (Data (d1 ++ d2) :: rest) h') as [r2 h2].
  destruct Ha as (Hr & Hs & Hu & Hb). simpl in Hr, Hs, Hu, Hb. subst r2.
  assert (E : h2 = set_buffer (buffer h2) h1).
  { destruct h1, h2; simpl in *. subst. reflexivity. }
  destruct r1 as [[|]|e].
  - rewrite E, finally_clause_set_buffer.
    destruct (finally_clause c h1) as [[u|e'] h3]; simpl;
      repeat split; auto; discriminate.
  - simpl. repeat split; auto. intros _. apply (Hb false). reflexivity.
  - rewrite E, finally_clause_set_buffer.
    destruct (finally_clause c h1) as [[u|e'] h3]; simpl;
      repeat split; auto; discriminate.
Qed.

(** ** The receiving side of the test client *)

Lemma unlines_cons (a : str) (l : list str) :
  unlines (a :: l) = a ++ LF :: unlines l.
Proof. unfold unlines. simpl. rewrite <- app_assoc. reflexivity. Qed.

Lemma unlines_app (l1 l2 : list str) :
  unlines (l1 ++ l2) = unlines l1 ++ unlines l2.
Proof. unfold unlines. apply flat_map_app. Qed.

(** The inner loop of [receive_messages] takes the complete lines off the
    front of the buffer, in order, and keeps the rest. *)
Lemma collect_lines_spec (n : nat) :
  forall (b : str) (m : list str),
    (length b < n)%nat ->
    exists new b',
      collect_lines n b m = (b', m ++ new)
      /\ unlines new ++ b' = b
      /\ contains LF b' = false
      /\ Forall (fun l => contains LF l = false) new.
Proof.
  induction n as [|n IH]; intros b m Hn; [lia|].
  cbn [collect_lines].
  destruct (contains LF b) eqn:Hc.
  - destruct (contains_split _ _ Hc) as (a & r & -> & Ha).
    rewrite (split_once_at _ _ _ Ha). simpl nth.
    destruct (IH r (m ++ [a])) as (new & b' & E & Ht & Hb & Hl).
    { rewrite length_app in Hn. simpl in Hn. lia. }
    exists (a :: new), b'. split; [|repeat split; auto].
    + etransitivity; [exact E|]. rewrite <- app_assoc. reflexivity.
    + rewrite unlines_cons, <- app_assoc. simpl app. rewrite Ht. reflexivity.
  - exists [], b. rewrite app_nil_r. repeat split; auto.
Qed.

Lemma receive_loop_spec (chunks : list bytes) (texts : list str) :
  Forall2 (fun d t => d <> [] /\ decode d = Some t) chunks texts ->
  forall (b : str) (m : list str),
    contains LF b = false ->
    exists new b',
      receive_loop (map Data chunks) b m = (false, b', m ++ new)
      /\ unlines new ++ b' = b ++ concat texts
      /\ contains LF b' = false
      /\ Forall (fun l => contains LF l = false) new.
Proof.
  induction 1 as [|d t chunks texts [Hd Ht] _ IH]; intros b m Hb.
  - exists [], b. simpl. rewrite !app_nil_r. auto.
  - cbn [map receive_loop]. rewrite (length_nonzero _ _ Hd), Ht.
    destruct (collect_lines_spec (S (length (b ++ t))) (b ++ t) m
                (Nat.lt_succ_diag_r _)) as (new1 & b1 & E1 & T1 & B1 & L1).
    rewrite E1.
    destruct (IH b1 (m ++ new1) B1) as (new2 & b2 & E2 & T2 & B2 & L2).
    exists (new1 ++ new2), b2. rewrite E2, <- app_assoc.
    repeat split; auto.
    + rewrite unlines_app, <- app_assoc, T2, app_assoc, T1.
      simpl concat. rewrite <- app_assoc. reflexivity.
    + apply Forall_app. split; assumption.
Qed.

(** A text has one reading only as lines followed by an unfinished line. *)
Lemma unlines_unique (l1 l2 : list str) (b1 b2 : str) :
  Forall (fun l => contains LF l = false) l1 ->
  Forall (fun l => contains LF l = false) l2 ->
  contains LF b1 = false -> contains LF b2 = false ->
  unlines l1 ++ b1 = unlines l2 ++ b2 ->
  l1 = l2 /\ b1 = b2.
Proof.
  revert l2; induction l1 as [|x l1 IH]; intros [|y l2] H1 H2 B1 B2 E.
  - simpl in E. auto.
  - exfalso. rewrite unlines_cons in E. simpl in E. rewrite <- app_assoc in E.
    apply contains_false in B1. apply B1. rewrite E.
    apply in_or_app. right. left. reflexivity.
  - exfalso. rewrite unlines_cons in E. simpl in E. rewrite <- app_assoc in E.
    apply contains_false in B2. apply B2. rewrite <- E.
    apply in_or_app. right. left. reflexivity.
  - inversion H1 as [|? ? Hx H1']; subst.
    inversion H2 as [|? ? Hy H2']; subst.
    rewrite !unlines_cons, <- !app_assoc in E. simpl app in E.
    apply first_sep_unique in E;
      [|apply contains_false; assumption|apply contains_false; assumption].
    destruct E as [-> E].
    destruct (IH l2 H1' H2' B1 B2 E) as [-> ->]. auto.
Qed.

(** X15.  [receive_messages] loses nothing and invents nothing: fed chunks
    that each decode, it appends to [messages] lines without a newline, in
    order, and these lines, each with its newline, followed by the buffer it
    keeps, are exactly the text received. *)
Theorem receive_messages_keeps_the_text (chunks : list bytes)
    (texts : list str) (messages : list str) :
  Forall2 (fun d t => d <> [] /\ decode d = Some t) chunks texts ->
  exists new b,
    receive_messages (map Data chunks) messages = (false, b, messages ++ new)
    /\ unlines new ++ b = concat texts
    /\ contains LF b = false
    /\ Forall (fun l => contains LF l = false) new.
Proof.
  intros H. unfold receive_messages.
  destruct (receive_loop_spec chunks texts H [] messages eq_refl)
    as (new & b & E & Ht & Hb & Hl).
  exists new, b. auto.
Qed.

(** X16.  The lines [receive_messages] collects depend on the text
    received, not on how it was cut into chunks, as long as every chunk
    decodes on its own. *)
Theorem receive_messages_ignores_cuts (chunks1 chunks2 : list bytes)
    (texts1 texts2 : list str) (messages : list str) :
  Forall2 (fun d t => d <> [] /\ decode d = Some t) chunks1 texts1 ->
  Forall2 (fun d t => d <> [] /\ decode d = Some t) chunks2 texts2 ->
  concat texts1 = concat texts2 ->
  receive_messages (map Data chunks1) messages
  = receive_messages (map Data chunks2) messages.
Proof.
  intros H1 H2 E. unfold receive_messages.
  destruct (receive_loop_spec chunks1 texts1 H1 [] messages eq_refl)
    as (n1 & b1 & E1 & T1 & B1 & L1).
  destruct (receive_loop_spec chunks2 texts2 H2 [] messages eq_refl)
    as (n2 & b2 & E2 & T2 & B2 & L2).
  rewrite E1, E2. simpl in T1, T2.
  destruct (unlines_unique n1 n2 b1 b2 L1 L2 B1 B2) as [-> ->];
    [congruence | reflexivity].
Qed.

(** ** Trimming *)

Lemma lstrip_head (s : str) (c : Z) (r : str) :
  lstrip s = c :: r -> is_space c = false.
Proof.
  induction s as [|x s IH]; simpl; [discriminate|].
  destruct (is_space x) eqn:E; [exact IH|].
  intros H; injection H as <- _. exact E.
Qed.

Lemma lstrip_keep (c : Z) (r : str) :
  is_space c = false -> lstrip (c :: r) = c :: r.
Proof. intros H. simpl. rewrite H. reflexivity. Qed.

Lemma rstrip_keep (s : str) (c : Z) :
  is_space c = false -> rstrip (s ++ [c]) = s ++ [c].
Proof.
  intros H. unfold rstrip. rewrite rev_app_distr.
  change (rev [c] ++ rev s) with (c :: rev s).
  rewrite (lstrip_keep _ _ H). simpl rev.
  rewrite rev_involutive. reflexivity.
Qed.

(** What is left after trimming is empty or ends with a character that is
    not white space. *)
Lemma strip_ends (s : str) :
  strip s = [] \/ exists p c, strip s = p ++ [c] /\ is_space c = false.
Proof.
  unfold strip, rstrip.
  destruct (lstrip (rev (lstrip s))) as [|c r] eqn:E; [left; reflexivity|].
  right. exists (rev r), c. split; [reflexivity|].
  apply (lstrip_head _ _ _ E).
Qed.

Lemma lstrip_snoc (p : str) (c : Z) :
  is_space c = false -> exists q, lstrip (p ++ [c]) = q ++ [c].
Proof.
  intros H. induction p as [|x p IH]; simpl.
  - rewrite H. exists []. reflexivity.
  - destruct (is_space x); [exact IH|]. exists (x :: p). reflexivity.
Qed.

(** X17.  The argument of a command, when there is one, never trims to the
    empty string: the line was trimmed before it was split, so the argument
    ends with a character that is not white space.  The test
    [len(new_username) < 1] of LOGIN therefore never decides anything: an
    empty name is refused by [not arg] already. *)
Theorem argument_never_trims_to_nothing (line cmd arg : str) :
  parse (strip line) = (cmd, arg) ->
  arg <> [] ->
  strip arg <> []
  /\ strip arg = lstrip arg
  /\ (length (strip arg) <? 1)%nat = false.
Proof.
  unfold parse. intros Hp Ha.
  assert (Hs : strip arg <> [] /\ strip arg = lstrip arg).
  { destruct (contains SP (strip line)) eqn:Hc.
    - destruct (contains_split _ _ Hc) as (a & r & E & Hna).
      rewrite E, (split_once_at _ _ _ Hna) in Hp. simpl in Hp.
      injection Hp as _ <-.
      destruct (exists_last Ha) as (r' & c1 & ->).
      destruct (strip_ends line) as [H|(p & c0 & H & Hc0)].
      + rewrite H in E. destruct a; discriminate.
      + rewrite H in E.
        change (a ++ SP :: r' ++ [c1]) with (a ++ (SP :: r') ++ [c1]) in E.
        rewrite app_assoc in E. apply app_inj_tail in E.
        destruct E as [_ <-].
        destruct (lstrip_snoc r' c0 Hc0) as (q & Hq).
        unfold strip. rewrite Hq, (rstrip_keep _ _ Hc0).
        split; [destruct q; discriminate | reflexivity].
    - rewrite (split_once_absent _ _ Hc) in Hp. simpl in Hp.
      injection Hp as _ <-. contradiction. }
  destruct Hs as [H1 H2]. repeat split; auto.
  destruct (strip arg); [contradiction | reflexivity].
Qed.

(** ** The bytes of a line *)

Lemma byte_val_of (z : Z) : 0 <= z < 256 -> byte_val (byte_of z) = z.
Proof.
  intros H. unfold byte_val, byte_of.
  destruct (Byte.of_N (Z.to_N z)) as [b|] eqn:E.
  - apply Byte.to_of_N in E. rewrite E. lia.
  - apply Byte.of_N_None_iff in E. lia.
Qed.

Lemma byte_of_not_lf (z : Z) : 0 <= z < 256 -> z <> 10 -> byte_of z <> x0a.
Proof.
  intros H Hz E. apply Hz. rewrite <- (byte_val_of z H), E. reflexivity.
Qed.

Lemma bytes_of_not_lf (zs : list Z) :
  Forall (fun z => 0 <= z < 256 /\ z <> 10) zs -> ~ In x0a (map byte_of zs).
Proof.
  induction 1 as [|z zs [Hz Hn] _ IH]; simpl; [tauto|].
  intros [H|H]; [|tauto]. revert H. apply byte_of_not_lf; assumption.
Qed.

(** The encoding of a code point other than the newline has no byte
    [0x0a]. *)
Lemma encode_cp_no_lf (c : Z) (p : bytes) :
  encode_cp c = Some p -> c <> LF -> ~ In x0a p.
Proof.
  unfold encode_cp, LF.
  destruct (Z.ltb_spec c 0); [discriminate|].
  destruct (Z.ltb_spec c 0x80).
  { intros E Hc; injection E as <-.
    apply (bytes_of_not_lf [c]). repeat constructor; lia. }
  destruct (Z.ltb_spec c 0x800).
  { intros E _; injection E as <-.
    apply (bytes_of_not_lf [0xC0 + c / 64; 0x80 + c mod 64]).
    repeat constructor; divmod. }
  destruct (Z.ltb_spec c 0x10000).
  { destruct ((0xD800 <=? c) && (c <? 0xE000)); [discriminate|].
    intros E _; injection E as <-.
    apply (bytes_of_not_lf [0xE0 + c / 4096; 0x80 + (c / 64) mod 64;
                            0x80 + c mod 64]).
    repeat constructor; divmod. }
  destruct (Z.ltb_spec c 0x110000); [|discriminate].
  intros E _; injection E as <-.
  apply (bytes_of_not_lf [0xF0 + c / 262144; 0x80 + (c / 4096) mod 64;
                          0x80 + (c / 64) mod 64; 0x80 + c mod 64]).
  repeat constructor; divmod.
Qed.

Lemma encode_no_lf (s : str) (b : bytes) :
  encode s = Some b -> ~ In LF s -> ~ In x0a b.
Proof.
  revert b; induction s as [|c r IH]; intros b E Hs.
  - injection E as <-. intros [].
  - cbn [encode] in E.
    destruct (encode_cp c) as [p|] eqn:Ep; [|discriminate].
    destruct (encode r) as [br|] eqn:Er; [|discriminate].
    injection E as <-. intros H. apply in_app_or in H. destruct H as [H|H].
    + apply (encode_cp_no_lf c p Ep); [|exact H].
      intros ->. apply Hs. left. reflexivity.
    + apply (IH br eq_refl); [|exact H].
      intros H'. apply Hs. right. exact H'.
Qed.

Lemma encode_app_inv (s1 s2 : str) (b : bytes) :
  encode (s1 ++ s2) = Some b ->
  exists b1 b2, encode s1 = Some b1 /\ encode s2 = Some b2 /\ b = b1 ++ b2.
Proof.
  revert b; induction s1 as [|c r IH]; intros b E.
  - exists [], b. auto.
  - cbn [encode app] in *.
    destruct (encode_cp c) as [p|]; [|discriminate].
    destruct (encode (r ++ s2)) as [br|] eqn:Er; [|discriminate].
    injection E as <-. destruct (IH br eq_refl) as (b1 & b2 & -> & -> & ->).
    exists (p ++ b1), b2. rewrite app_assoc. auto.
Qed.

Lemma some_eq (A : Type) (a b : A) : Some a = Some b -> a = b.
Proof. congruence. Qed.

(** The first character of an encoding is the code point encoded. *)
Lemma encode_cp_decode_char (c : Z) (p r : bytes) :
  encode_cp c = Some p -> decode_char (p ++ r) = Some (c, r).
Proof.
  unfold encode_cp.
  destruct (Z.ltb_spec c 0); [discriminate|].
  destruct (Z.ltb_spec c 0x80).
  { intros E; apply some_eq in E; subst p. cbn [app decode_char]. cbv zeta.
    rewrite byte_val_of by lia.
    destruct (Z.ltb_spec c 0x80); [reflexivity | lia]. }
  destruct (Z.ltb_spec c 0x800).
  { intros E; apply some_eq in E; subst p. cbn [app decode_char]. cbv zeta.
    rewrite !byte_val_of by divmod. unfold is_cont.
    destruct (Z.ltb_spec (0xC0 + c / 64) 0x80); [divmod|].
    destruct (Z.ltb_spec (0xC0 + c / 64) 0xC2); [divmod|].
    destruct (Z.ltb_spec (0xC0 + c / 64) 0xE0); [|divmod].
    destruct (Z.leb_spec 0x80 (0x80 + c mod 64)); [|divmod].
    destruct (Z.ltb_spec (0x80 + c mod 64) 0xC0); [|divmod].
    cbn [andb]. do 2 f_equal. divmod. }
  destruct (Z.ltb_spec c 0x10000).
  { destruct (Z.leb_spec 0xD800 c), (Z.ltb_spec c 0xE000); cbn [andb];
      try discriminate;
      intros E; apply some_eq in E; subst p; cbn [app decode_char]; cbv zeta;
      rewrite !byte_val_of by divmod; unfold is_cont;
      (destruct (Z.ltb_spec (0xE0 + c / 4096) 0x80); [divmod|]);
      (destruct (Z.ltb_spec (0xE0 + c / 4096) 0xC2); [divmod|]);
      (destruct (Z.ltb_spec (0xE0 + c / 4096) 0xE0); [divmod|]);
      (destruct (Z.ltb_spec (0xE0 + c / 4096) 0xF0); [|divmod]);
      destruct (Z.eqb_spec (0xE0 + c / 4096) 0xE0),
               (Z.eqb_spec (0xE0 + c / 4096) 0xED);
      try (exfalso; divmod);
      match goal with
      | |- (if (?a <=? ?x) && (?y <? ?b) && _ then _ else _) = _ =>
          destruct (Z.leb_spec a x); [|exfalso; divmod];
          destruct (Z.ltb_spec y b); [|exfalso; divmod]
      end;
      (destruct (Z.leb_spec 0x80 (0x80 + c mod 64)); [|exfalso; divmod]);
      (destruct (Z.ltb_spec (0x80 + c mod 64) 0xC0); [|exfalso; divmod]);
      cbn [andb]; do 2 f_equal; divmod. }
  destruct (Z.ltb_spec c 0x110000); [|discriminate].
  intros E; apply some_eq in E; subst p. cbn [app decode_char]. cbv zeta.
  rewrite !byte_val_of by divmod. unfold is_cont.
  destruct (Z.ltb_spec (0xF0 + c / 262144) 0x80); [divmod|].
  destruct (Z.ltb_spec (0xF0 + c / 262144) 0xC2); [divmod|].
  destruct (Z.ltb_spec (0xF0 + c / 262144) 0xE0); [divmod|].
  destruct (Z.ltb_spec (0xF0 + c / 262144) 0xF0); [divmod|].
  destruct (Z.ltb_spec (0xF0 + c / 262144) 0xF5); [|divmod].
  destruct (Z.eqb_spec (0xF0 + c / 262144) 0xF0),
           (Z.eqb_spec (0xF0 + c / 262144) 0xF4);
    try (exfalso; divmod);
    match goal with
    | |- (if (?a <=? ?x) && (?y <? ?b) && _ && _ then _ else _) = _ =>
        destruct (Z.leb_spec a x); [|exfalso; divmod];
        destruct (Z.ltb_spec y b); [|exfalso; divmod]
    end;
    (destruct (Z.leb_spec 0x80 (0x80 + (c / 64) mod 64));
       [|exfalso; divmod]);
    (destruct (Z.ltb_spec (0x80 + (c / 64) mod 64) 0xC0);
       [|exfalso; divmod]);
    (destruct (Z.leb_spec 0x80 (0x80 + c mod 64)); [|exfalso; divmod]);
    (destruct (Z.ltb_spec (0x80 + c mod 64) 0xC0); [|exfalso; divmod]);
    cbn [andb]; do 2 f_equal; divmod.
Qed.

Lemma encode_cp_nonempty (c : Z) (p : bytes) : encode_cp c = Some p -> p <> [].
Proof.
  unfold encode_cp.
  repeat match goal with
         | |- context [if ?b then _ else _] => destruct b
         end;
    intros E; try discriminate; injection E as <-; discriminate.
Qed.

Lemma encode_decode (s : str) (bs : bytes) :
  encode s = Some bs -> decode bs = Some s.
Proof.
  revert bs; induction s as [|c r IH]; intros bs E.
  - injection E as <-. reflexivity.
  - cbn [encode] in E.
    destruct (encode_cp c) as [p|] eqn:Ep; [|discriminate].
    destruct (encode r) as [br|] eqn:Er; [|discriminate].
    injection E as <-.
    pose proof (encode_cp_nonempty c p Ep) as Hp.
    destruct p as [|b0 p']; [contradiction|].
    change ((b0 :: p') ++ br) with (b0 :: (p' ++ br)).
    rewrite decode_cons.
    change (b0 :: (p' ++ br)) with ((b0 :: p') ++ br).
    rewrite (encode_cp_decode_char c _ br Ep), (IH br eq_refl).
    reflexivity.
Qed.

(** X13.  The strict UTF-8 codec the server reads and writes with is a
    round trip in both directions: bytes decode to a text exactly when that
    text encodes to those bytes.  So text that came in over a socket can
    always be sent out again, as the bytes that came in, and whatever the
    server sends as text decodes at the client. *)
Theorem utf8_round_trip (bs : bytes) (s : str) :
  decode bs = Some s <-> encode s = Some bs.
Proof. split; [apply decode_encode | apply encode_decode]. Qed.

(** The bytes of a line end with the only [0x0a] they hold, and decode to
    the line. *)
Lemma line_bytes_facts (data : bytes) :
  line_bytes data ->
  (exists body, data = body ++ [x0a] /\ ~ In x0a body)
  /\ (exists text, ~ In LF text /\ decode data = Some (text ++ [LF])).
Proof.
  intros (text & Ht & E). split.
  - destruct (encode_app_inv _ _ _ E) as (b1 & b2 & E1 & E2 & ->).
    injection E2 as <-. exists b1. split; [reflexivity|].
    apply (encode_no_lf text b1 E1 Ht).
  - exists text. split; [exact Ht|]. apply encode_decode. exact E.
Qed.

(** ** Everything sent is one line *)

Lemma In_lstrip (x : Z) (s : str) : In x (lstrip s) -> In x s.
Proof.
  induction s as [|c r IH]; simpl; [auto|].
  destruct (is_space c); [intros H; right; auto | auto].
Qed.

Lemma In_strip (x : Z) (s : str) : In x (strip s) -> In x s.
Proof.
  unfold strip, rstrip. intros H. apply in_rev in H. apply In_lstrip in H.
  apply in_rev in H. apply In_lstrip in H. exact H.
Qed.

Lemma In_split_once (x sep : Z) (s : str) (i : nat) :
  In x (nth i (split_once sep s) []) -> In x s.
Proof.
  destruct (contains sep s) eqn:Hc.
  - destruct (contains_split _ _ Hc) as (a & r & -> & Ha).
    rewrite (split_once_at _ _ _ Ha).
    destruct i as [|[|i]]; simpl; intros H.
    + apply in_or_app. left. exact H.
    + apply in_or_app. right. right. exact H.
    + destruct i; contradiction.
  - rewrite (split_once_absent _ _ Hc).
    destruct i as [|i]; simpl; [auto|]. destruct i; contradiction.
Qed.

Lemma In_parse_arg (x : Z) (command cmd arg : str) :
  parse command = (cmd, arg) -> In x arg -> In x command.
Proof.
  unfold parse. intros E; injection E as _ <-.
  destruct (1 <? length (split_once SP command))%nat; [|contradiction].
  apply In_split_once.
Qed.

Lemma In_join (x : Z) (sep : str) (l : list str) :
  In x (join sep l) -> In x sep \/ exists n, In n l /\ In x n.
Proof.
  induction l as [|a [|b l] IH]; intros H.
  - contradiction.
  - right. exists a. split; [left; reflexivity | exact H].
  - rewrite join_cons2 in H. apply in_app_or in H. destruct H as [H|H].
    + right. exists a. split; [left; reflexivity | exact H].
    + apply in_app_or in H. destruct H as [H|H]; [left; exact H|].
      destruct (IH H) as [H'|(n & Hn & Hx)]; [left; exact H'|].
      right. exists n. split; [right; exact Hn | exact Hx].
Qed.

Lemma adds_lines_refl (w : world) : adds_lines w w.
Proof. exists []. rewrite app_nil_r. split; [reflexivity | constructor]. Qed.

Lemma adds_lines_trans (w1 w2 w3 : world) :
  adds_lines w1 w2 -> adds_lines w2 w3 -> adds_lines w1 w3.
Proof.
  intros (e1 & H1 & L1) (e2 & H2 & L2). exists (e1 ++ e2). split.
  - rewrite H2, H1, app_assoc. reflexivity.
  - apply Forall_app. split; assumption.
Qed.

Lemma sendall_adds_lines (c : sock) (data : bytes) (w : world) :
  line_bytes data -> adds_lines w (snd (sendall c data w)).
Proof.
  intros H. unfold sendall, add_event, adds_lines. simpl.
  eexists. split; [reflexivity|]. constructor; [exact H | constructor].
Qed.

Lemma send_text_adds_lines (c : sock) (text : str) (w : world) :
  ~ In LF text -> adds_lines w (snd (send_text c (text ++ [LF]) w)).
Proof.
  intros H. unfold send_text.
  destruct (encode (text ++ [LF])) as [data|] eqn:E.
  - apply sendall_adds_lines. exists text. auto.
  - apply adds_lines_refl.
Qed.

Lemma sends_are_lines (data : bytes) (tg : dict) (oks : list bool) :
  line_bytes data -> sends_lines (sends data tg oks).
Proof.
  intros H. unfold sends_lines, sends. apply Forall_forall.
  intros e He. apply in_map_iff in He. destruct He as (p & <- & _). exact H.
Qed.

Lemma broadcast_adds_lines (message : str) (ex : option str) (w : world) :
  ~ In LF message -> adds_lines w (snd (broadcast message ex w)).
Proof.
  intros Hm. unfold broadcast, bind at 1 2, gets.
  destruct (encode (message ++ [LF])) as [data|] eqn:Henc.
  - rewrite (broadcast_loop_eq message ex data Henc). cbv zeta.
    unfold adds_lines. rewrite evict_log. simpl.
    eexists. split; [reflexivity|]. apply sends_are_lines.
    exists message. auto.
  - rewrite (broadcast_loop_unencodable message ex Henc).
    unfold adds_lines. rewrite evict_log. exists []. rewrite app_nil_r.
    split; [reflexivity | constructor].
Qed.

Ltac no_lf :=
  repeat match goal with
         | H : In _ (_ ++ _) |- _ => apply in_app_or in H; destruct H as [H|H]
         | H : In _ (T _) |- _ => vm_compute in H; intuition discriminate
         | H : In LF [SP] |- _ => destruct H as [H|[]]; discriminate H
         | H : In _ (_ :: _) |- _ => destruct H as [H|H]; [discriminate H|]
         end;
  try contradiction.

Lemma disconnect_user_adds_lines (name : str) (w : world) :
  ~ In LF name -> adds_lines w (snd (disconnect_user name w)).
Proof.
  intros Hn.
  assert (Hm : ~ In LF (T "INFO " ++ name ++ T " disconnected"))
    by (intros H; no_lf).
  unfold disconnect_user, bind at 1 2, gets.
  destruct (dict_mem name (clients w)).
  - destruct (dict_del name (clients w)) as [d'|].
    + unfold modify.
      apply (adds_lines_trans w (set_clients d' w));
        [exists []; simpl; rewrite app_nil_r; split;
           [reflexivity | constructor]|].
      apply broadcast_adds_lines. exact Hm.
    + apply adds_lines_refl.
  - unfold ret. apply broadcast_adds_lines. exact Hm.
Qed.

Lemma literal_line (s : string) :
  ~ In LF (T s) -> encode (T s ++ [LF]) = Some (Bn s) -> line_bytes (Bn s).
Proof. intros H E. exists (T s). auto. Qed.

Ltac literal :=
  apply literal_line;
  [let H := fresh in intro H; vm_compute in H; intuition discriminate
  | vm_compute; reflexivity].

Lemma handle_dm_adds_lines (sender args : str) (c : sock) (w : world) :
  ~ In LF sender -> ~ In LF args ->
  adds_lines w (snd (handle_dm sender args c w)).
Proof.
  intros Hs Ha. unfold handle_dm.
  destruct (length (split_once SP args) <? 2)%nat.
  - apply sendall_adds_lines. literal.
  - unfold bind, gets. destruct (dict_get _ (clients w)) as [ts|].
    + unfold catch.
      assert (Hm : ~ In LF (T "DM " ++ sender ++ [SP]
                            ++ nth 1 (split_once SP args) [])).
      { intros H. no_lf. apply In_split_once in H. contradiction. }
      pose proof (send_text_adds_lines ts _ w Hm) as H.
      rewrite <- !app_assoc in H.
      destruct (send_text ts _ w) as [[|] w']; simpl in *; exact H.
    + apply sendall_adds_lines. literal.
Qed.

Lemma tidy_lift (A : Type) (m : M world A) (h : handler) :
  tidy h ->
  incl (clients (snd (m (srv h)))) (clients (srv h)) ->
  tidy (snd (lift m h)).
Proof.
  intros [Hn Hu] Hi. rewrite lift_eq. split; [|exact Hu].
  unfold no_newline_names in *. simpl. rewrite Forall_forall in *.
  intros k Hk. apply Hn. unfold keys in *. apply in_map_iff in Hk.
  destruct Hk as (kv & <- & Hk). apply in_map. apply Hi. exact Hk.
Qed.

Lemma incl_of_eq (A : Type) (l l' : list A) : l = l' -> incl l l'.
Proof. intros ->. apply incl_refl. Qed.

Lemma login_body_cases (c : sock) (arg : str) (h : handler) :
  (exists s : string,
     (s = "ERR invalid-username"%string \/ s = "ERR username-taken"%string)
     /\ login_body c arg h = lift (sendall c (Bn s)) h)
  \/ login_body c arg h
     = (if send_ok (log (srv h)) c (Bn "OK") then Ok tt else Raise OSError,
        registered h c (strip arg)).
Proof.
  destruct (length arg =? 0)%nat eqn:Ha.
  { left. eexists. split; [left; reflexivity|].
    unfold login_body. rewrite Ha. reflexivity. }
  destruct (contains SP (strip arg)) eqn:Hsp.
  { left. eexists. split; [left; reflexivity|].
    unfold login_body. rewrite Ha, Hsp. reflexivity. }
  destruct (strip arg) as [|y s] eqn:Hs.
  { left. eexists. split; [left; reflexivity|].
    unfold login_body. rewrite Ha, Hs. reflexivity. }
  assert (Harg : arg <> []) by (intros ->; discriminate).
  assert (Hn : strip arg <> []) by (rewrite Hs; discriminate).
  rewrite <- Hs in *.
  destruct (dict_mem (strip arg) (clients (srv h))) eqn:Hm.
  - left. eexists. split; [right; reflexivity|].
    apply dict_mem_In in Hm.
    pose proof (login_body_taken c arg h Harg Hsp Hn Hm) as H.
    unfold answers in H. rewrite H. unfold lift, sendall, after_send.
    reflexivity.
  - right. apply dict_mem_false in Hm.
    apply login_body_free; assumption.
Qed.

(** A line without a newline, handled by a tidy handler, adds whole lines
    only and leaves the handler tidy. *)
Lemma handle_line_tidy (c : sock) (line : str) (h : handler) :
  contains LF line = false ->
  tidy h ->
  tidy (snd (handle_line c line h))
  /\ adds_lines (srv h) (srv (snd (handle_line c line h))).
Proof.
  intros Hline Ht. apply contains_false in Hline.
  destruct (strip line) as [|x r] eqn:Hl.
  - rewrite (handle_line_blank _ _ _ Hl). split;
      [exact Ht | apply adds_lines_refl].
  - assert (Hne : strip line <> []) by (rewrite Hl; discriminate).
    destruct (parse (strip line)) as [cmd arg] eqn:Hp.
    assert (Harg : ~ In LF arg).
    { intros H. apply (In_parse_arg _ _ _ _ Hp) in H.
      apply In_strip in H. contradiction. }
    destruct (truthy (username h)) eqn:Hu.
    + rewrite (handle_line_authenticated c line h cmd arg Hu Hne Hp).
      unfold authenticated_body.
      destruct (str_eqb cmd (T "MSG")).
      { destruct (length arg =? 0)%nat;
          [split; [exact Ht | apply adds_lines_refl]|].
        split; [apply tidy_lift; [exact Ht | apply broadcast_incl]|].
        rewrite srv_lift. apply broadcast_adds_lines.
        destruct Ht as [_ Hn]. intros H. no_lf. }
      destruct (str_eqb cmd (T "WHO")).
      { split.
        - apply tidy_lift; [exact Ht|]. unfold bind, gets.
          apply incl_of_eq. apply send_text_clients.
        - rewrite srv_lift. unfold bind, gets.
          pose proof (send_text_adds_lines c
                        (T "USERS " ++ join (T ", ") (keys (clients (srv h))))
                        (srv h)) as H.
          rewrite <- !app_assoc in H. apply H.
          intros Hin. no_lf. apply In_join in Hin.
          destruct Hin as [Hin|(n & Hn & Hx)];
            [vm_compute in Hin; intuition discriminate|].
          destruct Ht as [Hnames _]. unfold no_newline_names in Hnames.
          rewrite Forall_forall in Hnames. apply (Hnames n Hn Hx). }
      destruct (str_eqb cmd (T "PING")).
      { split; [apply tidy_lift; [exact Ht | apply incl_refl]|].
        rewrite srv_lift. apply sendall_adds_lines. literal. }
      destruct (str_eqb cmd (T "DM")).
      { split.
        - apply tidy_lift; [exact Ht|]. apply incl_of_eq.
          apply handle_dm_clients.
        - rewrite srv_lift. apply handle_dm_adds_lines;
            [destruct Ht as [_ Hn]; exact Hn | exact Harg]. }
      split; [apply tidy_lift; [exact Ht | apply incl_refl]|].
      rewrite srv_lift. apply sendall_adds_lines. literal.
    + rewrite (handle_line_unauthenticated c line h cmd arg Hu Hne Hp).
      destruct (str_eqb cmd (T "LOGIN")).
      2:{ split; [apply tidy_lift; [exact Ht | apply incl_refl]|].
          rewrite srv_lift. apply sendall_adds_lines. literal. }
      destruct (login_body_cases c arg h) as [(s & Hs & E)|E]; rewrite E.
      { split; [apply tidy_lift; [exact Ht | apply incl_refl]|].
        rewrite srv_lift. apply sendall_adds_lines.
        destruct Hs as [->| ->]; literal. }
      assert (Hname : ~ In LF (strip arg))
        by (intros H; apply In_strip in H; contradiction).
      destruct Ht as [Hnames _]. unfold registered. simpl. split.
      * split; [|exact Hname]. unfold no_newline_names in *. simpl.
        rewrite keys_app. apply Forall_app. split; [exact Hnames|].
        constructor; [exact Hname | constructor].
      * unfold adds_lines. simpl. eexists. split; [reflexivity|].
        constructor; [literal | constructor].
Qed.

Lemma finally_clause_adds_lines (c : sock) (h : handler) :
  tidy h -> adds_lines (srv h) (srv (snd (finally_clause c h))).
Proof.
  intros [_ Hu]. rewrite finally_clause_unfold.
  assert (Hclose : forall h0 : handler,
            adds_lines (srv h0) (srv (snd (lift (catch (close c) (ret tt)) h0)))).
  { intros h0. unfold lift, catch, close, ret, add_event, adds_lines.
    destruct (close_ok (log (srv h0)) c); simpl;
      (eexists; split; [reflexivity|]; repeat constructor). }
  destruct (truthy (username h)).
  - rewrite lift_eq.
    pose proof (disconnect_user_adds_lines (name_of (username h)) (srv h) Hu)
      as H.
    destruct (fst (disconnect_user (name_of (username h)) (srv h))).
    + eapply adds_lines_trans; [exact H|]. apply (Hclose {| srv := _ |}).
    + exact H.
  - apply Hclose.
Qed.

Lemma handle_client_adds_lines (c : sock) (inputs : list recv_result)
    (w : world) :
  no_newline_names w ->
  adds_lines w (srv (snd (handle_client c inputs w))).
Proof.
  intros Hw. rewrite handle_client_unfold. cbv zeta.
  set (h0 := {| srv := w; username := None; buffer := [] |}).
  assert (Hwel : forall ok,
            tidy (after_send h0 c welcome ok)
            /\ adds_lines w (srv (after_send h0 c welcome ok))).
  { intros ok. split.
    - split; [exact Hw|]. intros H. vm_compute in H. intuition discriminate.
    - unfold adds_lines. simpl. eexists. split; [reflexivity|].
      constructor; [|constructor]. unfold welcome. literal. }
  assert (Hfin : forall h',
            tidy h' /\ adds_lines w (srv h') ->
            adds_lines w
              (srv (snd (match finally_clause c h' with
                         | (Ok _, h2) => (Ok true, h2)
                         | (Raise e, h2) => (Raise e, h2)
                         end)))).
  { intros h' [Ht Ha].
    pose proof (adds_lines_trans _ _ _ Ha (finally_clause_adds_lines c h' Ht))
      as H.
    destruct (finally_clause c h') as [[u|e] h2]; exact H. }
  destruct (send_ok (log w) c welcome).
  - pose proof (recv_loop_preserves
                  (fun h => tidy h /\ adds_lines w (srv h)) c
                  (fun line h Hl H =>
                     conj (proj1 (handle_line_tidy c line h Hl (proj1 H)))
                          (adds_lines_trans _ _ _ (proj2 H)
                             (proj2 (handle_line_tidy c line h Hl (proj1 H)))))
                  (fun b h H => H) inputs
                  (after_send h0 c welcome true) (Hwel true)) as H.
    destruct (recv_loop c inputs _) as [[[|]|e] h'].
    + apply Hfin. exact H.
    + destruct H as [_ H]. exact H.
    + apply Hfin. exact H.
  - apply Hfin. apply Hwel.
Qed.

(** X18.  Whatever a client sends, the server sends whole lines only: on a
    registry whose names hold no newline, the data of every [sendall] of a
    run of [handle_client] ends with the only byte [0x0a] it holds, and is
    the UTF-8 encoding of a text without a newline followed by the
    newline.  No input makes the server emit a partial line or two lines in
    one message. *)
Theorem server_sends_whole_lines (c : sock) (inputs : list recv_result)
    (w : world) :
  no_newline_names w ->
  exists evs,
    log (srv (snd (handle_client c inputs w))) = log w ++ evs
    /\ forall s data ok,
         In (EvSend s data ok) evs ->
         (exists body, data = body ++ [x0a] /\ ~ In x0a body)
         /\ (exists text, ~ In LF text /\ decode data = Some (text ++ [LF])).
Proof.
  intros Hw.
  destruct (handle_client_adds_lines c inputs w Hw) as (evs & E & Hl).
  exists evs. split; [exact E|].
  intros s data ok Hin. unfold sends_lines in Hl.
  rewrite Forall_forall in Hl. apply (line_bytes_facts data (Hl _ Hin)).
Qed.

(** ** Starting up *)

(** X19.  The port of the server.  A [CHAT_PORT] that is set and is not a
    number ends the process with an uncaught [ValueError], whatever the
    command line says, because it is converted before the command line is
    looked at; otherwise the first command-line argument decides when there
    is one (the port it denotes, or exit status 1 when it is not a number),
    and without one the port is that of [CHAT_PORT], or 4000 when it is not
    set. *)
Theorem startup_port (int : str -> option Z) (CHAT_PORT : option str)
    (argv : list str) :
  let from_env := match CHAT_PORT with
                  | Some s => int s
                  | None => Some 4000
                  end in
  (main int CHAT_PORT argv = UncaughtValueError
   <-> exists s, CHAT_PORT = Some s /\ int s = None)
  /\ (main int CHAT_PORT argv = ExitInvalidPort
      <-> from_env <> None /\ (1 < length argv)%nat
          /\ int (nth 1 argv []) = None)
  /\ (forall p,
        main int CHAT_PORT argv = Serve p
        <-> from_env <> None
            /\ if (1 <? length argv)%nat
               then int (nth 1 argv []) = Some p
               else from_env = Some p).
Proof.
  cbv zeta. unfold main.
  destruct CHAT_PORT as [s|]; [destruct (int s) as [port|] eqn:Es|];
    destruct (Nat.ltb_spec 1 (length argv));
    try destruct (int (nth 1 argv [])) as [q|] eqn:Ea;
    repeat split; intros;
    repeat match goal with
           | H : exists _, _ |- _ => destruct H
           | H : _ /\ _ |- _ => destruct H
           end;
    try discriminate; try congruence; try lia; eauto.
Qed.

End Server.

(** ** The text primitives on examples *)

Example split_once_two : split_once SP (T "LOGIN  bob") = [T "LOGIN"; T " bob"].
Proof. reflexivity. Qed.

Example split_once_none : split_once SP (T "WHO") = [T "WHO"].
Proof. reflexivity. Qed.

Example strip_both_ends : strip (T "  a b ") = T "a b".
Proof. reflexivity. Qed.

Example decode_e_acute : decode [xc3; xa9; x0a] = Some [0xE9; LF].
Proof. reflexivity. Qed.

Example decode_truncated : decode [xc3] = None.
Proof. reflexivity. Qed.

Example decode_stray_continuation : decode [xa9; x0a] = None.
Proof. reflexivity. Qed.

Example decode_overlong : decode [xc0; x80] = None.
Proof. reflexivity. Qed.

Example decode_surrogate : decode [xed; xa0; x80] = None.
Proof. reflexivity. Qed.

Example decode_astral : decode [xf0; x9f; x98; x80] = Some [0x1F600].
Proof. reflexivity. Qed.

Example encode_e_acute : encode [0xE9; LF] = Some [xc3; xa9; x0a].
Proof. reflexivity. Qed.

Example encode_surrogate : encode [0xD800] = None.
Proof. reflexivity. Qed.

Example encode_euro : encode [0x20AC] = Some [xe2; x82; xac].
Proof. reflexivity. Qed.

(** ** The framing of lines and the chunks of the stream *)

(** C2.  The stream [LOGIN zo\xc3\xa9\n] is valid UTF-8.  Received in one
    chunk it logs the client in; received in two chunks that meet inside the
    two-byte character, both chunks fail to decode on their own and are
    dropped, so that no line is framed at all.  And an undecodable byte takes
    the complete lines of its chunk with it: [PING\n\xff\n] in one chunk is
    answered by nothing, while [PING\n] followed by [\xff\n] is answered. *)
Theorem chunk_boundary_inside_character_loses_line :
  let zoe : str := T "zo" ++ [0xE9] in
  let run := handle_client ascii_upper always_sent always_closed 1%nat in
  decode (B "LOGIN zo" ++ [xc3; xa9; x0a]) = Some (T "LOGIN " ++ zoe ++ [LF])
  /\ run [Data (B "LOGIN zo" ++ [xc3; xa9; x0a])] nobody
     = (Ok false,
        {| srv := {| clients := [(zoe, 1%nat)];
                     log := [EvSend 1%nat welcome true;
                             EvSend 1%nat (Bn "OK") true] |};
           username := Some zoe;
           buffer := [] |})
  /\ run [Data (B "LOGIN zo" ++ [xc3]); Data [xa9; x0a]] nobody
     = (Ok false,
        {| srv := {| clients := []; log := [EvSend 1%nat welcome true] |};
           username := None;
           buffer := [] |})
  /\ run [Data (B "PING" ++ [x0a; xff; x0a])] nobody
     = (Ok false,
        {| srv := {| clients := []; log := [EvSend 1%nat welcome true] |};
           username := None;
           buffer := [] |})
  /\ run [Data (B "PING" ++ [x0a]); Data [xff; x0a]] nobody
     = (Ok false,
        {| srv := {| clients := [];
                     log := [EvSend 1%nat welcome true;
                             EvSend 1%nat (Bn "ERR login-required") true] |};
           username := None;
           buffer := [] |}).
Proof. cbv zeta. repeat split; vm_compute; reflexivity. Qed.

(** ** The statements at concrete inputs *)

Ltac concrete :=
  match goal with
  | |- _ <> _ => let H := fresh in intro H; vm_compute in H; discriminate H
  | |- ~ In _ _ =>
      let H := fresh in intro H; vm_compute in H; intuition discriminate
  | |- In _ _ => vm_compute; auto
  | |- unique_keys _ =>
      unfold unique_keys;
      repeat (constructor;
              [let H := fresh in
               intro H; vm_compute in H; intuition discriminate|]);
      constructor
  | |- _ => vm_compute; reflexivity
  end.

(** [dm bob] from [alice]: no message after the name. *)
Lemma dm_without_space_is_usage_error_witness :
  answers always_sent
    (handle_line ascii_upper always_sent 1%nat (T "dm bob")
       (logged_in alice alice_and_bob))
    (logged_in alice alice_and_bob) 1%nat
    (Bn "ERR usage: DM <username> <message>").
Proof.
  apply (dm_without_space_is_usage_error ascii_upper always_sent 1%nat
           (T "dm bob") (logged_in alice alice_and_bob) (T "bob"));
    concrete.
Defined.

(** C1 as stated fails.  [DM  hi], with two spaces, has the argument [ hi],
    whose part before the first space is empty; the target is looked up all
    the same and the answer is [ERR user-not-found].  And an argument with
    nothing after its first space, given to [handle_dm], is delivered as an
    empty message. *)
Lemma dm_with_empty_part_is_not_usage_error :
  let h := logged_in alice alice_and_bob in
  parse ascii_upper (strip (T "DM  hi")) = (T "DM", T " hi")
  /\ two_nonempty_parts (T " hi") = false
  /\ handle_line ascii_upper always_sent 1%nat (T "DM  hi") h
     = (Ok tt, after_send h 1%nat (Bn "ERR user-not-found") true)
  /\ ~ answers always_sent
         (handle_line ascii_upper always_sent 1%nat (T "DM  hi") h)
         h 1%nat (Bn "ERR usage: DM <username> <message>")
  /\ two_nonempty_parts (T "bob ") = false
  /\ handle_dm always_sent alice (T "bob ") 1%nat alice_and_bob
     = (Ok tt,
        {| clients := clients alice_and_bob;
           log := [EvSend 2%nat (Bn "DM alice ") true] |}).
Proof.
  cbv zeta. repeat split; try (vm_compute; reflexivity).
  intros H. vm_compute in H. discriminate H.
Qed.

(** [DM bob hello there] and [DM carol hi] from [alice]. *)
Lemma dm_goes_to_the_target_only_witness :
  let h := logged_in alice alice_and_bob in
  handle_line ascii_upper always_sent 1%nat (T "DM bob hello there") h
  = (Ok tt, after_send h 2%nat (Bn "DM alice hello there") true)
  /\ ~ In (EvSend 1%nat (Bn "DM alice hello there") true)
         (log (srv (snd (handle_line ascii_upper always_sent 1%nat
                           (T "DM bob hello there") h))))
  /\ answers always_sent
       (handle_line ascii_upper always_sent 1%nat (T "DM carol hi") h)
       h 1%nat (Bn "ERR user-not-found").
Proof.
  cbv zeta.
  pose proof (dm_goes_to_the_target_only ascii_upper always_sent 1%nat
                (T "DM bob hello there") (logged_in alice alice_and_bob)
                alice bob (T "hello there") (Bn "DM alice hello there")
                ltac:(concrete) ltac:(concrete) ltac:(concrete)
                ltac:(concrete) ltac:(concrete) ltac:(concrete)) as Hbob.
  change (dict_get bob (clients (srv (logged_in alice alice_and_bob))))
    with (Some 2%nat) in Hbob.
  destruct Hbob as [Hsend Hquiet].
  split; [exact Hsend|]. split.
  - intros Hin. apply (Hquiet ltac:(discriminate) _ _ Hin).
  - apply (dm_goes_to_the_target_only ascii_upper always_sent 1%nat
             (T "DM carol hi") (logged_in alice alice_and_bob)
             alice carol (T "hi") (Bn "DM alice hi"));
      concrete.
Defined.

(** C8 as stated fails.  [DM alice hi] typed by [alice] is well formed and
    its target is registered; the line [DM alice hi] is written to the
    socket registered for [alice], which is the socket of the sender: the
    sender is sent something. *)
Lemma dm_to_oneself_is_sent_to_the_sender :
  let h := logged_in alice alice_and_bob in
  parse ascii_upper (strip (T "DM alice hi")) = (T "DM", alice ++ SP :: T "hi")
  /\ dict_get alice (clients (srv h)) = Some 1%nat
  /\ handle_line ascii_upper always_sent 1%nat (T "DM alice hi") h
     = (Ok tt, after_send h 1%nat (Bn "DM alice hi") true)
  /\ In (EvSend 1%nat (Bn "DM alice hi") true)
        (log (srv (snd (handle_line ascii_upper always_sent 1%nat
                          (T "DM alice hi") h)))).
Proof.
  cbv zeta. repeat split; try (vm_compute; reflexivity).
  vm_compute. left. reflexivity.
Qed.

(** [DM bob hi] from [alice] when the socket of [bob] is broken. *)
Lemma undelivered_dm_evicts_nobody_witness :
  let h := logged_in alice alice_and_bob in
  let r := handle_line ascii_upper (broken 2%nat) 1%nat (T "DM bob hi") h in
  fst r = Ok tt
  /\ clients (srv (snd r)) = clients alice_and_bob
  /\ dict_get bob (clients (srv (snd r))) = Some 2%nat
  /\ log (srv (snd r)) = [EvSend 2%nat (Bn "DM alice hi") false]
  /\ username (snd r) = Some alice
  /\ buffer (snd r) = [].
Proof.
  apply (undelivered_dm_evicts_nobody ascii_upper (broken 2%nat) 1%nat
           (T "DM bob hi") (logged_in alice alice_and_bob)
           alice bob (T "hi") (Bn "DM alice hi") 2%nat);
    concrete.
Defined.

(** [LOGIN] alone, and [LOGIN a b]. *)
Lemma login_invalid_username_witness :
  answers always_sent
    (handle_line ascii_upper always_sent 3%nat (T "LOGIN")
       (anonymous alice_and_bob))
    (anonymous alice_and_bob) 3%nat (Bn "ERR invalid-username")
  /\ answers always_sent
       (handle_line ascii_upper always_sent 3%nat (T "login a b")
          (anonymous alice_and_bob))
       (anonymous alice_and_bob) 3%nat (Bn "ERR invalid-username").
Proof.
  split.
  - apply (login_invalid_username ascii_upper always_sent 3%nat (T "LOGIN")
             (anonymous alice_and_bob) []); try concrete.
    left; reflexivity.
  - apply (login_invalid_username ascii_upper always_sent 3%nat
             (T "login a b") (anonymous alice_and_bob) (T "a b"));
      try concrete.
    right; reflexivity.
Defined.

(** C3 as stated fails.  [LOGIN  carol], with two spaces, has the argument
    [ carol], which contains a space; the name is trimmed to [carol] and
    registered, and the answer is [OK]. *)
Lemma login_argument_with_leading_space_is_accepted :
  let h := anonymous alice_and_bob in
  parse ascii_upper (strip (T "LOGIN  carol")) = (T "LOGIN", T " carol")
  /\ contains SP (T " carol") = true
  /\ handle_line ascii_upper always_sent 3%nat (T "LOGIN  carol") h
     = (Ok tt,
        {| srv := {| clients := [(alice, 1%nat); (bob, 2%nat); (carol, 3%nat)];
                     log := [EvSend 3%nat (Bn "OK") true] |};
           username := Some carol;
           buffer := [] |})
  /\ ~ answers always_sent
         (handle_line ascii_upper always_sent 3%nat (T "LOGIN  carol") h)
         h 3%nat (Bn "ERR invalid-username").
Proof.
  cbv zeta. repeat split; try (vm_compute; reflexivity).
  intros H. vm_compute in H. discriminate H.
Qed.

(** A second [LOGIN bob], and the registry after a broadcast that evicts. *)
Lemma registry_keys_stay_unique_witness :
  unique_keys
    (snd (broadcast (broken 2%nat) (T "MSG alice hi") (Some alice)
            alice_and_bob))
  /\ answers always_sent
       (handle_line ascii_upper always_sent 3%nat (T "LOGIN bob")
          (anonymous alice_and_bob))
       (anonymous alice_and_bob) 3%nat (Bn "ERR username-taken").
Proof.
  assert (Hw : unique_keys alice_and_bob) by concrete.
  destruct (registry_keys_stay_unique ascii_upper (broken 2%nat)
              always_closed alice_and_bob Hw) as [Hstep _].
  destruct (registry_keys_stay_unique ascii_upper always_sent
              always_closed alice_and_bob Hw) as [_ Htaken].
  split.
  - apply (Hstep (snd (broadcast (broken 2%nat) (T "MSG alice hi")
                         (Some alice) alice_and_bob))).
    apply (step_broadcast ascii_upper (broken 2%nat) always_closed
             (T "MSG alice hi") (Some alice) alice_and_bob
             (fst (broadcast (broken 2%nat) (T "MSG alice hi") (Some alice)
                     alice_and_bob))).
    vm_compute; reflexivity.
  - apply (Htaken 3%nat (T "LOGIN bob") (anonymous alice_and_bob) bob);
      concrete.
Defined.

(** [MSG hi all] from [alice] among three users, the socket of [bob]
    broken. *)
Lemma msg_reaches_every_other_session_witness :
  let h := logged_in alice three_users in
  let r := handle_line ascii_upper (broken 2%nat) 1%nat (T "MSG hi all") h in
  handle_line ascii_upper (broken 2%nat) 1%nat (T "MSG") h = (Ok tt, h)
  /\ fst r = Ok tt
  /\ exists events,
       log (srv (snd r)) = log (srv h) ++ events
       /\ Forall2
            (fun kv e => exists ok, e = EvSend (snd kv) (Bn "MSG alice hi all") ok)
            [(bob, 2%nat); (carol, 3%nat)] events.
Proof.
  cbv zeta.
  assert (Hw : unique_keys (srv (logged_in alice three_users))) by concrete.
  split.
  - refine (proj1 (msg_reaches_every_other_session ascii_upper (broken 2%nat)
                     1%nat (T "MSG") (logged_in alice three_users) alice []
                     _ _ Hw _ _) eq_refl); concrete.
  - destruct (msg_reaches_every_other_session ascii_upper (broken 2%nat)
                1%nat (T "MSG hi all") (logged_in alice three_users) alice
                (T "hi all")) as [_ H]; try concrete.
    destruct (H (Bn "MSG alice hi all")) as (H1 & _ & H2); try concrete.
    split; [exact H1 | exact H2].
Defined.

(** A broadcast from [alice] among three users, the socket of [bob]
    broken: [carol], who comes after [bob], is written to all the same, and
    [bob] is gone afterwards. *)
Lemma broadcast_evicts_after_the_loop_witness :
  broadcast_loop (broken 2%nat) (T "MSG alice hi") (Some alice)
    (clients three_users) [] three_users
  = (Ok [bob],
     {| clients := clients three_users;
        log := [EvSend 2%nat (Bn "MSG alice hi") false;
                EvSend 3%nat (Bn "MSG alice hi") true] |})
  /\ broadcast (broken 2%nat) (T "MSG alice hi") (Some alice) three_users
     = (Ok tt,
        {| clients := [(alice, 1%nat); (carol, 3%nat)];
           log := [EvSend 2%nat (Bn "MSG alice hi") false;
                   EvSend 3%nat (Bn "MSG alice hi") true] |}).
Proof.
  destruct (broadcast_evicts_after_the_loop (broken 2%nat) (T "MSG alice hi")
              (Some alice) (Bn "MSG alice hi") three_users)
    as (_ & Hloop & Hall & _); try concrete.
  split; [exact Hloop | exact Hall].
Defined.

(** [alice] leaves while [bob] stays, and a newcomer takes the name. *)
Lemma teardown_frees_the_name_witness :
  let after : world :=
    {| clients := [(bob, 2%nat)];
       log := [EvSend 2%nat (Bn "INFO alice disconnected") true;
               EvClose 1%nat true] |} in
  finally_clause always_sent always_closed 1%nat
    (logged_in alice alice_and_bob)
  = (Ok tt, {| srv := after; username := Some alice; buffer := [] |})
  /\ ~ In alice (keys (clients after))
  /\ handle_line ascii_upper always_sent 3%nat (T "LOGIN alice")
       (anonymous after)
     = (Ok tt, registered always_sent (anonymous after) 3%nat alice)
  /\ finally_clause always_sent always_closed 3%nat (anonymous alice_and_bob)
     = (Ok tt,
        {| srv := {| clients := clients alice_and_bob;
                     log := [EvClose 3%nat true] |};
           username := None;
           buffer := [] |}).
Proof.
  cbv zeta.
  assert (Hw : unique_keys (srv (logged_in alice alice_and_bob))) by concrete.
  destruct (teardown_frees_the_name ascii_upper always_sent always_closed
              1%nat (logged_in alice alice_and_bob) Hw)
    as (_ & _ & _ & Hauth & _).
  destruct (Hauth alice (Bn "INFO alice disconnected"))
    as (Hfin & Hfree & Hlogin); try concrete.
  assert (Hw' : unique_keys (srv (anonymous alice_and_bob))) by concrete.
  destruct (teardown_frees_the_name ascii_upper always_sent always_closed
              3%nat (anonymous alice_and_bob) Hw')
    as (_ & _ & _ & _ & Hanon).
  split; [exact Hfin|]. split; [exact Hfree|]. split.
  - apply (Hlogin 3%nat (T "LOGIN alice") alice); concrete.
  - apply Hanon. reflexivity.
Defined.

(** A name with a comma, a tab and a bell character in it. *)
Lemma login_accepts_names_without_space_witness :
  let name : str := T "a,b" ++ [9; 7] ++ T "c" in
  handle_line ascii_upper always_sent 3%nat (T "LOGIN " ++ name)
    (anonymous alice_and_bob)
  = (Ok tt, registered always_sent (anonymous alice_and_bob) 3%nat name).
Proof.
  cbv zeta.
  refine (proj1 (login_accepts_names_without_space ascii_upper always_sent
                   always_closed 3%nat
                   (T "LOGIN " ++ T "a,b" ++ [9; 7] ++ T "c")
                   (anonymous alice_and_bob)
                   (T "a,b" ++ [9; 7] ++ T "c") _ _ _ _ _ _));
    concrete.
Defined.

(** C10 as stated fails at its last step.  [LOGIN a, b] is answered with
    [ERR invalid-username], and in no environment does the name [a, b]
    ever stand in the registry: there is no registered name with a comma
    and a space in it to make the answer to WHO ambiguous. *)
Lemma name_with_comma_space_is_never_registered :
  parse ascii_upper (strip (T "LOGIN a, b")) = (T "LOGIN", T "a, b")
  /\ handle_line ascii_upper always_sent 3%nat (T "LOGIN a, b")
       (anonymous nobody)
     = (Ok tt,
        after_send (anonymous nobody) 3%nat (Bn "ERR invalid-username") true)
  /\ ~ exists upper send_ok close_ok w,
         reachable upper send_ok close_ok w
         /\ In (T "a, b") (keys (clients w)).
Proof.
  repeat split; try (vm_compute; reflexivity).
  intros (upper & send_ok & close_ok & w & Hw & Hin).
  apply reachable_valid_names in Hw. unfold valid_names in Hw.
  rewrite Forall_forall in Hw. destruct (Hw _ Hin) as [_ H].
  apply H. vm_compute. auto.
Qed.

(** ** The further statements at concrete inputs *)

(** [PING] before the login. *)
Lemma command_before_login_is_refused_witness :
  answers always_sent
    (handle_line ascii_upper always_sent 3%nat (T "PING")
       (anonymous alice_and_bob))
    (anonymous alice_and_bob) 3%nat (Bn "ERR login-required").
Proof.
  apply (command_before_login_is_refused ascii_upper always_sent 3%nat
           (T "PING") (anonymous alice_and_bob) (T "PING") []);
    concrete.
Defined.

(** [LOGIN mallory] from [alice], who is logged in. *)
Lemma login_is_final_witness :
  let h := logged_in alice alice_and_bob in
  username (snd (handle_line ascii_upper always_sent 1%nat
                   (T "LOGIN mallory") h)) = Some alice
  /\ answers always_sent
       (handle_line ascii_upper always_sent 1%nat (T "LOGIN mallory") h)
       h 1%nat (Bn "ERR unknown-command").
Proof.
  cbv zeta.
  destruct (login_is_final ascii_upper always_sent 1%nat (T "LOGIN mallory")
              (logged_in alice alice_and_bob)) as [H1 H2]; [concrete|].
  split; [exact H1|].
  apply (H2 (T "LOGIN") (T "mallory")); concrete.
Defined.

(** [carol] logs in from socket 3, then [alice] writes to her. *)
Lemma dm_reaches_a_new_login_witness :
  let h1 := snd (handle_line ascii_upper always_sent 3%nat (T "LOGIN carol")
                   (anonymous alice_and_bob)) in
  let h2 := logged_in alice (srv h1) in
  dict_get carol (clients (srv h1)) = Some 3%nat
  /\ handle_line ascii_upper always_sent 1%nat (T "DM carol hi") h2
     = (Ok tt, after_send h2 3%nat (Bn "DM alice hi") true).
Proof.
  cbv zeta.
  destruct (dm_reaches_a_new_login ascii_upper always_sent 3%nat
              (T "LOGIN carol") (anonymous alice_and_bob) carol)
    as (_ & H2 & H3); try concrete.
  split; [exact H2|].
  apply (H3 1%nat (T "DM carol hi")
           (logged_in alice
              (srv (snd (handle_line ascii_upper always_sent 3%nat
                           (T "LOGIN carol") (anonymous alice_and_bob)))))
           alice (T "hi") (Bn "DM alice hi")); concrete.
Defined.

(** [alice] leaves, then [bob] writes to her. *)
Lemma dm_after_leaving_finds_nobody_witness :
  let h1 := snd (finally_clause always_sent always_closed 1%nat
                   (logged_in alice alice_and_bob)) in
  let h2 := logged_in bob (srv h1) in
  answers always_sent
    (handle_line ascii_upper always_sent 2%nat (T "DM alice hi") h2)
    h2 2%nat (Bn "ERR user-not-found").
Proof.
  cbv zeta.
  destruct (dm_after_leaving_finds_nobody ascii_upper always_sent
              always_closed 1%nat (logged_in alice alice_and_bob) alice
              ltac:(concrete) ltac:(concrete) ltac:(concrete)
              ltac:(concrete))
    as (_ & H).
  apply (H 2%nat (T "DM alice hi")
           (logged_in bob
              (srv (snd (finally_clause always_sent always_closed 1%nat
                           (logged_in alice alice_and_bob)))))
           bob (T "hi")); concrete.
Defined.

(** A broadcast of [alice] with the socket of [bob] broken, and one with
    every socket sound. *)
Lemma broadcast_spares_the_sender_witness :
  In (alice, 1%nat)
    (clients (snd (broadcast (broken 2%nat) (T "MSG alice hi") (Some alice)
                     three_users)))
  /\ clients (snd (broadcast always_sent (T "MSG alice hi") (Some alice)
                     three_users))
     = clients three_users.
Proof.
  split.
  - apply (proj1 (broadcast_spares_the_sender (broken 2%nat)
                    (T "MSG alice hi") alice (Bn "MSG alice hi") three_users
                    ltac:(concrete) ltac:(concrete)) 1%nat).
    concrete.
  - apply (proj2 (broadcast_spares_the_sender always_sent
                    (T "MSG alice hi") alice (Bn "MSG alice hi") three_users
                    ltac:(concrete) ltac:(concrete))).
    reflexivity.
Defined.

(** The step of [carol] logging in: her binding is new, and her name was
    not registered. *)
Lemma step_keeps_bindings_witness :
  In (carol, 3%nat) (clients alice_and_bob)
  \/ ~ In carol (keys (clients alice_and_bob)).
Proof.
  apply (proj2 (step_keeps_bindings ascii_upper always_sent always_closed
                  alice_and_bob _ ltac:(concrete)
                  (step_line ascii_upper always_sent always_closed 3%nat
                     (T "LOGIN carol") (anonymous alice_and_bob) _ _
                     (surjective_pairing _))) carol 3%nat).
  concrete.
Defined.

(** A message with a lone surrogate in it, broadcast for [alice]. *)
Lemma unencodable_broadcast_evicts_all_witness :
  broadcast always_sent [0xD800] (Some alice) three_users
  = (Ok tt, {| clients := [(alice, 1%nat)]; log := [] |}).
Proof.
  apply (proj1 (unencodable_broadcast_evicts_all always_sent [0xD800]
                  (Some alice) three_users ltac:(concrete) ltac:(concrete))).
Defined.

(** [carol] logs in, then the peer closes. *)
Lemma handle_client_closes_its_socket_witness :
  let r := handle_client ascii_upper always_sent always_closed 3%nat
             [Data (B "LOGIN carol" ++ [x0a]); Data []] alice_and_bob in
  (exists b, fst r = Ok b)
  /\ (fst r = Ok true ->
      exists ok, last_event (srv (snd r)) = Some (EvClose 3%nat ok)).
Proof.
  apply (handle_client_closes_its_socket ascii_upper always_sent
           always_closed 3%nat
           [Data (B "LOGIN carol" ++ [x0a]); Data []] alice_and_bob).
  concrete.
Defined.

(** [carol] logs in while nothing can be sent any more after the welcome:
    the [OK] is lost, and so is the registration. *)
Lemma handle_client_leaves_no_name_witness :
  let env := fun (lg : list event) (s : sock) (d : bytes) =>
               (length lg =? 0)%nat in
  let r := handle_client ascii_upper env always_closed 3%nat
             [Data (B "LOGIN carol" ++ [x0a])] alice_and_bob in
  username (snd r) = Some carol
  /\ ~ In carol (keys (clients (srv (snd r)))).
Proof.
  cbv zeta. split; [concrete|].
  apply (handle_client_leaves_no_name ascii_upper
           (fun lg _ _ => (length lg =? 0)%nat) always_closed 3%nat
           [Data (B "LOGIN carol" ++ [x0a])] alice_and_bob carol);
    concrete.
Defined.

(** A connection whose socket is broken from the start. *)
Lemma failed_welcome_ends_the_handler_witness :
  handle_client ascii_upper (broken 3%nat) always_closed 3%nat
    [Data (B "LOGIN carol" ++ [x0a])] alice_and_bob
  = (Ok true,
     {| srv := {| clients := clients alice_and_bob;
                  log := [EvSend 3%nat welcome false; EvClose 3%nat true] |};
        username := None;
        buffer := [] |}).
Proof.
  apply (failed_welcome_ends_the_handler ascii_upper (broken 3%nat)
           always_closed 3%nat [Data (B "LOGIN carol" ++ [x0a])]
           alice_and_bob).
  concrete.
Defined.

(** [PING] and the beginning of a second line. *)
Lemma waiting_handler_has_no_complete_line_witness :
  let r := handle_client ascii_upper always_sent always_closed 3%nat
             [Data (B "PING" ++ [x0a] ++ B "PI")] alice_and_bob in
  buffer (snd r) = T "PI" /\ contains LF (buffer (snd r)) = false.
Proof.
  cbv zeta. split; [concrete|].
  apply (waiting_handler_has_no_complete_line ascii_upper always_sent
           always_closed 3%nat [Data (B "PING" ++ [x0a] ++ B "PI")]
           alice_and_bob).
  concrete.
Defined.

(** [LOGIN ca] and [rol] with its newline, against the two in one chunk. *)
Lemma chunks_that_decode_may_be_merged_witness :
  let x := handle_client ascii_upper always_sent always_closed 3%nat
             [Data (B "LOGIN ca"); Data (B "rol" ++ [x0a])] alice_and_bob in
  let y := handle_client ascii_upper always_sent always_closed 3%nat
             [Data (B "LOGIN ca" ++ B "rol" ++ [x0a])] alice_and_bob in
  fst x = fst y
  /\ srv (snd x) = srv (snd y)
  /\ username (snd x) = username (snd y)
  /\ (fst x = Ok false -> buffer (snd x) = buffer (snd y)).
Proof.
  apply (chunks_that_decode_may_be_merged ascii_upper always_sent
           always_closed 3%nat [] [] (B "LOGIN ca") (B "rol" ++ [x0a])
           (T "LOGIN ca") (T "rol" ++ [LF]) alice_and_bob);
    concrete.
Defined.

(** Three chunks that cut two lines and the beginning of a third. *)
Lemma receive_messages_keeps_the_text_witness :
  exists new b,
    receive_messages
      [Data (B "OK" ++ [x0a] ++ B "MSG al"); Data (B "ice hi" ++ [x0a]);
       Data (B "PO")] [T "Welcome!"]
    = (false, b, [T "Welcome!"] ++ new)
    /\ unlines new ++ b
       = concat [T "OK" ++ [LF] ++ T "MSG al"; T "ice hi" ++ [LF]; T "PO"]
    /\ contains LF b = false
    /\ Forall (fun l => contains LF l = false) new.
Proof.
  apply (receive_messages_keeps_the_text
           [B "OK" ++ [x0a] ++ B "MSG al"; B "ice hi" ++ [x0a]; B "PO"]
           [T "OK" ++ [LF] ++ T "MSG al"; T "ice hi" ++ [LF]; T "PO"]
           [T "Welcome!"]).
  repeat constructor; concrete.
Defined.

(** The same text cut in two ways. *)
Lemma receive_messages_ignores_cuts_witness :
  receive_messages
    [Data (B "OK" ++ [x0a] ++ B "MSG al"); Data (B "ice hi" ++ [x0a])] []
  = receive_messages
      [Data (B "OK" ++ [x0a]); Data (B "MSG alice hi" ++ [x0a])] [].
Proof.
  apply (receive_messages_ignores_cuts
           [B "OK" ++ [x0a] ++ B "MSG al"; B "ice hi" ++ [x0a]]
           [B "OK" ++ [x0a]; B "MSG alice hi" ++ [x0a]]
           [T "OK" ++ [LF] ++ T "MSG al"; T "ice hi" ++ [LF]]
           [T "OK" ++ [LF]; T "MSG alice hi" ++ [LF]] []);
    repeat constructor; concrete.
Defined.

(** The argument of [LOGIN  bob], with spaces and a tab around. *)
Lemma argument_never_trims_to_nothing_witness :
  strip (T " bob") <> []
  /\ strip (T " bob") = lstrip (T " bob")
  /\ (length (strip (T " bob")) <? 1)%nat = false.
Proof.
  apply (argument_never_trims_to_nothing ascii_upper
           (T "  LOGIN  bob" ++ [9; SP]) (T "LOGIN") (T " bob"));
    concrete.
Defined.

(** A run in which [carol] logs in, asks who is there and writes to all. *)
Lemma server_sends_whole_lines_witness :
  exists evs,
    log (srv (snd (handle_client ascii_upper always_sent always_closed 3%nat
                     [Data (B "LOGIN carol" ++ [x0a] ++ B "WHO" ++ [x0a]);
                      Data (B "MSG hi" ++ [x0a]); Data []] alice_and_bob)))
    = log alice_and_bob ++ evs
    /\ forall s data ok,
         In (EvSend s data ok) evs ->
         (exists body, data = body ++ [x0a] /\ ~ In x0a body)
         /\ (exists text, ~ In LF text /\ decode data = Some (text ++ [LF])).
Proof.
  apply (server_sends_whole_lines ascii_upper always_sent always_closed 3%nat
           [Data (B "LOGIN carol" ++ [x0a] ++ B "WHO" ++ [x0a]);
            Data (B "MSG hi" ++ [x0a]); Data []] alice_and_bob).
  unfold no_newline_names.
  repeat (constructor;
          [let H := fresh in
           intro H; vm_compute in H; intuition discriminate|]).
  constructor.
Defined.
